(** * projectvis: BSP geometry, portals and the visibility flood

    A shallow embedding of [bsp.py] and of the flood loop of [vismain.py],
    together with the properties of the design document that can be
    stated over it.

    Conventions.
    - Python integers are [Z], floats are binary64 values
      ([SpecFloat]). [segment_collision] is also given on rationals
      ([Q]) with exact split points, for what does not depend on them.
    - An element object is named by its path from [head] ([false] is the
      [left] attribute, [true] the [right] one); the [parent] attribute
      of an element is the path without its last step.
    - A Python exception is an [Err] result. *)

From Stdlib Require Import ZArith QArith Lia Lqa Bool List String Ascii.
From Stdlib Require Import DecimalString DecimalPos DecimalZ SpecFloat.
From stdpp Require Import gmap strings list.

Import ListNotations.
Local Open Scope Z_scope.

(** ** Results of fallible calls *)

Inductive PyError : Type :=
| AssertionError
| KeyError
| ValueError
| IndexError
| AttributeError
| TypeError
| UnboundLocalError
| ZeroDivisionError
| OverflowError.

Inductive result (A : Type) : Type :=
| Ok (a : A)
| Err (e : PyError).

Arguments Ok {A} a.
Arguments Err {A} e.

Definition rbind {A B : Type} (m : result A) (f : A -> result B) : result B :=
  match m with
  | Ok a => f a
  | Err e => Err e
  end.

Notation "'doing' x <- m 'then' k" := (rbind m (fun x => k))
  (at level 10, x pattern, m at level 100, k at level 200).

Definition is_ok {A : Type} (m : result A) : bool :=
  match m with Ok _ => true | Err _ => false end.

(** ** Geometry primitives ([bsp.py], module level) *)

Module Geometry.

Definition Point : Type := (Z * Z)%type.
Definition Segment : Type := (Point * Point)%type.

(** [orientation] as written at bsp.py:1082; both products use
    [p3y - p1y] and [p2x - p1x]. *)
Definition orientation (p1 p2 p3 : Point) : Z :=
  let '(p1x, p1y) := p1 in
  let '(p2x, p2y) := p2 in
  let '(p3x, p3y) := p3 in
  let result := (p3y - p1y) * (p2x - p1x) - (p3y - p1y) * (p2x - p1x) in
  if result >? 0 then 1
  else if result <? 0 then -1
  else 0.

(** [point_on_segment], bsp.py:1104. *)
Definition point_on_segment (p segStart segEnd : Point) : bool :=
  let '(px, py) := p in
  let '(segStartX, segStartY) := segStart in
  let '(segEndX, segEndY) := segEnd in
  (px <=? Z.max segStartX segEndX)
  && (px >=? Z.min segStartX segEndX)
  && (py <=? Z.max segStartY segEndY)
  && (py >=? Z.min segStartY segEndY).

(** [segments_intersect], bsp.py:1079. *)
Definition segments_intersect (seg1 seg2 : Segment) : bool :=
  let '(seg1Start, seg1End) := seg1 in
  let '(seg2Start, seg2End) := seg2 in
  let o1 := orientation seg1Start seg1End seg2Start in
  let o2 := orientation seg1Start seg1End seg2End in
  let o3 := orientation seg2Start seg2End seg1Start in
  let o4 := orientation seg2Start seg2End seg1End in
  if negb (o1 =? o2) && negb (o3 =? o4) then true
  else
    ((o1 =? 0) && point_on_segment seg2Start seg1Start seg1End)
    || ((o2 =? 0) && point_on_segment seg2End seg1Start seg1End)
    || ((o3 =? 0) && point_on_segment seg1Start seg2Start seg2End)
    || ((o4 =? 0) && point_on_segment seg1End seg2Start seg2End).

(** The axis-aligned bounding box of a segment, as a proposition. *)
Definition in_bbox (p : Point) (seg : Segment) : Prop :=
  Z.min (fst (fst seg)) (fst (snd seg)) <= fst p <= Z.max (fst (fst seg)) (fst (snd seg))
  /\ Z.min (snd (fst seg)) (snd (snd seg)) <= snd p <= Z.max (snd (fst seg)) (snd (snd seg)).

(** A point of the closed segment from [a] to [b]: [a + t (b - a)] with
    [0 <= t <= 1], over the rationals. *)
Definition on_closed_segment (x y : Q) (seg : Segment) : Prop :=
  exists t : Q,
    (0 <= t)%Q /\ (t <= 1)%Q
    /\ (x == inject_Z (fst (fst seg))
             + t * (inject_Z (fst (snd seg)) - inject_Z (fst (fst seg))))%Q
    /\ (y == inject_Z (snd (fst seg))
             + t * (inject_Z (snd (snd seg)) - inject_Z (snd (fst seg))))%Q.

Definition share_point (seg1 seg2 : Segment) : Prop :=
  exists x y : Q, on_closed_segment x y seg1 /\ on_closed_segment x y seg2.

End Geometry.

(** ** The BSP tree ([bsp.py], classes [BSPTree], [BSPElement],
    [BSPNode], [BSPLeaf]) *)

Module BSP.

(** [BSPNode.Orientation]: [HORIZ = 0], [VERTI = 1]. *)
Inductive Orientation : Type := HORIZ | VERTI.

Definition orientation_code (o : Orientation) : Z :=
  match o with HORIZ => 0 | VERTI => 1 end.

(** [(left, top, right, bottom)]. *)
Definition Bounds : Type := (Z * Z * Z * Z)%type.

(** The elements. [portals] and [pvs] of a leaf live in a side store
    keyed by the leaf (see [Portals]); the transient [id] is assigned by
    [to_vdf]. *)
Inductive BSPElement : Type :=
| BSPLeaf (bounds : Bounds) (solid : bool) (leafID : Z)
| BSPNode (bounds : Bounds) (orientation : Orientation) (partition : Z)
          (left right : BSPElement).

(** An element handle: the attribute steps from [head]. *)
Definition Path : Type := list bool.

Definition bounds_of (e : BSPElement) : Bounds :=
  match e with
  | BSPLeaf b _ _ => b
  | BSPNode b _ _ _ _ => b
  end.

Definition is_leaf (e : BSPElement) : bool :=
  match e with BSPLeaf _ _ _ => true | BSPNode _ _ _ _ _ => false end.

Fixpoint get (e : BSPElement) (p : Path) {struct p} : option BSPElement :=
  match p with
  | [] => Some e
  | d :: p' =>
      match e with
      | BSPLeaf _ _ _ => None
      | BSPNode _ _ _ l r => get (if d then r else l) p'
      end
  end.

(** Assignment to the attribute named by the last step of [p]. *)
Fixpoint replace_at (e : BSPElement) (p : Path) (new : BSPElement)
  {struct p} : option BSPElement :=
  match p with
  | [] => Some new
  | d :: p' =>
      match e with
      | BSPLeaf _ _ _ => None
      | BSPNode b o pt l r =>
          if d then
            match replace_at r p' new with
            | Some r' => Some (BSPNode b o pt l r')
            | None => None
            end
          else
            match replace_at l p' new with
            | Some l' => Some (BSPNode b o pt l' r)
            | None => None
            end
      end
  end.

(** [BSPLeaf.__init__], bsp.py:670. [n] is the class counter
    [BSPLeaf._numLeaves]; the new counter is returned with the leaf. *)
Definition BSPLeaf_init (n : Z) (bounds : Bounds) : BSPElement * Z :=
  (BSPLeaf bounds true n, n + 1).

(** [BSPNode.__init__], bsp.py:569. *)
Definition child_bounds (bounds : Bounds) (o : Orientation) (partition : Z)
  : Bounds * Bounds :=
  let '(left_, top, right_, bottom) := bounds in
  match o with
  | VERTI => ((left_, top, partition, bottom), (partition, top, right_, bottom))
  | HORIZ => ((left_, top, right_, partition), (left_, partition, right_, bottom))
  end.

Definition BSPNode_init (n : Z) (bounds : Bounds) (o : Orientation)
    (partition : Z) : BSPElement * Z :=
  let '(leftBounds, rightBounds) := child_bounds bounds o partition in
  let '(l, n1) := BSPLeaf_init n leftBounds in
  let '(r, n2) := BSPLeaf_init n1 rightBounds in
  (BSPNode bounds o partition l r, n2).

(** [BSPTree]. The dimensions are integers for a tree made by the
    constructor; [from_vdf] passes the strings of the key/value data
    on, hence the parameter. *)
Record BSPTree (D : Type) : Type := mkBSPTree {
  maxWidth : D;
  maxHeight : D;
  head : BSPElement
}.

Arguments mkBSPTree {D} _ _ _.
Arguments maxWidth {D} _.
Arguments maxHeight {D} _.
Arguments head {D} _.

Definition set_head {D : Type} (t : BSPTree D) (h : BSPElement) : BSPTree D :=
  mkBSPTree (maxWidth t) (maxHeight t) h.

(** [BSPTree.__init__], bsp.py:24: no statement of it raises. *)
Definition BSPTree_init (n : Z) (maxWidth maxHeight : Z)
  : result (BSPTree Z * Z) :=
  let '(leaf, n') := BSPLeaf_init n (0, 0, maxWidth, maxHeight) in
  Ok (mkBSPTree maxWidth maxHeight leaf, n').

(** [BSPTree.leaf_from_coords], bsp.py:265; the loop follows one branch
    of the tree, so it is a recursion on the element. The handle of the
    leaf is returned. *)
Fixpoint leaf_from_coords_from (node : BSPElement) (x y : Z) : Path :=
  match node with
  | BSPLeaf _ _ _ => []
  | BSPNode _ HORIZ partition l r =>
      if y >=? partition then true :: leaf_from_coords_from r x y
      else false :: leaf_from_coords_from l x y
  | BSPNode _ VERTI partition l r =>
      if x >=? partition then true :: leaf_from_coords_from r x y
      else false :: leaf_from_coords_from l x y
  end.

Definition leaf_from_coords {D : Type} (t : BSPTree D) (x y : Z) : Path :=
  leaf_from_coords_from (head t) x y.

(** [BSPTree.divide_leaf], bsp.py:297. [leaf] is the handle; a handle
    that names no element of the tree fails the assertion
    [leaf is parent.left or leaf is parent.right]. *)
Definition divide_leaf {D : Type} (t : BSPTree D) (n : Z) (leaf : Path)
    (o : Orientation) (partition : Z) : result (BSPTree D * Z) :=
  match get (head t) leaf with
  | None => Err AssertionError
  | Some leafElem =>
      match leaf with
      | [] =>
          let '(node, n') := BSPNode_init n (bounds_of leafElem) o partition in
          Ok (set_head t node, n')
      | _ :: _ =>
          let '(left_, top, right_, bottom) := bounds_of leafElem in
          if negb (negb (Z.eqb (orientation_code o) (orientation_code VERTI))
                   || ((left_ <? partition) && (partition <? right_)))
          then Err AssertionError
          else if negb (negb (Z.eqb (orientation_code o) (orientation_code HORIZ))
                        || ((top <? partition) && (partition <? bottom)))
          then Err AssertionError
          else
            let '(newNode, n') :=
              BSPNode_init n (bounds_of leafElem) o partition in
            match replace_at (head t) leaf newNode with
            | Some h => Ok (set_head t h, n')
            | None => Err AssertionError
            end
      end
  end.

(** [BSPTree.merge_leaf], bsp.py:334. [removelast leaf] is
    [leaf.parent]. *)
Definition merge_leaf (t : BSPTree Z) (n : Z) (leaf : Path) : BSPTree Z * Z :=
  match leaf with
  | [] => (t, n)
  | [_] =>
      let bounds := (0, 0, maxWidth t, maxHeight t) in
      let '(newLeaf, n') := BSPLeaf_init n bounds in
      (set_head t newLeaf, n')
  | _ :: _ :: _ =>
      let parent := removelast leaf in
      match get (head t) parent with
      | None => (t, n)
      | Some parentElem =>
          let '(newLeaf, n') := BSPLeaf_init n (bounds_of parentElem) in
          match replace_at (head t) parent newLeaf with
          | Some h => (set_head t h, n')
          | None => (t, n)
          end
      end
  end.

(** [get_top_left], [get_bottom_right], [get_width], [get_height] and
    [get_size], bsp.py:545-558. *)
Definition get_top_left (e : BSPElement) : Z * Z :=
  let '(left_, top, right_, bottom) := bounds_of e in (left_, top).

Definition get_bottom_right (e : BSPElement) : Z * Z :=
  let '(left_, top, right_, bottom) := bounds_of e in (right_, bottom).

Definition get_width (e : BSPElement) : Z :=
  let '(left_, top, right_, bottom) := bounds_of e in right_ - left_.

Definition get_height (e : BSPElement) : Z :=
  let '(left_, top, right_, bottom) := bounds_of e in bottom - top.

Definition get_size (e : BSPElement) : Z * Z := (get_width e, get_height e).

(** The bounds of the children follow the partition ([BSPNode.__init__]),
    and the root covers the world. *)
Fixpoint bounds_ok (e : BSPElement) : Prop :=
  match e with
  | BSPLeaf _ _ _ => True
  | BSPNode b o pt l r =>
      bounds_of l = fst (child_bounds b o pt)
      /\ bounds_of r = snd (child_bounds b o pt)
      /\ bounds_ok l /\ bounds_ok r
  end.

Definition tree_ok (t : BSPTree Z) : Prop :=
  bounds_of (head t) = (0, 0, maxWidth t, maxHeight t) /\ bounds_ok (head t).

(** [(x, y)] in the half-open rectangle. *)
Definition contains (b : Bounds) (x y : Z) : Prop :=
  let '(left_, top, right_, bottom) := b in
  left_ <= x < right_ /\ top <= y < bottom.

Definition split_coord (o : Orientation) (x y : Z) : Z :=
  match o with HORIZ => y | VERTI => x end.

(** The descent rule of the design document: at every node of the path
    the step is [right] exactly when the coordinate on the split axis is
    at least the partition, and the path ends at a leaf. *)
Fixpoint follows_point (e : BSPElement) (x y : Z) (p : Path) {struct p} : Prop :=
  match p, e with
  | [], BSPLeaf _ _ _ => True
  | [], BSPNode _ _ _ _ _ => False
  | _ :: _, BSPLeaf _ _ _ => False
  | d :: p', BSPNode _ o pt l r =>
      d = (split_coord o x y >=? pt)
      /\ follows_point (if d then r else l) x y p'
  end.

Definition strictly_between (b : Bounds) (o : Orientation) (partition : Z)
  : Prop :=
  let '(left_, top, right_, bottom) := b in
  match o with
  | VERTI => left_ < partition < right_
  | HORIZ => top < partition < bottom
  end.

(** The tree of the examples: a 128x64 world divided vertically at 64. *)
Definition split_tree : BSPTree Z :=
  mkBSPTree 128 64
    (BSPNode (0, 0, 128, 64) VERTI 64
       (BSPLeaf (0, 0, 64, 64) true 1)
       (BSPLeaf (64, 0, 128, 64) true 2)).

(** [split_tree] after [divide_leaf] of its left leaf, horizontally at
    32, with the leaf counter at 3. *)
Definition divided_tree : BSPTree Z :=
  mkBSPTree 128 64
    (BSPNode (0, 0, 128, 64) VERTI 64
       (BSPNode (0, 0, 64, 64) HORIZ 32
          (BSPLeaf (0, 0, 64, 32) true 3)
          (BSPLeaf (0, 32, 64, 64) true 4))
       (BSPLeaf (64, 0, 128, 64) true 2)).

End BSP.

(** ** Segment collision ([BSPTree.segment_collision], bsp.py:364)

    The descent on positions that are pairs of rationals, with the
    exact split points; [FloatCollision] below has the floating point
    arithmetic of the code. *)

Module Collision.
Import BSP.

Local Open Scope Q_scope.

Definition QPoint : Type := (Q * Q)%type.

Definition Qlt_bool (x y : Q) : bool := negb (Qle_bool y x).

(** [node_seg_collision], bsp.py:385. The result is the handle of the
    leaf, relative to [node]. Positions are rational numbers, and the
    split point is the exact one: the code computes it in floating
    point, with the same value wherever its division, product and sum
    are exact. The general properties proved of this function hold
    whatever the split point is. *)
Fixpoint node_seg_collision (node : BSPElement) (startPos endPos : QPoint)
  : option Path :=
  match node with
  | BSPLeaf _ solid _ => if solid then Some [] else None
  | BSPNode _ o partition l r =>
      let '(startX, startY) := startPos in
      let '(endX, endY) := endPos in
      let checkValues :=
        match o with
        | HORIZ => (startY, endY)
        | VERTI => (startX, endX)
        end in
      let pt := inject_Z partition in
      if Qlt_bool (fst checkValues) pt && Qlt_bool (snd checkValues) pt then
        option_map (cons false) (node_seg_collision l startPos endPos)
      else if Qle_bool pt (fst checkValues) && Qle_bool pt (snd checkValues)
      then
        option_map (cons true) (node_seg_collision r startPos endPos)
      else
        let splitPoint :=
          match o with
          | HORIZ =>
              let ratio := (pt - startY) / (endY - startY) in
              let splitX := (endX - startX) * ratio + startX in
              (splitX, pt)
          | VERTI =>
              let ratio := (pt - startX) / (endX - startX) in
              let splitY := (endY - startY) * ratio + startY in
              (pt, splitY)
          end in
        let startIsLeft := Qlt_bool (fst checkValues) pt in
        let startChild := if startIsLeft then l else r in
        let endChild := if startIsLeft then r else l in
        match node_seg_collision startChild startPos splitPoint with
        | Some result => Some (negb startIsLeft :: result)
        | None =>
            match node_seg_collision endChild splitPoint endPos with
            | Some result => Some (startIsLeft :: result)
            | None => None
            end
        end
  end.

(** The nudge of the entry point, bsp.py:501. *)
Definition nudge (startPos endPos : QPoint) : QPoint :=
  let startPos :=
    if Qlt_bool (fst endPos) (fst startPos)
    then (fst startPos - 1, snd startPos) else startPos in
  if Qlt_bool (snd endPos) (snd startPos)
  then (fst startPos, snd startPos - 1) else startPos.

Definition segment_collision {D : Type} (t : BSPTree D)
    (startPos endPos : QPoint) : option Path :=
  node_seg_collision (head t) (nudge startPos endPos) endPos.

(** *** The geometry the design document speaks of *)

(** The point of the segment from [a] to [b] at parameter [u]. *)
Definition point_at (a b : QPoint) (u : Q) : QPoint :=
  (fst a + u * (fst b - fst a), snd a + u * (snd b - snd a)).

Definition in_interior (b : Bounds) (q : QPoint) : Prop :=
  let '(left_, top, right_, bottom) := b in
  inject_Z left_ < fst q /\ fst q < inject_Z right_
  /\ inject_Z top < snd q /\ snd q < inject_Z bottom.

Definition in_halfopen (b : Bounds) (q : QPoint) : Prop :=
  let '(left_, top, right_, bottom) := b in
  inject_Z left_ <= fst q /\ fst q < inject_Z right_
  /\ inject_Z top <= snd q /\ snd q < inject_Z bottom.

Definition in_closed (b : Bounds) (q : QPoint) : Prop :=
  let '(left_, top, right_, bottom) := b in
  inject_Z left_ <= fst q /\ fst q <= inject_Z right_
  /\ inject_Z top <= snd q /\ snd q <= inject_Z bottom.

(** The open segment crosses a leaf, for a reading [inside] of what it
    is for a point to be in the leaf. *)
Definition crosses (inside : Bounds -> QPoint -> Prop) (b : Bounds)
    (a c : QPoint) : Prop :=
  exists u : Q, 0 < u /\ u < 1 /\ inside b (point_at a c u).



(** Every node below the root has its partition strictly inside its
    bounds (the assertions of [divide_leaf]). *)
Fixpoint partitions_ok (e : BSPElement) : Prop :=
  match e with
  | BSPLeaf _ _ _ => True
  | BSPNode b o pt l r =>
      strictly_between b o pt /\ partitions_ok l /\ partitions_ok r
  end.

Definition inner_partitions_ok (e : BSPElement) : Prop :=
  match e with
  | BSPLeaf _ _ _ => True
  | BSPNode _ _ _ l r => partitions_ok l /\ partitions_ok r
  end.


(** The world split at x = 64, the left half split at y = 32; only the
    bottom-left leaf is solid. *)
Definition corner_tree : BSPTree Z :=
  mkBSPTree 128%Z 64%Z
    (BSPNode (0, 0, 128, 64)%Z VERTI 64
       (BSPNode (0, 0, 64, 64)%Z HORIZ 32
          (BSPLeaf (0, 0, 64, 32)%Z false 0)
          (BSPLeaf (0, 32, 64, 64)%Z true (-1)))
       (BSPLeaf (64, 0, 128, 64)%Z false 1)).

(** The world split at x = 64; only the left leaf is solid. *)
Definition wall_tree : BSPTree Z :=
  mkBSPTree 128%Z 64%Z
    (BSPNode (0, 0, 128, 64)%Z VERTI 64
       (BSPLeaf (0, 0, 64, 64)%Z true (-1))
       (BSPLeaf (64, 0, 128, 64)%Z false 0)).

End Collision.

(** ** Traversal, neighbours and portals ([bsp.py]) *)

Module Portals.
Import BSP.

Fixpoint size_of (e : BSPElement) : nat :=
  match e with
  | BSPLeaf _ _ _ => 1
  | BSPNode _ _ _ l r => S (size_of l + size_of r)
  end.

(** [BSPTree.iter_elements], bsp.py:156. The head of the list is the top
    of [nodeStack]: [left] is appended before [right], so [right] is
    popped first. The fuel bounds the iterations of the [while]. *)
Fixpoint iter_elements_loop (fuel : nat) (nodeStack : list (Path * BSPElement))
  : list (Path * BSPElement) :=
  match fuel with
  | O => []
  | S fuel' =>
      match nodeStack with
      | [] => []
      | (p, node) :: rest =>
          let nodeStack' :=
            match node with
            | BSPNode _ _ _ l r => (p ++ [true], r) :: (p ++ [false], l) :: rest
            | BSPLeaf _ _ _ => rest
            end in
          (p, node) :: iter_elements_loop fuel' nodeStack'
      end
  end.

Definition iter_elements (head : BSPElement) : list (Path * BSPElement) :=
  iter_elements_loop (size_of head) [([], head)].

(** The same order by recursion on the element. *)
Fixpoint elements_from (p : Path) (e : BSPElement) : list (Path * BSPElement) :=
  match e with
  | BSPLeaf _ _ _ => [(p, e)]
  | BSPNode _ _ _ l r =>
      (p, e) :: elements_from (p ++ [true]) r ++ elements_from (p ++ [false]) l
  end.

Definition is_visleaf (e : BSPElement) : bool :=
  match e with
  | BSPLeaf _ solid _ => negb solid
  | BSPNode _ _ _ _ _ => false
  end.

(** [iter_leaves] and [iter_visleaves], bsp.py:171 and 178. *)
Definition iter_leaves (head : BSPElement) : list (Path * BSPElement) :=
  List.filter (fun pe => is_leaf (snd pe)) (iter_elements head).

Definition iter_visleaves (head : BSPElement) : list (Path * BSPElement) :=
  List.filter (fun pe => is_visleaf (snd pe)) (iter_leaves head).

(** [iter_nodes], bsp.py:183. *)
Definition iter_nodes (head : BSPElement) : list (Path * BSPElement) :=
  List.filter (fun pe => negb (is_leaf (snd pe))) (iter_elements head).

(** The directions ['L'], ['T'], ['R'], ['B'] of
    [_iter_directed_neighbors], bsp.py:745. *)
Inductive Direction : Type := DirL | DirT | DirR | DirB.

Definition dir_orientation (dir : Direction) : Orientation :=
  match dir with
  | DirL | DirR => VERTI
  | DirT | DirB => HORIZ
  end.

(** The side from which the common ancestor is approached ([true]:
    [node is node.parent.right]); it is also the child that the descent
    follows at a node of the orientation of the direction. *)
Definition approach_right (dir : Direction) : bool :=
  match dir with
  | DirL | DirT => true
  | DirR | DirB => false
  end.

Definition orientation_eqb (o1 o2 : Orientation) : bool :=
  Z.eqb (orientation_code o1) (orientation_code o2).

(** The ascent, on the reversed path of [node]. *)
Fixpoint find_common_ancestor (head : BSPElement) (dir : Direction)
    (rnode : list bool) : option Path :=
  match rnode with
  | [] => None
  | d :: rparent =>
      match get head (rev rparent) with
      | Some (BSPNode _ o _ _ _) =>
          if orientation_eqb o (dir_orientation dir)
             && Bool.eqb d (approach_right dir)
          then Some (rev rparent)
          else find_common_ancestor head dir rparent
      | _ => None
      end
  end.

Definition extents_overlap (dir : Direction) (nodeBounds selfBounds : Bounds)
  : bool :=
  let '(nl, nt, nr, nb) := nodeBounds in
  let '(sl, st, sr, sb) := selfBounds in
  match dir with
  | DirL | DirR => negb ((nb <=? st) || (nt >=? sb))
  | DirT | DirB => negb ((nr <=? sl) || (nl >=? sr))
  end.

(** The descent from a child of the common ancestor; where both children
    are pushed, [right] is popped first. *)
Fixpoint descend (dir : Direction) (selfBounds : Bounds) (p : Path)
    (node : BSPElement) : list Path :=
  match node with
  | BSPLeaf b _ _ => if extents_overlap dir b selfBounds then [p] else []
  | BSPNode _ o _ l r =>
      if orientation_eqb o (dir_orientation dir) then
        let c := approach_right dir in
        descend dir selfBounds (p ++ [c]) (if c then r else l)
      else
        descend dir selfBounds (p ++ [true]) r
        ++ descend dir selfBounds (p ++ [false]) l
  end.

Definition iter_directed_neighbors (head : BSPElement) (self : Path)
    (dir : Direction) : list Path :=
  match get head self with
  | None => []
  | Some selfElem =>
      match find_common_ancestor head dir (rev self) with
      | None => []
      | Some commonAncestor =>
          let c := negb (approach_right dir) in
          match get head (commonAncestor ++ [c]) with
          | None => []
          | Some child =>
              descend dir (bounds_of selfElem) (commonAncestor ++ [c]) child
          end
      end
  end.

(** [iter_neighbors], bsp.py:909. *)
Definition iter_neighbors (head : BSPElement) (self : Path) : list Path :=
  flat_map (iter_directed_neighbors head self) [DirL; DirT; DirR; DirB].

(** [self in other.iter_..._neighbors()]; [in] compares the leaf objects
    by identity. *)
Definition is_directed_neighbor_of (head : BSPElement) (dir : Direction)
    (self other : Path) : bool :=
  bool_decide (self ∈ iter_directed_neighbors head other dir).

Definition is_neighbor_of (head : BSPElement) (self other : Path) : bool :=
  bool_decide (self ∈ iter_neighbors head other).

(** [BSPPortal]. A portal is hashed by identity: [pid] stands for the
    identity of the object. *)
Record BSPPortal : Type := mkBSPPortal {
  pid : nat;
  leaf1 : Path;
  leaf2 : Path;
  portal_orientation : Orientation;
  portal_start : Z * Z;
  portal_end : Z * Z
}.

(** [BSPPortal.__init__], bsp.py:966. *)
Definition BSPPortal_init (head : BSPElement) (newId : nat)
    (leaf1 leaf2 : Path) : result BSPPortal :=
  match get head leaf1, get head leaf2 with
  | Some (BSPLeaf b1 solid1 _), Some (BSPLeaf b2 solid2 _) =>
      if solid1 then Err AssertionError
      else if solid2 then Err AssertionError
      else
        let '(l1, t1, r1, bt1) := b1 in
        let '(l2, t2, r2, bt2) := b2 in
        let vertical (x : Z) :=
          Ok (mkBSPPortal newId leaf1 leaf2 VERTI
                (x, Z.max t1 t2) (x, Z.min bt1 bt2)) in
        let horizontal (y : Z) :=
          Ok (mkBSPPortal newId leaf1 leaf2 HORIZ
                (Z.max l1 l2, y) (Z.min r1 r2, y)) in
        if is_directed_neighbor_of head DirL leaf1 leaf2 then vertical r1
        else if is_directed_neighbor_of head DirT leaf1 leaf2 then horizontal bt1
        else if is_directed_neighbor_of head DirR leaf1 leaf2 then vertical l1
        else if is_directed_neighbor_of head DirB leaf1 leaf2 then horizontal t1
        else Err AssertionError
  | _, _ => Err AttributeError
  end.

(** [get_other], bsp.py:1022. *)
Definition get_other (portal : BSPPortal) (leaf : Path) : result Path :=
  if bool_decide (leaf = leaf1 portal) then Ok (leaf2 portal)
  else if bool_decide (leaf = leaf2 portal) then Ok (leaf1 portal)
  else Err AssertionError.

(** Portals and their pairs of leaves are kept in hash sets. *)
#[global] Instance Orientation_eq_dec : EqDecision Orientation.
Proof. solve_decision. Defined.

#[global] Instance BSPPortal_eq_dec : EqDecision BSPPortal.
Proof. solve_decision. Defined.

Definition BSPPortal_to_tuple (x : BSPPortal)
  : nat * Path * Path * bool * (Z * Z) * (Z * Z) :=
  (pid x, leaf1 x, leaf2 x,
   match portal_orientation x with HORIZ => false | VERTI => true end,
   portal_start x, portal_end x).

Definition BSPPortal_of_tuple
    (x : nat * Path * Path * bool * (Z * Z) * (Z * Z)) : BSPPortal :=
  let '(i, a, b, o, s, e) := x in
  mkBSPPortal i a b (if o then VERTI else HORIZ) s e.

#[global] Instance BSPPortal_countable : Countable BSPPortal.
Proof.
  apply (inj_countable' BSPPortal_to_tuple BSPPortal_of_tuple).
  intros [i a b [] s e]; reflexivity.
Defined.

(** The portal sets: [BSPTree.portals], the [portals] attribute of every
    leaf (a leaf that is not a key has the empty set), and the next
    unused object identity. *)
Record PortalStore : Type := mkPortalStore {
  tree_portals : gset BSPPortal;
  leaf_portals : gmap Path (gset BSPPortal);
  next_pid : nat
}.

Definition portals_of (st : PortalStore) (leaf : Path) : gset BSPPortal :=
  default ∅ (leaf_portals st !! leaf).

Definition add_leaf_portal (leaf : Path) (portal : BSPPortal)
    (m : gmap Path (gset BSPPortal)) : gmap Path (gset BSPPortal) :=
  <[leaf := {[portal]} ∪ default ∅ (m !! leaf)]> m.

(** The state of the loops of [generate_portals]. *)
Record GenState : Type := mkGenState {
  store : PortalStore;
  alreadyProcessed : gset (gset Path)
}.

Definition leaf_solid (head : BSPElement) (leaf : Path) : bool :=
  match get head leaf with
  | Some (BSPLeaf _ solid _) => solid
  | _ => false
  end.

(** The body of the inner loop, bsp.py:210-223. *)
Definition generate_portals_step (head : BSPElement) (visleaf : Path)
    (g : GenState) (neighbor : Path) : result GenState :=
  if leaf_solid head neighbor then Ok g
  else
    let pair : gset Path := {[visleaf; neighbor]} in
    if bool_decide (pair ∈ alreadyProcessed g) then Ok g
    else
      doing portal <-
        BSPPortal_init head (next_pid (store g)) visleaf neighbor then
      Ok (mkGenState
            (mkPortalStore
               ({[portal]} ∪ tree_portals (store g))
               (add_leaf_portal neighbor portal
                  (add_leaf_portal visleaf portal (leaf_portals (store g))))
               (S (next_pid (store g))))
            ({[pair]} ∪ alreadyProcessed g)).

(** A [for] loop whose body may raise. *)
Fixpoint for_each {A S : Type} (body : S -> A -> result S) (xs : list A)
    (st : S) : result S :=
  match xs with
  | [] => Ok st
  | x :: xs' => doing st' <- body st x then for_each body xs' st'
  end.

(** [BSPTree.generate_portals], bsp.py:190. *)
Definition generate_portals (head : BSPElement) (st : PortalStore)
  : result PortalStore :=
  let visleaves := map fst (iter_visleaves head) in
  let cleared :=
    fold_left (fun m visleaf => <[visleaf := ∅]> m) visleaves
      (leaf_portals st) in
  let g0 := mkGenState (mkPortalStore ∅ cleared (next_pid st)) ∅ in
  doing g <-
    for_each
      (fun g visleaf =>
         for_each (generate_portals_step head visleaf)
           (iter_neighbors head visleaf) g)
      visleaves g0 then
  Ok (store g).

(** The unordered pairs of distinct visleaves of which one is among the
    neighbours of the other. *)
Definition neighbor_pairs (head : BSPElement) : gset (gset Path) :=
  let visleaves := map fst (iter_visleaves head) in
  list_to_set
    (flat_map
       (fun N =>
          flat_map
            (fun V =>
               if bool_decide (V <> N) && is_neighbor_of head V N
               then [({[V; N]} : gset Path)] else [])
            visleaves)
       visleaves).

(** The portals in the sets of the leaves were created before
    [next_pid]. *)
Definition store_fresh (st : PortalStore) : Prop :=
  forall leaf portal, portal ∈ portals_of st leaf -> (pid portal < next_pid st)%nat.

(** Along [p] from [e], no node of orientation [o] is left by the
    child [c]. *)
Fixpoint avoids (o : Orientation) (c : bool) (e : BSPElement) (p : Path)
    {struct p} : Prop :=
  match p with
  | [] => True
  | d :: p' =>
      match e with
      | BSPLeaf _ _ _ => False
      | BSPNode _ o' _ l r =>
          (o' = o -> d <> c) /\ avoids o c (if d then r else l) p'
      end
  end.

Definition opposite (dir : Direction) : Direction :=
  match dir with
  | DirL => DirR
  | DirR => DirL
  | DirT => DirB
  | DirB => DirT
  end.

(** [N] is yielded for [V] in direction [dir], in terms of paths: a
    common ancestor of the orientation of the direction, [V] below its
    child on the side of the approach with no nearer such ancestor, [N]
    below the other child along the partition, and overlapping
    extents. *)
Definition adjacent (head : BSPElement) (dir : Direction) (V N : Path)
  : Prop :=
  let o := dir_orientation dir in
  let c := approach_right dir in
  exists ca vs ns b pt l r bV sV iV bN sN iN,
    V = ca ++ c :: vs /\ N = ca ++ negb c :: ns
    /\ get head ca = Some (BSPNode b o pt l r)
    /\ get (if c then r else l) vs = Some (BSPLeaf bV sV iV)
    /\ avoids o c (if c then r else l) vs
    /\ get (if negb c then r else l) ns = Some (BSPLeaf bN sN iN)
    /\ avoids o (negb c) (if negb c then r else l) ns
    /\ extents_overlap dir bN bV = true.

(** The pairs that the loops of [generate_portals] come across. *)
Definition pairs_with (head : BSPElement) (visleaf : Path)
    (neighbors : list Path) : gset (gset Path) :=
  list_to_set
    (map (fun N => ({[visleaf; N]} : gset Path))
       (List.filter (fun N => negb (leaf_solid head N)) neighbors)).

Definition pairs_seen (head : BSPElement) (visleaves : list Path)
  : gset (gset Path) :=
  ⋃ (map (fun V => pairs_with head V (iter_neighbors head V)) visleaves).

(** What the loops of [generate_portals] keep true; [n0] is the first
    identity given out by the call. *)
Record gen_inv (n0 : nat) (g : GenState) : Prop := mkGenInv {
  inv_next : (n0 <= next_pid (store g))%nat;
  inv_size : size (tree_portals (store g)) = size (alreadyProcessed g);
  inv_new : forall p, p ∈ tree_portals (store g) ->
                      (n0 <= pid p < next_pid (store g))%nat;
  inv_only : forall l p, p ∈ portals_of (store g) l -> (n0 <= pid p)%nat ->
                         p ∈ tree_portals (store g)
                         /\ (l = leaf1 p \/ l = leaf2 p);
  inv_both : forall p, p ∈ tree_portals (store g) ->
                       p ∈ portals_of (store g) (leaf1 p)
                       /\ p ∈ portals_of (store g) (leaf2 p);
  inv_fresh : forall l p, p ∈ portals_of (store g) l ->
                          (pid p < next_pid (store g))%nat
}.

(** A 128x64 world split at x = 64 with two visleaves. *)
Definition open_tree : BSPElement :=
  BSPNode (0, 0, 128, 64) VERTI 64
    (BSPLeaf (0, 0, 64, 64) false 0)
    (BSPLeaf (64, 0, 128, 64) false 1).

Definition empty_store : PortalStore := mkPortalStore ∅ ∅ 0.

(** [BSPPortal.iter_critical_LOS_points], bsp.py:1032; the points in the
    order in which they are yielded. *)
Definition iter_critical_LOS_points (self otherPortal : BSPPortal)
  : list (Z * Z) :=
  let clipped :=
    if orientation_eqb (portal_orientation self)
         (portal_orientation otherPortal)
    then
      match portal_orientation self with
      | VERTI =>
          let startX := fst (portal_start self) in
          let startY := snd (portal_start self) in
          let endY := snd (portal_end self) in
          (if (startY <? snd (portal_start otherPortal))
              && (snd (portal_start otherPortal) <? endY)
           then [(startX, snd (portal_start otherPortal))] else [])
          ++ (if (startY <? snd (portal_end otherPortal))
                 && (snd (portal_end otherPortal) <? endY)
              then [(startX, snd (portal_end otherPortal))] else [])
      | HORIZ =>
          let startY := fst (portal_start self) in
          let startX := snd (portal_start self) in
          let endX := snd (portal_end self) in
          (if (startX <? snd (portal_start otherPortal))
              && (snd (portal_start otherPortal) <? endX)
           then [(fst (portal_start otherPortal), startY)] else [])
          ++ (if (startX <? snd (portal_end otherPortal))
                 && (snd (portal_end otherPortal) <? endX)
              then [(fst (portal_end otherPortal), startY)] else [])
      end
    else [] in
  portal_start self :: clipped ++ [portal_end self].

(** The side of [selfBounds] that faces [dir] lies on the opposite side
    of [nodeBounds]. *)
Definition shares_edge (dir : Direction) (nodeBounds selfBounds : Bounds)
  : Prop :=
  let '(nl, nt, nr, nb) := nodeBounds in
  let '(sl, st, sr, sb) := selfBounds in
  match dir with
  | DirL => nr = sl
  | DirR => nl = sr
  | DirT => nb = st
  | DirB => nt = sb
  end.

(** The edge coordinate of a rectangle on an axis: the low side
    ([left] or [top]) or the high side. *)
Definition edge (o : Orientation) (high : bool) (b : Bounds) : Z :=
  let '(left_, top, right_, bottom) := b in
  match o, high with
  | VERTI, false => left_
  | VERTI, true => right_
  | HORIZ, false => top
  | HORIZ, true => bottom
  end.

(** A 128x64 world split at y = 32 with two visleaves, and the portals
    between the leaves of [open_tree] and of [stacked_tree]. *)
Definition stacked_tree : BSPElement :=
  BSPNode (0, 0, 128, 64) HORIZ 32
    (BSPLeaf (0, 0, 128, 32) false 0)
    (BSPLeaf (0, 32, 128, 64) false 1).

Definition open_portal : BSPPortal :=
  mkBSPPortal 0 [false] [true] VERTI (64, 0) (64, 64).

Definition stacked_portal : BSPPortal :=
  mkBSPPortal 0 [false] [true] HORIZ (0, 32) (128, 32).

(** [BSPTree.load_portals], bsp.py:225; [portalDict] is the list of the
    values of the dictionary. *)
Definition load_portals (head : BSPElement) (portalDict : list BSPPortal)
    (st : PortalStore) : PortalStore :=
  let visleaves := map fst (iter_visleaves head) in
  let cleared :=
    fold_left (fun m visleaf => <[visleaf := ∅]> m) visleaves
      (leaf_portals st) in
  mkPortalStore
    (list_to_set portalDict)
    (fold_left
       (fun m portal =>
          add_leaf_portal (leaf2 portal) portal
            (add_leaf_portal (leaf1 portal) portal m))
       portalDict cleared)
    (next_pid st).

(** [open_tree] as a world, with the portal between its two leaves in
    the sets of the tree and of both leaves. *)
Definition open_world : BSPTree Z := mkBSPTree 128 64 open_tree.

Definition open_store : PortalStore :=
  mkPortalStore {[open_portal]}
    (<[ [false] := {[open_portal]} ]> (<[ [true] := {[open_portal]} ]> ∅)) 1.


End Portals.

(** ** The visibility flood ([build_shroud], vismain.py:501) *)

Module Flood.
Import BSP Portals.

Section BuildShroud.

(** The view cone (two float segments) and the pygame surfaces are kept
    abstract, with the helpers that compute on them: each helper returns
    or raises. [iter_set] is the order in which a [for] loop goes
    through a set. *)
Variables Viewcone Surface : Type.
Variable portal_within_viewcone : BSPPortal -> Viewcone -> result bool.
Variable restrict_viewcone : BSPPortal -> Viewcone -> result Viewcone.
Variable new_shroudmap : Path -> Surface.
Variable fill_surface_within_viewcone :
  Surface -> Path -> Viewcone -> result Surface.
Variable initial_viewcone : Z * Z -> Z * Z -> Viewcone.
Variable iter_set : gset BSPPortal -> list BSPPortal.

(** The state of the loop. [traversed] is not in the source: it lists
    the portals through which a leaf was pushed, latest first. *)
Record FloodState : Type := mkFloodState {
  shroudmapDict : gmap Path Surface;
  alreadyProcessedPortals : gset BSPPortal;
  visleafStack : list (Path * Viewcone);
  traversed : list BSPPortal
}.


(** The body of [for portal in visleaf.portals], vismain.py:582-599. The
    state comes back also when a helper raises. *)
Definition flood_portal (visleaf : Path) (viewcone : Viewcone)
    (st : FloodState) (portal : BSPPortal) : FloodState * option PyError :=
  match portal_within_viewcone portal viewcone with
  | Err e => (st, Some e)
  | Ok within =>
      if within && negb (bool_decide (portal ∈ alreadyProcessedPortals st))
      then
        let st1 :=
          mkFloodState (shroudmapDict st)
            ({[portal]} ∪ alreadyProcessedPortals st)
            (visleafStack st) (traversed st) in
        match restrict_viewcone portal viewcone with
        | Err e => (st1, Some e)
        | Ok newViewcone =>
            match get_other portal visleaf with
            | Err e => (st1, Some e)
            | Ok other =>
                (mkFloodState (shroudmapDict st1)
                   (alreadyProcessedPortals st1)
                   ((other, newViewcone) :: visleafStack st1)
                   (portal :: traversed st1), None)
            end
        end
      else (st, None)
  end.

Fixpoint for_each_portal (visleaf : Path) (viewcone : Viewcone)
    (portals : list BSPPortal) (st : FloodState)
  : FloodState * option PyError :=
  match portals with
  | [] => (st, None)
  | portal :: rest =>
      match flood_portal visleaf viewcone st portal with
      | (st', None) => for_each_portal visleaf viewcone rest st'
      | (st', Some e) => (st', Some e)
      end
  end.

(** One iteration of [while visleafStack], for a non-empty stack. *)
Definition flood_iteration (ps : PortalStore) (visleaf : Path)
    (viewcone : Viewcone) (rest : list (Path * Viewcone)) (st : FloodState)
  : FloodState * option PyError :=
  let shroudmap :=
    match shroudmapDict st !! visleaf with
    | Some shroudmap => shroudmap
    | None => new_shroudmap visleaf
    end in
  let st1 :=
    mkFloodState (<[visleaf := shroudmap]> (shroudmapDict st))
      (alreadyProcessedPortals st) rest (traversed st) in
  match fill_surface_within_viewcone shroudmap visleaf viewcone with
  | Err e => (st1, Some e)
  | Ok filled =>
      let st2 :=
        mkFloodState (<[visleaf := filled]> (shroudmapDict st1))
          (alreadyProcessedPortals st1) (visleafStack st1) (traversed st1) in
      for_each_portal visleaf viewcone (iter_set (portals_of ps visleaf)) st2
  end.

(** The [while] loop; [None] when the fuel does not suffice. *)
Fixpoint flood_loop (ps : PortalStore) (fuel : nat) (st : FloodState)
  : option (FloodState * option PyError) :=
  match visleafStack st with
  | [] => Some (st, None)
  | (visleaf, viewcone) :: rest =>
      match fuel with
      | O => None
      | S fuel' =>
          match flood_iteration ps visleaf viewcone rest st with
          | (st', None) => flood_loop ps fuel' st'
          | (st', Some e) => Some (st', Some e)
          end
      end
  end.

(** [build_shroud] on the tree [t] with the portal sets [ps]. *)
Definition build_shroud_start (t : BSPTree Z) (viewPos viewTarget : Z * Z)
  : FloodState :=
  let playerLeaf := leaf_from_coords t (fst viewPos) (snd viewPos) in
  mkFloodState ∅ ∅ [(playerLeaf, initial_viewcone viewPos viewTarget)] [].

Definition build_shroud (t : BSPTree Z) (ps : PortalStore) (fuel : nat)
    (viewPos viewTarget : Z * Z) : option (FloodState * option PyError) :=
  flood_loop ps fuel (build_shroud_start t viewPos viewTarget).



(** A leaf is reached from the leaf of the viewer: it is that leaf or a
    leaf of a processed portal. *)
Definition reached (player : Path) (st : FloodState) (l : Path) : Prop :=
  l = player
  \/ exists p, p ∈ alreadyProcessedPortals st /\ (l = leaf1 p \/ l = leaf2 p).

(** What the loop keeps true of the leaves with a shroudmap and of the
    leaves on the stack. *)
Record reach_inv (player : Path) (st : FloodState) : Prop := mkReachInv {
  rinv_maps : forall l, is_Some (shroudmapDict st !! l) -> reached player st l;
  rinv_stack : forall l vc, In (l, vc) (visleafStack st) -> reached player st l;
  rinv_player : is_Some (shroudmapDict st !! player)
                \/ exists vc rest, visleafStack st = (player, vc) :: rest
}.

End BuildShroud.



End Flood.

(** ** Serialization ([BSPTree.to_vdf], [BSPTree.from_vdf]) *)

Module Vdf.
Import BSP Portals.

Local Open Scope string_scope.
Local Open Scope Z_scope.

(** The values that [to_vdf] puts in its ordered dictionaries, before
    [str_items]; [VElem] is a reference to an element. *)
Inductive PyKey : Type := KeyStr (s : string) | KeyInt (z : Z).

Inductive PyVal : Type :=
| VInt (z : Z)
| VBool (b : bool)
| VStr (s : string)
| VElem (p : Path)
| VDict (items : list (PyKey * PyVal)).

(** The key/value trees of the persisted format: nested ordered
    dictionaries with string keys and string leaves. *)
Inductive KV : Type :=
| KStr (s : string)
| KDict (items : list (string * KV)).

(** [str] on integers and booleans. *)
Definition str_int (z : Z) : string := NilZero.string_of_int (Z.to_int z).

Definition str_bool (b : bool) : string := if b then "True" else "False".

Definition py_str (v : PyVal) : string :=
  match v with
  | VInt z => str_int z
  | VBool b => str_bool b
  | VStr s => s
  | VElem _ => "<BSPElement>"
  | VDict _ => "OrderedDict()"
  end.

Definition str_key (k : PyKey) : string :=
  match k with
  | KeyStr s => s
  | KeyInt z => str_int z
  end.

(** [str_items], bsp.py:93. *)
Fixpoint str_items (v : PyVal) : KV :=
  match v with
  | VDict items =>
      KDict (map (fun kv => (str_key (fst kv), str_items (snd kv))) items)
  | _ => KStr (py_str v)
  end.

(** [int] on a string: surrounding white space, an optional sign and
    decimal digits. *)
Definition is_space (c : ascii) : bool :=
  let n := nat_of_ascii c in
  (Nat.eqb n 32 || (Nat.leb 9 n && Nat.leb n 13))%bool.

Fixpoint lstrip (s : string) : string :=
  match s with
  | EmptyString => EmptyString
  | String c s' => if is_space c then lstrip s' else s
  end.

Fixpoint rstrip (s : string) : string :=
  match s with
  | EmptyString => EmptyString
  | String c s' =>
      match rstrip s' with
      | EmptyString => if is_space c then EmptyString else String c EmptyString
      | r => String c r
      end
  end.

Definition is_sign (c : ascii) : bool :=
  (Ascii.eqb c "+" || Ascii.eqb c "-")%bool.

Definition py_int (s : string) : result Z :=
  let stripped := rstrip (lstrip s) in
  let numeral :=
    match stripped with
    | String c rest =>
        if Ascii.eqb c "+" then
          match rest with
          | String c2 _ => if is_sign c2 then EmptyString else rest
          | EmptyString => rest
          end
        else stripped
    | EmptyString => stripped
    end in
  match NilZero.int_of_string numeral with
  | Some d => Ok (Z.of_int d)
  | None => Err ValueError
  end.

Definition kv_int (v : KV) : result Z :=
  match v with
  | KStr s => py_int s
  | KDict _ => Err TypeError
  end.

Fixpoint assoc {A : Type} (key : string) (items : list (string * A))
  : option A :=
  match items with
  | [] => None
  | (k, v) :: rest => if String.eqb k key then Some v else assoc key rest
  end.

(** [d[key]]. *)
Definition kv_get (d : KV) (key : string) : result KV :=
  match d with
  | KStr _ => Err TypeError
  | KDict items =>
      match assoc key items with
      | Some v => Ok v
      | None => Err KeyError
      end
  end.

(** [l[i]] with the negative indices of Python. *)
Definition py_index {A : Type} (l : list A) (i : Z) : result nat :=
  let len := Z.of_nat (length l) in
  if (0 <=? i) && (i <? len) then Ok (Z.to_nat i)
  else if (i <? 0) && (- len <=? i) then Ok (Z.to_nat (len + i))
  else Err IndexError.

(** *** [to_vdf] *)

Definition key_eqb (k1 k2 : PyKey) : bool :=
  match k1, k2 with
  | KeyStr a, KeyStr b => String.eqb a b
  | KeyInt a, KeyInt b => Z.eqb a b
  | _, _ => false
  end.

(** [d[k] = v] on an ordered dictionary. *)
Fixpoint od_set (d : list (PyKey * PyVal)) (k : PyKey) (v : PyVal)
  : list (PyKey * PyVal) :=
  match d with
  | [] => [(k, v)]
  | (k', v') :: rest =>
      if key_eqb k' k then (k', v) :: rest else (k', v') :: od_set rest k v
  end.

Definition od_update (d items : list (PyKey * PyVal)) : list (PyKey * PyVal) :=
  fold_left (fun d kv => od_set d (fst kv) (snd kv)) items d.

Fixpoint od_get (d : list (PyKey * PyVal)) (k : PyKey) : option PyVal :=
  match d with
  | [] => None
  | (k', v') :: rest => if key_eqb k' k then Some v' else od_get rest k
  end.

(** [BSPElement.to_dict], bsp.py:533. *)
Definition BSPElement_to_dict (b : Bounds) : list (PyKey * PyVal) :=
  let '(left_, top, right_, bottom) := b in
  [(KeyStr "bounds",
    VDict [(KeyStr "left", VInt left_); (KeyStr "top", VInt top);
           (KeyStr "right", VInt right_); (KeyStr "bottom", VInt bottom)])].

(** [BSPNode.to_dict] and [BSPLeaf.to_dict], bsp.py:606 and 720; [p] is
    the element itself. *)
Definition to_dict (p : Path) (e : BSPElement) : list (PyKey * PyVal) :=
  match e with
  | BSPNode b o pt _ _ =>
      od_update (BSPElement_to_dict b)
        [(KeyStr "type", VStr "BSPNode");
         (KeyStr "orientation", VInt (orientation_code o));
         (KeyStr "partition", VInt pt);
         (KeyStr "left", VElem (p ++ [false])%list);
         (KeyStr "right", VElem (p ++ [true])%list)]
  | BSPLeaf b solid leafID =>
      od_update (BSPElement_to_dict b)
        [(KeyStr "type", VStr "BSPLeaf");
         (KeyStr "leafID", VInt leafID);
         (KeyStr "solid", VBool solid)]
  end.

(** [leaf.leafID = v] for the leaf at [p]. *)
Fixpoint set_leafID (e : BSPElement) (p : Path) (v : Z) {struct p}
  : BSPElement :=
  match p, e with
  | [], BSPLeaf b solid _ => BSPLeaf b solid v
  | [], BSPNode _ _ _ _ _ => e
  | _ :: _, BSPLeaf _ _ _ => e
  | d :: p', BSPNode b o pt l r =>
      if d then BSPNode b o pt l (set_leafID r p' v)
      else BSPNode b o pt (set_leafID l p' v) r
  end.

(** [enumerate]. *)
Fixpoint enumerate_from {A : Type} (i : Z) (l : list A) : list (Z * A) :=
  match l with
  | [] => []
  | x :: l' => (i, x) :: enumerate_from (i + 1) l'
  end.

(** The two renumbering loops, bsp.py:112-118. *)
Definition reset_leaf_ids (head : BSPElement) : BSPElement :=
  fold_left (fun h pe => set_leafID h (fst pe) (-1)) (iter_leaves head) head.

Definition number_visleaves (head : BSPElement) : BSPElement :=
  fold_left (fun h ipe => set_leafID h (fst (snd ipe)) (fst ipe))
    (enumerate_from 0 (iter_visleaves head)) head.

(** [element.id] after the loop at bsp.py:124: the position in
    [iter_elements]. *)
Fixpoint id_of (elems : list (Path * BSPElement)) (p : Path) : option Z :=
  match elems with
  | [] => None
  | (q, _) :: rest =>
      if bool_decide (q = p) then Some 0%Z
      else option_map Z.succ (id_of rest p)
  end.

(** The loop at bsp.py:133: references become ids. *)
Definition ref_id (elems : list (Path * BSPElement)) (v : option PyVal)
  : PyVal :=
  match v with
  | Some (VElem p) => VInt (default 0%Z (id_of elems p))
  | Some v => v
  | None => VInt 0
  end.

Definition fix_references (elems : list (Path * BSPElement))
    (bspElement : list (PyKey * PyVal)) : list (PyKey * PyVal) :=
  match od_get bspElement (KeyStr "type") with
  | Some (VStr "BSPNode") =>
      let d1 := od_set bspElement (KeyStr "left")
                  (ref_id elems (od_get bspElement (KeyStr "left"))) in
      od_set d1 (KeyStr "right")
        (ref_id elems (od_get d1 (KeyStr "right")))
  | _ => bspElement
  end.

(** The dictionary that [to_vdf] hands to [format_vdf], for the tree as
    renumbered. *)
Definition to_kv (maxWidth maxHeight : Z) (head : BSPElement) : KV :=
  let elems := iter_elements head in
  let bspElements := map (fun pe => to_dict (fst pe) (snd pe)) elems in
  let bspElementsDict :=
    map (fun id => (KeyInt (fst id), VDict (fix_references elems (snd id))))
      (enumerate_from 0 bspElements) in
  let bspDict :=
    VDict [(KeyStr "maxWidth", VInt maxWidth);
           (KeyStr "maxHeight", VInt maxHeight);
           (KeyStr "elements", VDict bspElementsDict)] in
  str_items (VDict [(KeyStr "BSP", bspDict)]).

(** *** [from_vdf] *)

(** The objects that pass 1 makes, in a list; pass 2 links a node to
    positions of the list. Before that its children are the leaves made
    by [BSPNode.__init__]. *)
Inductive ChildRef : Type :=
| Fresh (leaf : BSPElement)
| Linked (index : nat).

Inductive Instance : Type :=
| ILeaf (bounds : Bounds) (solid : bool) (leafID : Z)
| INode (bounds : Bounds) (o : Orientation) (partition : Z)
        (left right : ChildRef).

(** [get_bounds_from_dict], bsp.py:521. *)
Definition get_bounds_from_dict (elemDict : KV) : result Bounds :=
  doing boundsDict <- kv_get elemDict "bounds" then
  doing left_ <- rbind (kv_get boundsDict "left") kv_int then
  doing top <- rbind (kv_get boundsDict "top") kv_int then
  doing right_ <- rbind (kv_get boundsDict "right") kv_int then
  doing bottom <- rbind (kv_get boundsDict "bottom") kv_int then
  Ok (left_, top, right_, bottom).

(** [BSPNode.from_dict], bsp.py:598; an orientation other than 0 and 1
    leaves [leftBounds] unbound in [BSPNode.__init__]. *)
Definition BSPNode_from_dict (n : Z) (nodeDict : KV) : result (Instance * Z) :=
  doing bounds <- get_bounds_from_dict nodeDict then
  doing orientation <- rbind (kv_get nodeDict "orientation") kv_int then
  doing partition <- rbind (kv_get nodeDict "partition") kv_int then
  doing o <- (if Z.eqb orientation 1 then Ok VERTI
              else if Z.eqb orientation 0 then Ok HORIZ
              else Err UnboundLocalError) then
  let '(leftBounds, rightBounds) := child_bounds bounds o partition in
  let '(l, n1) := BSPLeaf_init n leftBounds in
  let '(r, n2) := BSPLeaf_init n1 rightBounds in
  Ok (INode bounds o partition (Fresh l) (Fresh r), n2).

(** [BSPLeaf.from_dict], bsp.py:705. *)
Definition BSPLeaf_from_dict (n : Z) (leafDict : KV) : result (Instance * Z) :=
  doing bounds <- get_bounds_from_dict leafDict then
  doing solid <- kv_get leafDict "solid" then
  match solid with
  | KStr solidStr =>
      if String.eqb solidStr "True" || String.eqb solidStr "False" then
        doing leafID <- rbind (kv_get leafDict "leafID") kv_int then
        Ok (ILeaf bounds (String.eqb solidStr "True") leafID, n + 1)
      else Err AssertionError
  | KDict _ => Err AssertionError
  end.

(** Pass 1, bsp.py:61. *)
Fixpoint instantiate_all (n : Z) (elementDicts : list KV)
  : result (list Instance * Z) :=
  match elementDicts with
  | [] => Ok ([], n)
  | elementDict :: rest =>
      doing type_ <- kv_get elementDict "type" then
      doing newElem <-
        match type_ with
        | KStr "BSPNode" => BSPNode_from_dict n elementDict
        | KStr "BSPLeaf" => BSPLeaf_from_dict n elementDict
        | _ => Err AssertionError
        end then
      doing others <- instantiate_all (snd newElem) rest then
      Ok (fst newElem :: fst others, snd others)
  end.

(** Pass 2, bsp.py:74; [count] is [len(elements)]. *)
Definition link (count : list Instance) (element : Instance)
    (elementDict : KV) : result Instance :=
  match element with
  | ILeaf _ _ _ => Ok element
  | INode b o pt _ _ =>
      doing leftIndex <- rbind (kv_get elementDict "left") kv_int then
      doing rightIndex <- rbind (kv_get elementDict "right") kv_int then
      doing l <- py_index count leftIndex then
      doing r <- py_index count rightIndex then
      Ok (INode b o pt (Linked l) (Linked r))
  end.

Fixpoint link_all (elements : list Instance) (todo : list Instance)
    (elementDicts : list KV) : result (list Instance) :=
  match todo, elementDicts with
  | element :: todo', elementDict :: elementDicts' =>
      doing linked <- link elements element elementDict then
      doing others <- link_all elements todo' elementDicts' then
      Ok (linked :: others)
  | _, _ => Ok []
  end.

(** What [from_vdf] returns: the dimensions as read and the objects of
    pass 1 with the links of pass 2; [b.head] is the first object. The
    links are positions in [elements], so that objects which share a
    child or lie on a cycle stay what pass 2 makes them. *)
Record LoadedTree : Type := mkLoadedTree {
  loaded_maxWidth : KV;
  loaded_maxHeight : KV;
  loaded_elements : list Instance
}.

(** The tree that hangs from an object, where the links below it form
    one: a chain of links longer than the fuel gives [None]. *)
Fixpoint unfold_ref (arena : list Instance) (fuel : nat) (ref : ChildRef)
  : option BSPElement :=
  match ref with
  | Fresh leaf => Some leaf
  | Linked i =>
      match fuel with
      | O => None
      | S fuel' =>
          match nth_error arena i with
          | None => None
          | Some (ILeaf b solid leafID) => Some (BSPLeaf b solid leafID)
          | Some (INode b o pt l r) =>
              match unfold_ref arena fuel' l, unfold_ref arena fuel' r with
              | Some l', Some r' => Some (BSPNode b o pt l' r')
              | _, _ => None
              end
          end
      end
  end.

(** The tree below [b.head]; a chain of links without a cycle is no
    longer than the number of objects. *)
Definition loaded_head (t : LoadedTree) : option BSPElement :=
  unfold_ref (loaded_elements t) (S (length (loaded_elements t))) (Linked 0).

(** [from_vdf] after [parse_vdf], bsp.py:49-88; the dimensions stay the
    values of the dictionary. *)
Definition from_kv (n : Z) (kv : KV) : result (LoadedTree * Z) :=
  doing bspDict <- kv_get kv "BSP" then
  doing maxWidth <- kv_get bspDict "maxWidth" then
  doing maxHeight <- kv_get bspDict "maxHeight" then
  let n0 := n + 1 in
  doing elementsDict <- kv_get bspDict "elements" then
  doing elementDicts <-
    match elementsDict with
    | KDict items => Ok (map snd items)
    | KStr _ => Err AttributeError
    end then
  doing instances <- instantiate_all n0 elementDicts then
  doing elements <-
    link_all (fst instances) (fst instances) elementDicts then
  doing _ <- (match elements with [] => Err IndexError | _ => Ok tt end) then
  Ok (mkLoadedTree maxWidth maxHeight elements, snd instances).

Section Format.

(** [vdfutils] is another library: its text format is a parameter. *)
Variable VdfText : Type.
Variable format_vdf : KV -> VdfText.
Variable parse_vdf : VdfText -> result KV.

(** [to_vdf], bsp.py:90: the tree with its leaves renumbered, and the
    text. *)
Definition to_vdf (t : BSPTree Z) : BSPTree Z * VdfText :=
  let head' := number_visleaves (reset_leaf_ids (head t)) in
  (set_head t head', format_vdf (to_kv (maxWidth t) (maxHeight t) head')).

Definition from_vdf (n : Z) (data : VdfText) : result (LoadedTree * Z) :=
  doing kv <- parse_vdf data then from_kv n kv.

End Format.

(** The records of the persisted format. *)
Definition kv_bounds (b : Bounds) : KV :=
  let '(left_, top, right_, bottom) := b in
  KDict [("left", KStr (str_int left_)); ("top", KStr (str_int top));
         ("right", KStr (str_int right_)); ("bottom", KStr (str_int bottom))].

Definition kv_node (b : Bounds) (o : Orientation) (pt leftId rightId : Z)
  : KV :=
  KDict [("bounds", kv_bounds b); ("type", KStr "BSPNode");
         ("orientation", KStr (str_int (orientation_code o)));
         ("partition", KStr (str_int pt));
         ("left", KStr (str_int leftId)); ("right", KStr (str_int rightId))].

Definition kv_leaf (b : Bounds) (solid : bool) (leafID : Z) : KV :=
  KDict [("bounds", kv_bounds b); ("type", KStr "BSPLeaf");
         ("leafID", KStr (str_int leafID)); ("solid", KStr (str_bool solid))].

Definition kv_element (elems : list (Path * BSPElement))
    (pe : Path * BSPElement) : KV :=
  match snd pe with
  | BSPLeaf b solid leafID => kv_leaf b solid leafID
  | BSPNode b o pt _ _ =>
      kv_node b o pt
        (default 0 (id_of elems (fst pe ++ [false])%list))
        (default 0 (id_of elems (fst pe ++ [true])%list))
  end.

(** The object of an element after the two passes. *)
Definition instance_of (elems : list (Path * BSPElement))
    (pe : Path * BSPElement) : Instance :=
  match snd pe with
  | BSPLeaf b solid leafID => ILeaf b solid leafID
  | BSPNode b o pt _ _ =>
      INode b o pt
        (Linked (Z.to_nat (default 0 (id_of elems (fst pe ++ [false])%list))))
        (Linked (Z.to_nat (default 0 (id_of elems (fst pe ++ [true])%list))))
  end.

(** The numbering in one pass, in the order of [iter_elements]: a solid
    leaf gets -1 and the visleaves get [k], [k + 1], ... *)
Fixpoint renumber (e : BSPElement) (k : Z) : BSPElement * Z :=
  match e with
  | BSPLeaf b solid _ =>
      if solid then (BSPLeaf b solid (-1), k) else (BSPLeaf b solid k, k + 1)
  | BSPNode b o pt l r =>
      let '(r', k1) := renumber r k in
      let '(l', k2) := renumber l k1 in
      (BSPNode b o pt l' r', k2)
  end.

(** The tree without the leaf ids. *)
Fixpoint shape (e : BSPElement) : BSPElement :=
  match e with
  | BSPLeaf b solid _ => BSPLeaf b solid 0
  | BSPNode b o pt l r => BSPNode b o pt (shape l) (shape r)
  end.

(** A string without white space, which [strip] leaves as it is. *)
Fixpoint no_space (s : string) : bool :=
  match s with
  | EmptyString => true
  | String c s' => negb (is_space c) && no_space s'
  end.

(** An object of pass 1 carries the fields of its element. *)
Definition same_kind (i : Instance) (pe : Path * BSPElement) : Prop :=
  match snd pe, i with
  | BSPLeaf b solid leafID, ILeaf b' solid' leafID' =>
      b' = b /\ solid' = solid /\ leafID' = leafID
  | BSPNode b o pt _ _, INode b' o' pt' _ _ => b' = b /\ o' = o /\ pt' = pt
  | _, _ => False
  end.

(** Every leaf id set to -1, as the first renumbering loop leaves the
    tree. *)
Fixpoint cleared (e : BSPElement) : BSPElement :=
  match e with
  | BSPLeaf b solid _ => BSPLeaf b solid (-1)
  | BSPNode b o pt l r => BSPNode b o pt (cleared l) (cleared r)
  end.

End Vdf.

(** ** Numbers

    The numbers of Python: integers and floats. A float is a binary64
    value, with the operations of IEEE 754 as [SpecFloat] defines
    them. *)

Module PyNum.

Local Open Scope Z_scope.

Definition prec : Z := 53.
Definition emax : Z := 1024.

Inductive Num : Type :=
| PInt (z : Z)
| PFloat (f : spec_float).

(** [float(z)] on an integer: the nearest float, a tie going to the
    even one, and OverflowError beyond the range of the floats. *)
Definition float_of_Z (z : Z) : result spec_float :=
  match binary_normalize prec emax z 0 false with
  | S754_infinity _ => Err OverflowError
  | f => Ok f
  end.

(** [float(a)]. *)
Definition py_float (a : Num) : result spec_float :=
  match a with
  | PInt z => float_of_Z z
  | PFloat f => Ok f
  end.

(** [a - b], [a * b] and [a + b]: exact on two integers; with a float
    among the two, the integer is converted and the operation is the
    one of the floats, which does not raise. *)
Definition binop (int_op : Z -> Z -> Z)
    (float_op : spec_float -> spec_float -> spec_float) (a b : Num)
  : result Num :=
  match a, b with
  | PInt x, PInt y => Ok (PInt (int_op x y))
  | _, _ =>
      doing x <- py_float a then
      doing y <- py_float b then
      Ok (PFloat (float_op x y))
  end.

Definition py_sub : Num -> Num -> result Num := binop Z.sub (SFsub prec emax).
Definition py_mul : Num -> Num -> result Num := binop Z.mul (SFmul prec emax).
Definition py_add : Num -> Num -> result Num := binop Z.add (SFadd prec emax).

Definition is_zero (f : spec_float) : bool :=
  match f with
  | S754_zero _ => true
  | _ => false
  end.

Definition is_nan (a : Num) : bool :=
  match a with
  | PFloat S754_nan => true
  | _ => false
  end.

(** [x / b] for a float [x]. *)
Definition float_div (x : spec_float) (b : Num) : result spec_float :=
  doing y <- py_float b then
  if is_zero y then Err ZeroDivisionError else Ok (SFdiv prec emax x y).

(** The comparison of a float with an integer is the one of their
    values; there is none with a NaN. *)
Definition float_int_compare (f : spec_float) (z : Z) : option comparison :=
  match f with
  | S754_nan => None
  | S754_infinity s => Some (if s then Lt else Gt)
  | S754_zero _ => Some (0 ?= z)
  | S754_finite s m e =>
      let v := if s then Z.neg m else Z.pos m in
      if 0 <=? e then Some (v * 2 ^ e ?= z) else Some (v ?= z * 2 ^ (- e))
  end.

Definition num_compare (a b : Num) : option comparison :=
  match a, b with
  | PInt x, PInt y => Some (x ?= y)
  | PFloat f, PFloat g => SFcompare f g
  | PFloat f, PInt y => float_int_compare f y
  | PInt x, PFloat g => option_map CompOpp (float_int_compare g x)
  end.

(** [a < b], [a > b], [a >= b], [a == b] and [a != b]. *)
Definition num_lt (a b : Num) : bool :=
  match num_compare a b with Some Lt => true | _ => false end.

Definition num_gt (a b : Num) : bool :=
  match num_compare a b with Some Gt => true | _ => false end.

Definition num_ge (a b : Num) : bool :=
  match num_compare a b with Some Gt | Some Eq => true | _ => false end.

Definition num_eq (a b : Num) : bool :=
  match num_compare a b with Some Eq => true | _ => false end.

Definition num_ne (a b : Num) : bool := negb (num_eq a b).

(** [min(a, b)] and [max(a, b)]: the first one unless the second is
    strictly smaller (greater). *)
Definition py_min (a b : Num) : Num := if num_lt b a then b else a.

Definition py_max (a b : Num) : Num := if num_gt b a then b else a.

(** Points, and the points with integer coordinates. *)
Definition NPoint : Type := (Num * Num)%type.

Definition npoint (p : Z * Z) : NPoint := (PInt (fst p), PInt (snd p)).

End PyNum.

(** ** Segment collision with the numbers of Python

    [segment_collision] again, bsp.py:364, now with the arithmetic of
    the code: the positions are integers or floats, the comparisons are
    those of the values and the split point is computed in floating
    point, where the conversion of an integer and the division can
    raise. *)

Module FloatCollision.
Import BSP PyNum.

Local Open Scope Z_scope.

(** The split point, bsp.py:442-457; [startA] and [endA] are the
    coordinates across the partition, [startB] and [endB] the ones
    along it. The result is the coordinate along the partition and
    [float(node.partition)]. *)
Definition split_coords (partition : Z) (startA endA startB endB : Num)
  : result (spec_float * spec_float) :=
  doing toPartition <- py_sub (PInt partition) startA then
  doing shortLength <- py_float toPartition then
  doing acrossLength <- py_sub endA startA then
  doing longLength <- py_float acrossLength then
  doing ratio <- float_div shortLength (PFloat longLength) then
  doing alongLength <- py_sub endB startB then
  doing along <- py_float alongLength then
  doing base <- py_float startB then
  let split := SFadd prec emax (SFmul prec emax along ratio) base in
  doing partitionFloat <- float_of_Z partition then
  Ok (split, partitionFloat).

(** [node_seg_collision], bsp.py:385. The result is the handle of the
    leaf, relative to [node]. *)
Fixpoint node_seg_collision (node : BSPElement) (startPos endPos : NPoint)
  : result (option Path) :=
  match node with
  | BSPLeaf _ solid _ => Ok (if solid then Some [] else None)
  | BSPNode _ o partition l r =>
      let '(startX, startY) := startPos in
      let '(endX, endY) := endPos in
      let checkValues :=
        match o with
        | HORIZ => (startY, endY)
        | VERTI => (startX, endX)
        end in
      let pt := PInt partition in
      if num_lt (fst checkValues) pt && num_lt (snd checkValues) pt then
        doing result <- node_seg_collision l startPos endPos then
        Ok (option_map (cons false) result)
      else if num_ge (fst checkValues) pt && num_ge (snd checkValues) pt then
        doing result <- node_seg_collision r startPos endPos then
        Ok (option_map (cons true) result)
      else
        doing splitPoint <-
          match o with
          | HORIZ =>
              doing split <- split_coords partition startY endY startX endX then
              Ok (PFloat (fst split), PFloat (snd split))
          | VERTI =>
              doing split <- split_coords partition startX endX startY endY then
              Ok (PFloat (snd split), PFloat (fst split))
          end then
        let startIsLeft := num_lt (fst checkValues) pt in
        let startChild := if startIsLeft then l else r in
        let endChild := if startIsLeft then r else l in
        doing result <- node_seg_collision startChild startPos splitPoint then
        match result with
        | Some leaf => Ok (Some (negb startIsLeft :: leaf))
        | None =>
            doing result <- node_seg_collision endChild splitPoint endPos then
            Ok (option_map (cons startIsLeft) result)
        end
  end.

(** The nudge of the entry point, bsp.py:501. *)
Definition nudge (startPos endPos : NPoint) : result NPoint :=
  doing startPos <-
    (if num_lt (fst endPos) (fst startPos) then
       doing x <- py_sub (fst startPos) (PInt 1) then Ok (x, snd startPos)
     else Ok startPos) then
  if num_lt (snd endPos) (snd startPos) then
    doing y <- py_sub (snd startPos) (PInt 1) then Ok (fst startPos, y)
  else Ok startPos.

Definition segment_collision {D : Type} (t : BSPTree D)
    (startPos endPos : NPoint) : result (option Path) :=
  doing startPos <- nudge startPos endPos then
  node_seg_collision (head t) startPos endPos.

Definition qpoint (p : Z * Z) : Collision.QPoint :=
  (inject_Z (fst p), inject_Z (snd p)).

(** The sentence of the design document on integer positions, for a
    reading of "crosses": the call returns; a result is a solid leaf
    that the nudged segment crosses, and no result means that no solid
    leaf is crossed. *)
Definition returns_crossed_leaf
    (inside : Bounds -> Collision.QPoint -> Prop) : Prop :=
  forall (t : BSPTree Z) (startPos endPos : Z * Z),
    tree_ok t ->
    match segment_collision t (npoint startPos) (npoint endPos) with
    | Ok (Some p) =>
        exists b i,
          get (head t) p = Some (BSPLeaf b true i)
          /\ Collision.crosses inside b
               (Collision.nudge (qpoint startPos) (qpoint endPos))
               (qpoint endPos)
    | Ok None =>
        forall p b i,
          get (head t) p = Some (BSPLeaf b true i) ->
          ~ Collision.crosses inside b
              (Collision.nudge (qpoint startPos) (qpoint endPos))
              (qpoint endPos)
    | Err _ => False
    end.

End FloatCollision.


(** ** The view cone ([vismain.py]) and the grid of the editor
    ([lumberjack.py]) *)

Module Vismain.
Import BSP Portals PyNum.

(** *** Vectors

    On integer arguments, such as the ends of a portal and the pixels
    of a surface. *)

Local Open Scope Z_scope.

(** [new_coord_rebaser], vismain.py:49, with its [rebaser]. *)
Definition new_coord_rebaser (base absCoords : Z * Z) : Z * Z :=
  (fst absCoords - fst base, snd absCoords - snd base).

(** [normal_from_lineseg], vismain.py:67. *)
Definition normal_from_lineseg (seg : (Z * Z) * (Z * Z)) : Z * Z :=
  let '(start, end_) := seg in
  let '(x1, y1) := start in
  let '(x2, y2) := end_ in
  let dx := x2 - x1 in
  let dy := y2 - y1 in
  (dy, - dx).

(** [dot], vismain.py:81. *)
Definition dot (a b : Z * Z) : Z := fst a * fst b + snd a * snd b.

(** [sign], vismain.py:86. *)
Definition sign (n : Z) : Z :=
  if n >? 0 then 1 else if n <? 0 then -1 else 0.

(** *** [intersect_line_ray], vismain.py:96, and [restrict_viewcone],
    vismain.py:421

    The ends of a portal are integers; the points of the view cone are
    integers or floats. *)

Definition Seg : Type := (NPoint * NPoint)%type.

Definition intersect_line_ray (lineSeg raySeg : Seg)
  : result (option NPoint) :=
  let '(lineStart, lineEnd) := lineSeg in
  let '(rayStart, rayEnd) := raySeg in
  doing d1x <- py_sub (fst lineEnd) (fst lineStart) then
  doing d1y <- py_sub (snd lineEnd) (snd lineStart) then
  doing d2x <- py_sub (fst rayEnd) (fst rayStart) then
  doing d2y <- py_sub (snd rayEnd) (snd rayStart) then
  let '(p1x, p1y) := lineStart in
  let '(p2x, p2y) := rayStart in
  doing parallel <-
    (if num_eq d1x (PInt 0) && num_eq d2x (PInt 0) then Ok true
     else if num_ne d1x (PInt 0) && num_ne d2x (PInt 0) then
       doing fd1y <- py_float d1y then
       doing slope1 <- float_div fd1y d1x then
       doing fd2y <- py_float d2y then
       doing slope2 <- float_div fd2y d2x then
       Ok (SFeqb slope1 slope2)
     else Ok false) then
  if parallel then Ok None
  else
    doing a1 <- py_mul p2y d1x then
    doing a2 <- py_mul p1y d1x then
    doing a12 <- py_sub a1 a2 then
    doing a3 <- py_mul p2x d1y then
    doing a123 <- py_sub a12 a3 then
    doing a4 <- py_mul p1x d1y then
    doing a1234 <- py_add a123 a4 then
    doing numerator <- py_float a1234 then
    doing b1 <- py_mul d2x d1y then
    doing b2 <- py_mul d1x d2y then
    doing denominator <- py_sub b1 b2 then
    doing parameter <- float_div numerator denominator then
    if num_ge (PFloat parameter) (PInt 0) then
      doing cx <- py_mul (PFloat parameter) d2x then
      doing ix <- py_add p2x cx then
      doing cy <- py_mul (PFloat parameter) d2y then
      doing iy <- py_add p2y cy then
      Ok (Some (ix, iy))
    else Ok None.

(** [==] on two points. On tuples that hold the same objects Python
    answers [True] without a comparison; for numbers other than NaN
    that is what the comparison gives. *)
Definition point_eqb (p q : NPoint) : bool :=
  num_eq (fst p) (fst q) && num_eq (snd p) (snd q).

(** [(min(max(q[0], start[0]), end[0]), min(max(q[1], start[1]),
    end[1]))]. *)
Definition bounded_by (portal : BSPPortal) (q : NPoint) : NPoint :=
  (py_min (py_max (fst q) (PInt (fst (portal_start portal))))
     (PInt (fst (portal_end portal))),
   py_min (py_max (snd q) (PInt (snd (portal_start portal))))
     (PInt (snd (portal_end portal)))).

(** Where a ray does not meet the line of the portal the new segment
    ends at an end of the portal, chosen by the side of the start. With
    a NaN neither comparison holds and the variable stays unbound, which
    the [return] reports. *)
Definition restrict_viewcone (portal : BSPPortal)
    (viewconeLeft viewconeRight : Seg) : result (Seg * Seg) :=
  let '(viewconeLeftStart, viewconeLeftEnd) := viewconeLeft in
  let '(viewconeRightStart, viewconeRightEnd) := viewconeRight in
  if negb (point_eqb viewconeLeftStart viewconeRightStart)
  then Err AssertionError
  else
    let portalSeg := (npoint (portal_start portal),
                      npoint (portal_end portal)) in
    doing intersectLeft <- intersect_line_ray portalSeg viewconeLeft then
    let newViewconeLeft :=
      match intersectLeft with
      | None =>
          match portal_orientation portal with
          | VERTI =>
              if num_lt (fst viewconeLeftStart)
                   (PInt (fst (portal_start portal)))
              then Some (viewconeLeftStart, npoint (portal_start portal))
              else if num_ge (fst viewconeLeftStart)
                        (PInt (fst (portal_start portal)))
              then Some (viewconeLeftStart, npoint (portal_end portal))
              else None
          | HORIZ =>
              if num_lt (snd viewconeLeftStart)
                   (PInt (snd (portal_start portal)))
              then Some (viewconeLeftStart, npoint (portal_end portal))
              else if num_ge (snd viewconeLeftStart)
                        (PInt (snd (portal_start portal)))
              then Some (viewconeLeftStart, npoint (portal_start portal))
              else None
          end
      | Some intersectLeft =>
          Some (viewconeLeftStart, bounded_by portal intersectLeft)
      end in
    doing intersectRight <- intersect_line_ray portalSeg viewconeRight then
    let newViewconeRight :=
      match intersectRight with
      | None =>
          match portal_orientation portal with
          | VERTI =>
              if num_lt (fst viewconeRightStart)
                   (PInt (fst (portal_start portal)))
              then Some (viewconeRightStart, npoint (portal_end portal))
              else if num_ge (fst viewconeRightStart)
                        (PInt (fst (portal_start portal)))
              then Some (viewconeRightStart, npoint (portal_start portal))
              else None
          | HORIZ =>
              if num_lt (snd viewconeRightStart)
                   (PInt (snd (portal_start portal)))
              then Some (viewconeRightStart, npoint (portal_start portal))
              else if num_ge (snd viewconeRightStart)
                        (PInt (snd (portal_start portal)))
              then Some (viewconeRightStart, npoint (portal_end portal))
              else None
          end
      | Some intersectRight =>
          Some (viewconeRightStart, bounded_by portal intersectRight)
      end in
    match newViewconeLeft, newViewconeRight with
    | Some newLeft, Some newRight => Ok (newLeft, newRight)
    | _, _ => Err UnboundLocalError
    end.

(** A number between two integers, ends included; a NaN is between
    nothing. *)
Definition between (a b : Z) (v : Num) : Prop :=
  num_ge v (PInt a) = true /\ num_ge (PInt b) v = true.

(** A point whose coordinates are within the rectangle spanned by the
    ends of a portal, where they are numbers. *)
Definition on_portal (portal : BSPPortal) (q : NPoint) : Prop :=
  (is_nan (fst q) = true
   \/ between (fst (portal_start portal)) (fst (portal_end portal)) (fst q))
  /\ (is_nan (snd q) = true
      \/ between (snd (portal_start portal)) (snd (portal_end portal))
           (snd q)).

(** The errors of the arithmetic. *)
Definition arith_error (e : PyError) : Prop :=
  e = ZeroDivisionError \/ e = OverflowError.

End Vismain.

Module Lumberjack.

Local Open Scope Z_scope.

Definition BLOCK_SIZE : Z := 32.

(** [float(x)] on an integer, by its value, which is an integer: [x]
    itself below 2^53; from there on the nearest number with 53
    significant bits, a tie going to the even one, and OverflowError
    where that is 2^1024 or more. *)
Definition float_of_int (x : Z) : result Z :=
  let a := Z.abs x in
  if a <? 2 ^ 53 then Ok x
  else
    let e := Z.log2 a - 52 in
    let q := a / 2 ^ e in
    let r := a mod 2 ^ e in
    let q' :=
      if 2 * r <? 2 ^ e then q
      else if 2 ^ e <? 2 * r then q + 1
      else if Z.even q then q else q + 1 in
    if q' * 2 ^ e <? 2 ^ 1024 then Ok (Z.sgn x * (q' * 2 ^ e))
    else Err OverflowError.

(** [round(v / d)] for a float [v] with an integer value and [d = 32]:
    the division by a power of two is exact, and [round] of Python 2
    rounds halves away from zero. *)
Definition round_quotient (v d : Z) : Z :=
  if 0 <=? v then (2 * v + d) / (2 * d) else - ((2 * (- v) + d) / (2 * d)).

(** [int(round(float(x) / BLOCK_SIZE) * BLOCK_SIZE)]: the product is
    exact below 2^1024 and infinite from there on, where [int] raises. *)
Definition snap (x : Z) : result Z :=
  doing v <- float_of_int x then
  let snapped := round_quotient v BLOCK_SIZE * BLOCK_SIZE in
  if Z.abs snapped <? 2 ^ 1024 then Ok snapped else Err OverflowError.

(** [snap_to_grid], lumberjack.py:42. *)
Definition snap_to_grid (x y : Z) : result (Z * Z) :=
  doing snappedX <- snap x then
  doing snappedY <- snap y then
  Ok (snappedX, snappedY).

End Lumberjack.

(** ** The potentially visible sets ([BSPTree.load_visibility_matrix],
    bsp.py:242) *)

Module Visibility.
Import BSP Portals Vdf.

Local Open Scope Z_scope.

(** [l[i]]. *)
Definition py_getitem {A : Type} (l : list A) (i : Z) : result A :=
  doing k <- py_index l i then
  match nth_error l k with
  | Some x => Ok x
  | None => Err IndexError
  end.

Definition leafID_of (e : BSPElement) : Z :=
  match e with
  | BSPLeaf _ _ leafID => leafID
  | BSPNode _ _ _ _ _ => 0
  end.

(** The [pvs] attribute of every leaf; a leaf that is not a key has the
    empty set. *)
Definition pvs_of (pvs : gmap Path (gset Path)) (leaf : Path) : gset Path :=
  default ∅ (pvs !! leaf).

(** The body of the loop over [product(self.iter_visleaves(),
    repeat=2)]. *)
Definition load_visibility_entry (visMatrix : list (list bool))
    (pvs : gmap Path (gset Path))
    (pair : (Path * BSPElement) * (Path * BSPElement))
  : result (gmap Path (gset Path)) :=
  let '(visleaf1, visleaf2) := pair in
  doing row <- py_getitem visMatrix (leafID_of (snd visleaf1)) then
  doing entry <- py_getitem row (leafID_of (snd visleaf2)) then
  if entry : bool
  then Ok (<[fst visleaf1 := {[fst visleaf2]} ∪ pvs_of pvs (fst visleaf1)]> pvs)
  else Ok pvs.

Definition load_visibility_matrix (head : BSPElement)
    (visMatrix : list (list bool)) (pvs : gmap Path (gset Path))
  : result (gmap Path (gset Path)) :=
  let visleaves := iter_visleaves head in
  let cleared := fold_left (fun m v => <[fst v := ∅]> m) visleaves pvs in
  for_each (load_visibility_entry visMatrix)
    (list_prod visleaves visleaves) cleared.

(** The entry of a matrix at two leaf ids that are in range. *)
Definition visible (visMatrix : list (list bool)) (e1 e2 : BSPElement)
  : Prop :=
  exists row,
    nth_error visMatrix (Z.to_nat (leafID_of e1)) = Some row
    /\ nth_error row (Z.to_nat (leafID_of e2)) = Some true.

(** The ids of the visleaves index a square matrix of side [n]. *)
Definition matrix_fits (head : BSPElement) (visMatrix : list (list bool))
  : Prop :=
  (forall pe, In pe (iter_visleaves head) ->
              0 <= leafID_of (snd pe) < Z.of_nat (length visMatrix))
  /\ (forall row, In row visMatrix -> length row = length visMatrix).

End Visibility.

(** * Properties *)

Section GeometryFacts.
Import Geometry.

Lemma orientation_zero (p1 p2 p3 : Point) : orientation p1 p2 p3 = 0.
Proof.
  destruct p1 as [p1x p1y], p2 as [p2x p2y], p3 as [p3x p3y].
  unfold orientation.
  rewrite Z.sub_diag. reflexivity.
Qed.

Lemma point_on_segment_bbox (p a b : Point) :
  point_on_segment p a b = true <-> in_bbox p (a, b).
Proof.
  destruct p as [px py], a as [ax ay], b as [bx by_].
  unfold point_on_segment, in_bbox; simpl.
  rewrite !andb_true_iff, !Z.leb_le, !Z.geb_le. lia.
Qed.

(** C10. The inner [orientation] helper returns 0 on every input, and
    [segments_intersect] is true exactly when an endpoint of one segment
    lies in the bounding box of the other segment. *)
Theorem segments_intersect_is_bbox_test :
  (forall p1 p2 p3 : Point, orientation p1 p2 p3 = 0)
  /\ (forall a1 b1 a2 b2 : Point,
        segments_intersect (a1, b1) (a2, b2) = true
        <-> (in_bbox a2 (a1, b1) \/ in_bbox b2 (a1, b1)
             \/ in_bbox a1 (a2, b2) \/ in_bbox b1 (a2, b2))).
Proof.
  split; [exact orientation_zero|].
  intros a1 b1 a2 b2. unfold segments_intersect.
  rewrite !orientation_zero. cbn [Z.eqb negb andb].
  rewrite !orb_true_iff, !point_on_segment_bbox. tauto.
Qed.

End GeometryFacts.

Section SegmentsIntersectDefect.
Import Geometry.

(** C8. [segments_intersect] is not the closed-segment intersection
    test: the horizontal segment (0,2)-(4,2) and the vertical segment
    (2,0)-(2,4) cross at (2,2) and the function answers [false]; the
    parallel segments (0,0)-(4,4) and (3,0)-(4,1) share no point and the
    function answers [true]. *)
Theorem segments_intersect_misses_crossing :
  (segments_intersect ((0, 2), (4, 2)) ((2, 0), (2, 4)) = false
   /\ share_point ((0, 2), (4, 2)) ((2, 0), (2, 4)))
  /\ (segments_intersect ((0, 0), (4, 4)) ((3, 0), (4, 1)) = true
      /\ ~ share_point ((0, 0), (4, 4)) ((3, 0), (4, 1))).
Proof.
  split; split; try reflexivity.
  - exists 2%Q, 2%Q.
    split; exists (1 # 2)%Q; cbn [fst snd]; unfold inject_Z;
      repeat split; lra.
  - intros (x & y & (t & Ht0 & Ht1 & Hx & Hy) & (u & Hu0 & Hu1 & Hx' & Hy')).
    cbn [fst snd] in Hx, Hy, Hx', Hy'. unfold inject_Z in *. lra.
Qed.

End SegmentsIntersectDefect.

Section TreeFacts.
Import BSP.

Lemma get_replace_at (e : BSPElement) (p : Path) (new h : BSPElement) :
  replace_at e p new = Some h -> get h p = Some new.
Proof.
  revert e h. induction p as [|d p IH]; intros e h; cbn.
  - congruence.
  - destruct e as [|b o pt l r]; [discriminate|].
    destruct d.
    + destruct (replace_at r p new) as [r'|] eqn:E; [|discriminate].
      intros H; injection H as <-. cbn. eauto.
    + destruct (replace_at l p new) as [l'|] eqn:E; [|discriminate].
      intros H; injection H as <-. cbn. eauto.
Qed.

Lemma replace_at_defined (e : BSPElement) (p : Path) (new old : BSPElement) :
  get e p = Some old -> exists h, replace_at e p new = Some h.
Proof.
  revert e. induction p as [|d p IH]; intros e; cbn.
  - eauto.
  - destruct e as [|b o pt l r]; [discriminate|].
    destruct d; intros H; destruct (IH _ H) as [h ->]; eauto.
Qed.

(** A path that does not pass through [p] reads the same element after
    the assignment at [p]. *)
Lemma get_replace_at_other (e : BSPElement) (p q : Path) (new h : BSPElement) :
  replace_at e p new = Some h ->
  (forall k, take k q <> p) ->
  (forall k, take k p <> q) ->
  get h q = get e q.
Proof.
  revert e h q. induction p as [|d p IH]; intros e h q; cbn.
  - intros _ Hq _. exfalso. apply (Hq 0%nat). reflexivity.
  - destruct e as [|b o pt l r]; [discriminate|].
    intros Hr Hq Hp. destruct q as [|d' q].
    + exfalso. apply (Hp 0%nat). reflexivity.
    + assert (Hrec : d = d' -> forall e' h', replace_at e' p new = Some h' ->
                     get h' q = get e' q).
      { intros -> e' h' He'. apply (IH e' h' q He').
        - intros k Hk. apply (Hq (S k)). cbn. now rewrite Hk.
        - intros k Hk. apply (Hp (S k)). cbn. now rewrite Hk. }
      destruct d.
      * destruct (replace_at r p new) as [r'|] eqn:E; [|discriminate].
        injection Hr as <-. cbn. destruct d'; [|reflexivity].
        now apply Hrec.
      * destruct (replace_at l p new) as [l'|] eqn:E; [|discriminate].
        injection Hr as <-. cbn. destruct d'; [reflexivity|].
        now apply Hrec.
Qed.

(** C2 (as stated) fails: the constructor accepts the dimensions 0 and
    -5, and the root of a 128x64 tree is a solid leaf. *)
Lemma BSPTree_init_claim_fails :
  ~ (forall n w h : Z,
       ((w <= 0 \/ h <= 0) -> exists e, BSPTree_init n w h = Err e)
       /\ (0 < w -> 0 < h ->
           exists t n' i, BSPTree_init n w h = Ok (t, n')
                          /\ head t = BSPLeaf (0, 0, w, h) false i)).
Proof.
  intros H. destruct (H 0 0 (-5)) as [Hfail _].
  destruct Hfail as [e He]; [lia|]. discriminate He.
Qed.

(** C2 (amended). For all integer dimensions, positive or not, the
    constructor succeeds; the root is a single solid leaf with bounds
    [(0, 0, maxW, maxH)] and the temporary leaf id taken from the class
    counter. *)
Theorem BSPTree_init_spec (n w h : Z) :
  BSPTree_init n w h
  = Ok (mkBSPTree w h (BSPLeaf (0, 0, w, h) true n), n + 1).
Proof. reflexivity. Qed.

(** *** [merge_leaf] *)

(** C1 (as stated) fails: merging the left leaf of [split_tree] puts a
    solid leaf in the place of the root node. *)
Lemma merge_leaf_claim_fails :
  ~ (forall (t : BSPTree Z) (n : Z) (leaf : Path) (P : BSPElement),
       leaf <> [] ->
       get (head t) (removelast leaf) = Some P ->
       exists i, get (head (fst (merge_leaf t n leaf))) (removelast leaf)
                 = Some (BSPLeaf (bounds_of P) false i)).
Proof.
  intros H.
  destruct (H split_tree 3 [false] (head split_tree)) as [i Hi];
    [discriminate | reflexivity | discriminate Hi].
Qed.

(** C1 (amended). [merge_leaf leaf]: when [leaf] is the root nothing
    changes; when the parent of [leaf] is the root, the root becomes a
    fresh solid leaf with bounds [(0, 0, maxWidth, maxHeight)], which are
    the bounds of the parent when the root covers the world; otherwise
    the parent [P] is replaced with a fresh solid leaf whose bounds are
    [P.bounds]. *)
Theorem merge_leaf_spec (t : BSPTree Z) (n : Z) (leaf : Path) :
  (leaf = [] -> merge_leaf t n leaf = (t, n))
  /\ (forall d, leaf = [d] ->
        merge_leaf t n leaf
        = (set_head t (BSPLeaf (0, 0, maxWidth t, maxHeight t) true n), n + 1)
        /\ (tree_ok t ->
            head (fst (merge_leaf t n leaf))
            = BSPLeaf (bounds_of (head t)) true n))
  /\ (forall parent d P,
        leaf = parent ++ [d] -> parent <> [] ->
        get (head t) parent = Some P ->
        exists h,
          replace_at (head t) parent (BSPLeaf (bounds_of P) true n) = Some h
          /\ merge_leaf t n leaf = (set_head t h, n + 1)
          /\ get h parent = Some (BSPLeaf (bounds_of P) true n)).
Proof.
  split; [intros ->; reflexivity|]. split.
  - intros d ->. split; [reflexivity|].
    intros [Hb _]. cbn. now rewrite Hb.
  - intros parent d P -> Hne Hget.
    destruct (replace_at_defined (head t) parent
                (BSPLeaf (bounds_of P) true n) P Hget) as [h Hh].
    exists h. split; [exact Hh|]. split; [|eapply get_replace_at; exact Hh].
    unfold merge_leaf.
    destruct parent as [|d1 parent]; [congruence|].
    assert (Hlast : removelast ((d1 :: parent) ++ [d]) = d1 :: parent)
      by apply removelast_last.
    change ((d1 :: parent) ++ [d]) with (d1 :: (parent ++ [d])) in *.
    destruct (parent ++ [d]) as [|d2 rest] eqn:E.
    { destruct parent; discriminate E. }
    rewrite Hlast, Hget. unfold BSPLeaf_init. now rewrite Hh.
Qed.

Lemma merge_leaf_spec_witness :
  exists h,
    replace_at (head (mkBSPTree 128 64
                        (BSPNode (0, 0, 128, 64) VERTI 64
                           (BSPNode (0, 0, 64, 64) HORIZ 32
                              (BSPLeaf (0, 0, 64, 32) false 3)
                              (BSPLeaf (0, 32, 64, 64) true 4))
                           (BSPLeaf (64, 0, 128, 64) true 2))))
      [false] (BSPLeaf (0, 0, 64, 64) true 5) = Some h
    /\ h = BSPNode (0, 0, 128, 64) VERTI 64
             (BSPLeaf (0, 0, 64, 64) true 5)
             (BSPLeaf (64, 0, 128, 64) true 2).
Proof.
  destruct (proj2 (proj2 (merge_leaf_spec
              (mkBSPTree 128 64
                 (BSPNode (0, 0, 128, 64) VERTI 64
                    (BSPNode (0, 0, 64, 64) HORIZ 32
                       (BSPLeaf (0, 0, 64, 32) false 3)
                       (BSPLeaf (0, 32, 64, 64) true 4))
                    (BSPLeaf (64, 0, 128, 64) true 2)))
              5 [false; true]))
            [false] true
            (BSPNode (0, 0, 64, 64) HORIZ 32
               (BSPLeaf (0, 0, 64, 32) false 3)
               (BSPLeaf (0, 32, 64, 64) true 4))
            eq_refl ltac:(discriminate) eq_refl) as [h [Hh _]].
  exists h. split; [exact Hh|]. cbn in Hh. congruence.
Defined.

(** *** [leaf_from_coords] *)

Lemma leaf_from_coords_from_follows (e : BSPElement) (x y : Z) :
  follows_point e x y (leaf_from_coords_from e x y).
Proof.
  induction e as [b s i|b o pt l IHl r IHr]; cbn; [exact I|].
  destruct o; cbn; destruct (_ >=? pt) eqn:E; cbn; rewrite E; auto.
Qed.

Lemma leaf_from_coords_from_contains (e : BSPElement) (x y : Z) :
  bounds_ok e -> contains (bounds_of e) x y ->
  exists b s i,
    get e (leaf_from_coords_from e x y) = Some (BSPLeaf b s i)
    /\ contains b x y.
Proof.
  induction e as [b s i|b o pt l IHl r IHr]; cbn.
  - intros _ H. eauto.
  - intros (Hl & Hr & Hokl & Hokr) Hc.
    destruct b as [[[bl bt] br] bb]. cbn in Hc.
    destruct o; cbn in Hl, Hr; destruct (_ >=? pt) eqn:E; cbn;
      try (apply IHr; [exact Hokr|]; rewrite Hr; cbn; lia);
      try (apply IHl; [exact Hokl|]; rewrite Hl; cbn; lia).
Qed.

(** C7. In a tree whose children bounds follow the partitions and whose
    root covers the world, for a point strictly inside the world
    [leaf_from_coords] follows the descent rule and ends at a leaf whose
    bounds contain the point. *)
Theorem leaf_from_coords_contains (t : BSPTree Z) (x y : Z) :
  tree_ok t ->
  0 < x < maxWidth t -> 0 < y < maxHeight t ->
  follows_point (head t) x y (leaf_from_coords t x y)
  /\ exists b s i,
       get (head t) (leaf_from_coords t x y) = Some (BSPLeaf b s i)
       /\ contains b x y.
Proof.
  intros [Hb Hok] Hx Hy. split.
  - apply leaf_from_coords_from_follows.
  - apply leaf_from_coords_from_contains; [exact Hok|].
    rewrite Hb. cbn. lia.
Qed.

Lemma split_tree_ok : tree_ok split_tree.
Proof. repeat split. Defined.

Lemma leaf_from_coords_contains_witness :
  follows_point (head split_tree) 100 10 (leaf_from_coords split_tree 100 10)
  /\ exists b s i,
       get (head split_tree) (leaf_from_coords split_tree 100 10)
       = Some (BSPLeaf b s i)
       /\ contains b 100 10.
Proof.
  apply (leaf_from_coords_contains split_tree 100 10 split_tree_ok);
    cbn; lia.
Defined.

(** *** [divide_leaf] *)

(** Below the root the range of the partition is asserted. *)
Lemma divide_leaf_below_root_checked {D : Type} (t : BSPTree D) (n : Z)
    (d : bool) (leaf : Path) (e : BSPElement) (o : Orientation) (pt : Z) :
  get (head t) (d :: leaf) = Some e ->
  ~ strictly_between (bounds_of e) o pt ->
  divide_leaf t n (d :: leaf) o pt = Err AssertionError.
Proof.
  intros Hget Hnot. unfold divide_leaf. rewrite Hget.
  destruct (bounds_of e) as [[[bl bt] br] bb]. cbn in Hnot.
  destruct o; cbn.
  - destruct (bt <? pt) eqn:E1, (pt <? bb) eqn:E2; cbn; try reflexivity.
    apply Z.ltb_lt in E1, E2. lia.
  - destruct (bl <? pt) eqn:E1, (pt <? br) eqn:E2; cbn; try reflexivity.
    apply Z.ltb_lt in E1, E2. lia.
Qed.

Lemma divide_leaf_below_root_ok {D : Type} (t : BSPTree D) (n : Z)
    (d : bool) (leaf : Path) (e : BSPElement) (o : Orientation) (pt : Z) :
  get (head t) (d :: leaf) = Some e ->
  strictly_between (bounds_of e) o pt ->
  exists h,
    replace_at (head t) (d :: leaf) (fst (BSPNode_init n (bounds_of e) o pt))
    = Some h
    /\ divide_leaf t n (d :: leaf) o pt = Ok (set_head t h, n + 1 + 1).
Proof.
  intros Hget Hin.
  destruct (replace_at_defined (head t) (d :: leaf)
              (fst (BSPNode_init n (bounds_of e) o pt)) e Hget) as [h Hh].
  exists h. split; [exact Hh|].
  unfold divide_leaf. rewrite Hget.
  destruct (bounds_of e) as [[[bl bt] br] bb] eqn:Eb. cbn in Hin.
  assert (Hnode : BSPNode_init n (bl, bt, br, bb) o pt
                  = (fst (BSPNode_init n (bl, bt, br, bb) o pt), n + 1 + 1)).
  { destruct o; reflexivity. }
  destruct o; cbn [orientation_code Z.eqb negb orb].
  - destruct Hin as [H1 H2].
    apply Z.ltb_lt in H1, H2. rewrite H1, H2. cbn [andb negb].
    rewrite Hnode, Hh. reflexivity.
  - destruct Hin as [H1 H2].
    apply Z.ltb_lt in H1, H2. rewrite H1, H2. cbn [andb negb].
    rewrite Hnode, Hh. reflexivity.
Qed.

(** C9. At the root the partition is not checked: dividing the root
    leaf of a 128x64 world vertically at 200 succeeds, and its children
    get the bounds (0,0,200,64) and (200,0,128,64). *)
Theorem divide_leaf_root_unchecked :
  ~ strictly_between (0, 0, 128, 64) VERTI 200
  /\ divide_leaf (mkBSPTree 128 64 (BSPLeaf (0, 0, 128, 64) true 0)) 1
       [] VERTI 200
     = Ok (mkBSPTree 128 64
             (BSPNode (0, 0, 128, 64) VERTI 200
                (BSPLeaf (0, 0, 200, 64) true 1)
                (BSPLeaf (200, 0, 128, 64) true 2)), 3).
Proof. split; [cbn; lia | reflexivity]. Qed.

End TreeFacts.

Section CollisionFacts.
Import BSP Collision.
Local Open Scope Q_scope.




Lemma corner_tree_ok : tree_ok corner_tree.
Proof. repeat split. Defined.

Lemma wall_tree_ok : tree_ok wall_tree.
Proof. repeat split. Defined.


(** C4. [corner_tree] is a well-formed tree whose only solid leaf is the
    bottom-left one, (0, 32, 64, 64). The segment from (0, 0) to
    (128, 64) is not nudged, and [segment_collision] returns that leaf,
    although the segment meets its rectangle at the corner (64, 32)
    only and is at no point in its half-open rectangle: the descent
    clips the segment at x = 64 to the point (64.0, 32.0), clips it
    again at y = 32 to the same point and hands the empty rest to the
    solid leaf, which is returned without a test. On [wall_tree] the
    segment from (64, 10) to (64, 50) runs along the edge of the solid
    leaf and nothing is returned. These are the results with the
    floating point arithmetic of the code, and also with exact split
    points. So for no reading of "crosses", by the interior, the
    half-open or the closed rectangle, does [segment_collision] return
    a crossed solid leaf when there is one and nothing when there is
    none. *)
Theorem segment_collision_false_collision :
  tree_ok corner_tree
  /\ FloatCollision.segment_collision corner_tree
       (PyNum.PInt 0, PyNum.PInt 0) (PyNum.PInt 128, PyNum.PInt 64)
     = Ok (Some [false; true])
  /\ segment_collision corner_tree (0, 0) (128, 64) = Some [false; true]
  /\ nudge (0, 0) (128, 64) = (0, 0)
  /\ get (head corner_tree) [false; true]
     = Some (BSPLeaf (0, 32, 64, 64)%Z true (-1)%Z)
  /\ (forall u, in_closed (0, 32, 64, 64)%Z (point_at (0, 0) (128, 64) u) ->
                u == 1 # 2)
  /\ (forall u, ~ in_halfopen (0, 32, 64, 64)%Z (point_at (0, 0) (128, 64) u))
  /\ tree_ok wall_tree
  /\ FloatCollision.segment_collision wall_tree
       (PyNum.PInt 64, PyNum.PInt 10) (PyNum.PInt 64, PyNum.PInt 50)
     = Ok None
  /\ segment_collision wall_tree (64, 10) (64, 50) = None
  /\ nudge (64, 10) (64, 50) = (64, 10)
  /\ (forall u, 0 <= u -> u <= 1 ->
                in_closed (0, 0, 64, 64)%Z (point_at (64, 10) (64, 50) u))
  /\ ~ FloatCollision.returns_crossed_leaf in_interior
  /\ ~ FloatCollision.returns_crossed_leaf in_halfopen
  /\ ~ FloatCollision.returns_crossed_leaf in_closed.
Proof.
  assert (F1 : FloatCollision.segment_collision corner_tree
                 (PyNum.npoint (0, 0)%Z) (PyNum.npoint (128, 64)%Z)
               = Ok (Some [false; true])) by (vm_compute; reflexivity).
  assert (E1 : segment_collision corner_tree (0, 0) (128, 64)
               = Some [false; true]) by (vm_compute; reflexivity).
  assert (N1 : nudge (FloatCollision.qpoint (0, 0)%Z)
                 (FloatCollision.qpoint (128, 64)%Z) = (0, 0))
    by (vm_compute; reflexivity).
  assert (F2 : FloatCollision.segment_collision wall_tree
                 (PyNum.npoint (64, 10)%Z) (PyNum.npoint (64, 50)%Z)
               = Ok None) by (vm_compute; reflexivity).
  assert (E2 : segment_collision wall_tree (64, 10) (64, 50) = None)
    by (vm_compute; reflexivity).
  assert (N2 : nudge (FloatCollision.qpoint (64, 10)%Z)
                 (FloatCollision.qpoint (64, 50)%Z) = (64, 10))
    by (vm_compute; reflexivity).
  assert (Hcorner : forall u,
            in_closed (0, 32, 64, 64)%Z (point_at (0, 0) (128, 64) u) ->
            u == 1 # 2).
  { intros u Hin. unfold in_closed, point_at in Hin. cbn [fst snd] in Hin.
    unfold inject_Z in Hin. lra. }
  assert (Hout : forall u,
            ~ in_halfopen (0, 32, 64, 64)%Z (point_at (0, 0) (128, 64) u)).
  { intros u Hin. unfold in_halfopen, point_at in Hin. cbn [fst snd] in Hin.
    unfold inject_Z in Hin. lra. }
  assert (Hedge : forall u, 0 <= u -> u <= 1 ->
            in_closed (0, 0, 64, 64)%Z (point_at (64, 10) (64, 50) u)).
  { intros u Hu0 Hu1. unfold in_closed, point_at. cbn [fst snd].
    unfold inject_Z. repeat split; lra. }
  split; [exact corner_tree_ok|]. split; [exact F1|]. split; [exact E1|].
  split; [vm_compute; reflexivity|].
  split; [reflexivity|]. split; [exact Hcorner|]. split; [exact Hout|].
  split; [exact wall_tree_ok|]. split; [exact F2|]. split; [exact E2|].
  split; [vm_compute; reflexivity|]. split; [exact Hedge|].
  split; [|split]; intros H.
  - specialize (H corner_tree (0, 0)%Z (128, 64)%Z corner_tree_ok).
    rewrite F1, N1 in H. destruct H as (b & i & Hget & u & Hu0 & Hu1 & Hin).
    cbn in Hget. injection Hget as <- <-.
    unfold in_interior, point_at, FloatCollision.qpoint in Hin.
    cbn [fst snd] in Hin. unfold inject_Z in Hin. lra.
  - specialize (H corner_tree (0, 0)%Z (128, 64)%Z corner_tree_ok).
    rewrite F1, N1 in H. destruct H as (b & i & Hget & u & Hu0 & Hu1 & Hin).
    cbn in Hget. injection Hget as <- <-. exact (Hout u Hin).
  - specialize (H wall_tree (64, 10)%Z (64, 50)%Z wall_tree_ok).
    rewrite F2, N2 in H.
    apply (H [false] (0, 0, 64, 64)%Z (-1)%Z eq_refl).
    exists (1 # 2). split; [lra|]. split; [lra|]. apply Hedge; lra.
Qed.

End CollisionFacts.

Section TraversalFacts.
Import BSP Portals.

Lemma get_app (e : BSPElement) (p q : Path) :
  get e (p ++ q) = match get e p with Some x => get x q | None => None end.
Proof.
  revert e. induction p as [|d p IH]; intros e; cbn; [reflexivity|].
  destruct e; [reflexivity | apply IH].
Qed.

(** The stack loop yields the elements in the order of [elements_from]. *)
Lemma iter_elements_loop_flat (fuel : nat) (stack : list (Path * BSPElement)) :
  (list_sum (map (fun pe => size_of (snd pe)) stack) <= fuel)%nat ->
  iter_elements_loop fuel stack
  = flat_map (fun pe => elements_from (fst pe) (snd pe)) stack.
Proof.
  unfold list_sum.
  revert stack. induction fuel as [|fuel IH]; intros stack Hfuel.
  - destruct stack as [|[p e] rest]; [reflexivity|].
    cbn in Hfuel. destruct e; cbn in Hfuel; lia.
  - destruct stack as [|[p e] rest]; [reflexivity|].
    cbn [iter_elements_loop]. destruct e as [b s i|b o pt l r].
    + cbn in Hfuel |- *. f_equal. apply IH. lia.
    + rewrite IH by (cbn in Hfuel |- *; lia).
      cbn. now rewrite <- app_assoc.
Qed.

Lemma iter_elements_structural (head : BSPElement) :
  iter_elements head = elements_from [] head.
Proof.
  unfold iter_elements. rewrite iter_elements_loop_flat by (cbn; lia).
  cbn. apply app_nil_r.
Qed.

Lemma in_elements_from (q : Path) (root : BSPElement) (p : Path)
    (e : BSPElement) :
  In (p, e) (elements_from q root)
  <-> exists p', p = q ++ p' /\ get root p' = Some e.
Proof.
  revert q. induction root as [b s i|b o pt l IHl r IHr]; intros q; cbn.
  - split.
    + intros [[= <- <-]|[]]. exists []. now rewrite app_nil_r.
    + intros ([|d p'] & -> & Hget); cbn in Hget; [|discriminate].
      injection Hget as <-. left. now rewrite app_nil_r.
  - rewrite in_app_iff, IHr, IHl. split.
    + intros [[= <- <-]|[(p' & -> & Hget)|(p' & -> & Hget)]].
      * exists []. now rewrite app_nil_r.
      * exists (true :: p'). now rewrite <- app_assoc.
      * exists (false :: p'). now rewrite <- app_assoc.
    + intros ([|[] p'] & -> & Hget); cbn in Hget.
      * injection Hget as <-. left. now rewrite app_nil_r.
      * right; left. exists p'. now rewrite <- app_assoc.
      * right; right. exists p'. now rewrite <- app_assoc.
Qed.

Lemma in_iter_visleaves (head : BSPElement) (p : Path) :
  In p (map fst (iter_visleaves head))
  <-> exists b i, get head p = Some (BSPLeaf b false i).
Proof.
  unfold iter_visleaves, iter_leaves. rewrite iter_elements_structural.
  rewrite in_map_iff. split.
  - intros ([p' e] & <- & Hin). cbn.
    apply filter_In in Hin as [Hin Hvis]. apply filter_In in Hin as [Hin _].
    apply in_elements_from in Hin as (p'' & -> & Hget). cbn in Hvis.
    destruct e as [b [] i|]; try discriminate. eauto.
  - intros (b & i & Hget). exists (p, BSPLeaf b false i). split; [reflexivity|].
    apply filter_In. split; [|reflexivity].
    apply filter_In. split; [|reflexivity].
    apply in_elements_from. exists p. split; [reflexivity | exact Hget].
Qed.

(** *** The neighbours by paths *)

Lemma orientation_eqb_eq (o1 o2 : Orientation) :
  orientation_eqb o1 o2 = true <-> o1 = o2.
Proof. destruct o1, o2; cbn; intuition congruence. Qed.

Lemma avoids_app (o : Orientation) (c : bool) (e : BSPElement) (p : Path)
    (d : bool) :
  avoids o c e (p ++ [d])
  <-> avoids o c e p
      /\ exists b o' pt l r,
           get e p = Some (BSPNode b o' pt l r) /\ (o' = o -> d <> c).
Proof.
  revert e. induction p as [|d' p IH]; intros e; cbn.
  - destruct e as [b s i|b o' pt l r].
    + split; [tauto|]. intros (_ & ? & ? & ? & ? & ? & [=] & _).
    + split.
      * intros [H _]. split; [exact I|]. eauto 10.
      * intros (_ & ? & ? & ? & ? & ? & [= <- <- <- <- <-] & H). tauto.
  - destruct e as [b s i|b o' pt l r]; [tauto|].
    rewrite IH. tauto.
Qed.

(** The ascent stops at the nearest ancestor of the orientation of the
    direction that is approached from the side of the direction. *)
Lemma find_common_ancestor_sound (head : BSPElement) (dir : Direction)
    (rnode : list bool) (ca : Path) :
  find_common_ancestor head dir rnode = Some ca ->
  exists vs b pt l r,
    rev rnode = ca ++ approach_right dir :: vs
    /\ get head ca = Some (BSPNode b (dir_orientation dir) pt l r)
    /\ avoids (dir_orientation dir) (approach_right dir)
         (if approach_right dir then r else l) vs.
Proof.
  revert ca. induction rnode as [|d rparent IH]; intros ca; cbn;
    [discriminate|].
  destruct (get head (rev rparent)) as [[b s i|b o pt l r]|] eqn:Hget;
    try discriminate.
  destruct (orientation_eqb o (dir_orientation dir)
            && Bool.eqb d (approach_right dir)) eqn:Hc.
  - intros [= <-]. apply andb_true_iff in Hc as [Ho Hd].
    apply orientation_eqb_eq in Ho. apply Bool.eqb_prop in Hd. subst.
    exists [], b, pt, l, r. split; [reflexivity|]. split; [exact Hget|exact I].
  - intros Hfind. destruct (IH ca Hfind) as (vs & b' & pt' & l' & r' & Hrev & Hca & Hav).
    exists (vs ++ [d]), b', pt', l', r'. split; [|split; [exact Hca|]].
    + rewrite Hrev. now rewrite <- app_assoc.
    + apply avoids_app. split; [exact Hav|].
      rewrite Hrev, get_app, Hca in Hget. cbn in Hget.
      exists b, o, pt, l, r. split; [exact Hget|].
      intros -> ->. rewrite Bool.eqb_reflx in Hc.
      assert (orientation_eqb (dir_orientation dir) (dir_orientation dir) = true)
        by now apply orientation_eqb_eq.
      rewrite H in Hc. discriminate.
Qed.

Lemma find_common_ancestor_complete (head : BSPElement) (dir : Direction)
    (ca vs : Path) (b : Bounds) (pt : Z) (l r : BSPElement) :
  get head ca = Some (BSPNode b (dir_orientation dir) pt l r) ->
  avoids (dir_orientation dir) (approach_right dir)
    (if approach_right dir then r else l) vs ->
  find_common_ancestor head dir (rev (ca ++ approach_right dir :: vs))
  = Some ca.
Proof.
  intros Hca. induction vs as [|d vs IH] using rev_ind; intros Hav.
  - rewrite rev_app_distr. cbn. rewrite rev_involutive, Hca.
    rewrite Bool.eqb_reflx.
    assert (orientation_eqb (dir_orientation dir) (dir_orientation dir) = true)
      as -> by now apply orientation_eqb_eq.
    reflexivity.
  - apply avoids_app in Hav as (Hav & b' & o' & pt' & l' & r' & Hget & Hd).
    replace (ca ++ approach_right dir :: vs ++ [d])
      with ((ca ++ approach_right dir :: vs) ++ [d])
      by now rewrite <- app_assoc.
    rewrite rev_app_distr. cbn. rewrite rev_involutive.
    rewrite get_app, Hca. cbn. rewrite Hget.
    destruct (orientation_eqb o' (dir_orientation dir)
              && Bool.eqb d (approach_right dir)) eqn:Hc.
    + apply andb_true_iff in Hc as [Ho Hdc].
      apply orientation_eqb_eq in Ho. apply Bool.eqb_prop in Hdc.
      exfalso. now apply Hd.
    + now apply IH.
Qed.

Lemma in_descend (dir : Direction) (sb : Bounds) (q : Path)
    (node : BSPElement) (N : Path) :
  In N (descend dir sb q node)
  <-> exists p b s i,
        N = q ++ p /\ get node p = Some (BSPLeaf b s i)
        /\ avoids (dir_orientation dir) (negb (approach_right dir)) node p
        /\ extents_overlap dir b sb = true.
Proof.
  revert q. induction node as [b s i|b o pt l IHl r IHr]; intros q; cbn.
  - split.
    + destruct (extents_overlap dir b sb) eqn:E; [|intros []].
      intros [<-|[]]. exists [], b, s, i. now rewrite app_nil_r.
    + intros ([|d p] & b' & s' & i' & -> & Hget & _ & Hov); cbn in Hget;
        [|discriminate].
      injection Hget as <- <- <-. rewrite Hov. left. now rewrite app_nil_r.
  - destruct (orientation_eqb o (dir_orientation dir)) eqn:Ho.
    + apply orientation_eqb_eq in Ho.
      assert (IH : forall q',
                 In N (descend dir sb q'
                         (if approach_right dir then r else l))
                 <-> exists p b s i,
                       N = q' ++ p
                       /\ get (if approach_right dir then r else l) p
                          = Some (BSPLeaf b s i)
                       /\ avoids (dir_orientation dir)
                            (negb (approach_right dir))
                            (if approach_right dir then r else l) p
                       /\ extents_overlap dir b sb = true).
      { intros q'. destruct (approach_right dir); [apply IHr | apply IHl]. }
      rewrite IH. split.
      * intros (p & b' & s' & i' & -> & Hget & Hav & Hov).
        exists (approach_right dir :: p), b', s', i'.
        rewrite <- app_assoc. cbn. repeat split; try assumption.
        intros _. destruct (approach_right dir); discriminate.
      * intros ([|d p] & b' & s' & i' & -> & Hget & Hav & Hov);
          cbn in Hget, Hav; [discriminate|].
        destruct Hav as [Hd Hav].
        assert (d = approach_right dir) as ->.
        { specialize (Hd Ho). destruct d, (approach_right dir);
            cbn in Hd; congruence. }
        exists p, b', s', i'. rewrite <- app_assoc. cbn. tauto.
    + assert (Hne : o <> dir_orientation dir).
      { intros H. apply orientation_eqb_eq in H. congruence. }
      rewrite in_app_iff, IHr, IHl. split.
      * intros [(p & b' & s' & i' & -> & Hget & Hav & Hov)
               |(p & b' & s' & i' & -> & Hget & Hav & Hov)].
        -- exists (true :: p), b', s', i'. rewrite <- app_assoc. cbn. tauto.
        -- exists (false :: p), b', s', i'. rewrite <- app_assoc. cbn. tauto.
      * intros ([|[] p] & b' & s' & i' & -> & Hget & Hav & Hov);
          cbn in Hget, Hav; [discriminate| |].
        -- left. exists p, b', s', i'. rewrite <- app_assoc. cbn. tauto.
        -- right. exists p, b', s', i'. rewrite <- app_assoc. cbn. tauto.
Qed.

Lemma in_iter_directed_neighbors (head : BSPElement) (dir : Direction)
    (V N : Path) :
  (exists b s i, get head V = Some (BSPLeaf b s i)) ->
  In N (iter_directed_neighbors head V dir) <-> adjacent head dir V N.
Proof.
  intros (bV & sV & iV & HV). unfold iter_directed_neighbors, adjacent.
  rewrite HV. cbn [bounds_of]. split.
  - destruct (find_common_ancestor head dir (rev V)) as [ca|] eqn:Hfind;
      [|intros []].
    apply find_common_ancestor_sound in Hfind
      as (vs & b & pt & l & r & Hrev & Hca & Hav).
    rewrite rev_involutive in Hrev.
    rewrite get_app, Hca. cbn.
    intros Hin. apply in_descend in Hin
      as (ns & bN & sN & iN & -> & HN & HavN & Hov).
    exists ca, vs, ns, b, pt, l, r, bV, sV, iV, bN, sN, iN.
    rewrite <- app_assoc. cbn. repeat split; try assumption.
    rewrite Hrev, get_app, Hca in HV. exact HV.
  - intros (ca & vs & ns & b & pt & l & r & bV' & sV' & iV' & bN & sN & iN
            & -> & -> & Hca & HVs & Hav & HN & HavN & Hov).
    rewrite (find_common_ancestor_complete head dir ca vs b pt l r Hca Hav).
    rewrite get_app, Hca. cbn.
    apply in_descend. exists ns, bN, sN, iN.
    rewrite <- app_assoc. cbn.
    repeat split; try assumption.
    rewrite get_app, Hca in HV. cbn in HV.
    rewrite HVs in HV. injection HV as -> -> ->. exact Hov.
Qed.

Lemma dir_orientation_opposite (dir : Direction) :
  dir_orientation (opposite dir) = dir_orientation dir.
Proof. destruct dir; reflexivity. Qed.

Lemma approach_right_opposite (dir : Direction) :
  approach_right (opposite dir) = negb (approach_right dir).
Proof. destruct dir; reflexivity. Qed.

Lemma extents_overlap_sym (dir : Direction) (b1 b2 : Bounds) :
  extents_overlap (opposite dir) b1 b2 = extents_overlap dir b2 b1.
Proof.
  destruct b1 as [[[l1 t1] r1] m1], b2 as [[[l2 t2] r2] m2].
  destruct dir; cbn; f_equal;
    rewrite !Z.geb_leb; apply orb_comm.
Qed.

(** The relation is symmetric up to the direction. *)
Lemma adjacent_sym (head : BSPElement) (dir : Direction) (V N : Path) :
  adjacent head dir V N -> adjacent head (opposite dir) N V.
Proof.
  intros (ca & vs & ns & b & pt & l & r & bV & sV & iV & bN & sN & iN
          & -> & -> & Hca & HVs & Hav & HN & HavN & Hov).
  unfold adjacent.
  rewrite dir_orientation_opposite, approach_right_opposite.
  exists ca, ns, vs, b, pt, l, r, bN, sN, iN, bV, sV, iV.
  rewrite Bool.negb_involutive, extents_overlap_sym. tauto.
Qed.

Lemma adjacent_leaves (head : BSPElement) (dir : Direction) (V N : Path) :
  adjacent head dir V N ->
  V <> N
  /\ (exists b s i, get head V = Some (BSPLeaf b s i))
  /\ (exists b s i, get head N = Some (BSPLeaf b s i)).
Proof.
  intros (ca & vs & ns & b & pt & l & r & bV & sV & iV & bN & sN & iN
          & -> & -> & Hca & HVs & Hav & HN & HavN & Hov).
  split; [|split].
  - intros H. apply app_inv_head in H. injection H as H _.
    destruct (approach_right dir); discriminate.
  - exists bV, sV, iV. rewrite get_app, Hca. exact HVs.
  - exists bN, sN, iN. rewrite get_app, Hca. exact HN.
Qed.

Lemma in_iter_neighbors (head : BSPElement) (V N : Path) :
  (exists b s i, get head V = Some (BSPLeaf b s i)) ->
  In N (iter_neighbors head V) <-> exists dir, adjacent head dir V N.
Proof.
  intros HV. unfold iter_neighbors. rewrite in_flat_map. split.
  - intros (dir & _ & Hin). exists dir.
    now apply in_iter_directed_neighbors.
  - intros (dir & Hadj). exists dir. split.
    + destruct dir; cbn; tauto.
    + now apply in_iter_directed_neighbors.
Qed.

(** A leaf among the neighbours of another has that other among its
    own. *)
Lemma iter_neighbors_sym (head : BSPElement) (V N : Path) :
  (exists b s i, get head V = Some (BSPLeaf b s i)) ->
  In N (iter_neighbors head V) -> In V (iter_neighbors head N).
Proof.
  intros HV Hin. apply in_iter_neighbors in Hin as [dir Hadj]; [|exact HV].
  apply in_iter_neighbors.
  - apply (adjacent_leaves head dir V N Hadj).
  - exists (opposite dir). now apply adjacent_sym.
Qed.

End TraversalFacts.

Section PortalFacts.
Import BSP Portals.

Ltac unfold_portals :=
  unfold portals_of in *;
  cbn [store tree_portals leaf_portals next_pid alreadyProcessed] in *.

Lemma BSPPortal_init_fields (head : BSPElement) (n : nat) (l1 l2 : Path)
    (portal : BSPPortal) :
  BSPPortal_init head n l1 l2 = Ok portal ->
  pid portal = n /\ leaf1 portal = l1 /\ leaf2 portal = l2.
Proof.
  unfold BSPPortal_init.
  destruct (get head l1) as [[b1 s1 i1|]|]; try discriminate.
  destruct (get head l2) as [[b2 s2 i2|]|]; try discriminate.
  destruct s1; [discriminate|]. destruct s2; [discriminate|].
  destruct b1 as [[[x1 t1] r1] m1], b2 as [[[x2 t2] r2] m2].
  repeat (destruct (is_directed_neighbor_of _ _ _ _);
          [intros [= <-]; cbn; tauto|]).
  discriminate.
Qed.

(** The constructor finds a direction whenever the first leaf is among
    the neighbours of the second one. *)
Lemma BSPPortal_init_ok (head : BSPElement) (n : nat) (l1 l2 : Path)
    (b1 b2 : Bounds) (i1 i2 : Z) :
  get head l1 = Some (BSPLeaf b1 false i1) ->
  get head l2 = Some (BSPLeaf b2 false i2) ->
  In l1 (iter_neighbors head l2) ->
  exists portal, BSPPortal_init head n l1 l2 = Ok portal.
Proof.
  intros H1 H2 Hin.
  apply in_iter_neighbors in Hin as [dir Hadj]; [|eauto].
  apply in_iter_directed_neighbors in Hadj; [|eauto].
  assert (Hdir : is_directed_neighbor_of head dir l1 l2 = true).
  { unfold is_directed_neighbor_of. apply bool_decide_eq_true.
    now apply list_elem_of_In. }
  unfold BSPPortal_init. rewrite H1, H2.
  destruct b1 as [[[x1 t1] r1] m1], b2 as [[[x2 t2] r2] m2].
  destruct (is_directed_neighbor_of head DirL l1 l2) eqn:EL; [eauto|].
  destruct (is_directed_neighbor_of head DirT l1 l2) eqn:ET; [eauto|].
  destruct (is_directed_neighbor_of head DirR l1 l2) eqn:ER; [eauto|].
  destruct (is_directed_neighbor_of head DirB l1 l2) eqn:EB; [eauto|].
  destruct dir; congruence.
Qed.

Lemma portals_in_add (leaf l : Path) (portal : BSPPortal)
    (m : gmap Path (gset BSPPortal)) :
  default ∅ (add_leaf_portal leaf portal m !! l)
  = if decide (l = leaf) then {[portal]} ∪ default ∅ (m !! leaf)
    else default ∅ (m !! l).
Proof.
  unfold add_leaf_portal. destruct (decide (l = leaf)) as [->|Hne].
  - now rewrite lookup_insert_eq.
  - now rewrite lookup_insert_ne by congruence.
Qed.

Lemma elem_portals_in_add (leaf l : Path) (portal p : BSPPortal)
    (m : gmap Path (gset BSPPortal)) :
  p ∈ default ∅ (add_leaf_portal leaf portal m !! l)
  <-> (l = leaf /\ p = portal) \/ p ∈ default ∅ (m !! l).
Proof.
  rewrite portals_in_add. case_decide as Hl.
  - subst l. rewrite elem_of_union, elem_of_singleton. tauto.
  - tauto.
Qed.

Lemma leaf_solid_false_leaf (head : BSPElement) (l : Path) :
  (exists b s i, get head l = Some (BSPLeaf b s i)) ->
  leaf_solid head l = false ->
  exists b i, get head l = Some (BSPLeaf b false i).
Proof.
  intros (b & s & i & H). unfold leaf_solid. rewrite H. intros ->. eauto.
Qed.

(** One iteration of the inner loop. *)
Lemma generate_portals_step_inv (head : BSPElement) (n0 : nat)
    (V N : Path) (g : GenState) (bV : Bounds) (iV : Z) :
  get head V = Some (BSPLeaf bV false iV) ->
  In N (iter_neighbors head V) ->
  gen_inv n0 g ->
  exists g',
    generate_portals_step head V g N = Ok g'
    /\ gen_inv n0 g'
    /\ alreadyProcessed g'
       = alreadyProcessed g ∪ pairs_with head V [N].
Proof.
  intros HV Hin Hinv. unfold generate_portals_step, pairs_with.
  cbn [List.filter].
  destruct (leaf_solid head N) eqn:Hsolid; cbn [negb map].
  { exists g. split; [reflexivity|]. split; [exact Hinv|]. set_solver. }
  destruct (bool_decide ({[V; N]} ∈ alreadyProcessed g)) eqn:Hseen.
  { apply bool_decide_eq_true in Hseen.
    exists g. split; [reflexivity|]. split; [exact Hinv|]. set_solver. }
  apply bool_decide_eq_false in Hseen.
  assert (HN : exists b i, get head N = Some (BSPLeaf b false i)).
  { apply leaf_solid_false_leaf; [|exact Hsolid].
    apply in_iter_neighbors in Hin as [dir Hadj]; [|eauto].
    apply (adjacent_leaves head dir V N Hadj). }
  destruct HN as (bN & iN & HN).
  assert (Hsym : In V (iter_neighbors head N)).
  { apply iter_neighbors_sym; [eauto | exact Hin]. }
  destruct (BSPPortal_init_ok head (next_pid (store g)) V N bV bN iV iN
              HV HN Hsym) as [portal Hportal].
  rewrite Hportal. cbn [rbind].
  apply BSPPortal_init_fields in Hportal as (Hpid & Hl1 & Hl2).
  destruct Hinv as [Hnext Hsize Hnew Honly Hboth Hfresh].
  assert (Hnotin : portal ∉ tree_portals (store g)).
  { intros Hp. apply Hnew in Hp. lia. }
  eexists. split; [reflexivity|]. split; [|cbn; set_solver].
  constructor; cbn [store tree_portals leaf_portals next_pid alreadyProcessed].
  - lia.
  - rewrite !size_union by set_solver. now rewrite !size_singleton, Hsize.
  - intros p Hp. apply elem_of_union in Hp as [Hp|Hp].
    + apply elem_of_singleton in Hp as ->. lia.
    + apply Hnew in Hp. lia.
  - intros l p Hp Hge. unfold_portals. rewrite !elem_portals_in_add in Hp.
    destruct Hp as [[-> ->]|[[-> ->]|Hold]].
    + split; [|right; congruence].
      apply elem_of_union. left. now apply elem_of_singleton.
    + split; [|left; congruence].
      apply elem_of_union. left. now apply elem_of_singleton.
    + destruct (Honly l p Hold Hge) as [Htp Hl]. split; [|exact Hl].
      apply elem_of_union. now right.
  - intros p Hp. unfold_portals. rewrite !elem_portals_in_add.
    apply elem_of_union in Hp as [Hp|Hp].
    + apply elem_of_singleton in Hp as ->. rewrite Hl1, Hl2. tauto.
    + destruct (Hboth p Hp) as [H1 H2]. tauto.
  - intros l p Hp. unfold_portals. rewrite !elem_portals_in_add in Hp.
    destruct Hp as [[-> ->]|[[-> ->]|Hold]]; [lia|lia|].
    apply Hfresh in Hold. lia.
Qed.

Lemma pairs_with_cons (head : BSPElement) (V N : Path) (ns : list Path) :
  pairs_with head V (N :: ns)
  = pairs_with head V [N] ∪ pairs_with head V ns.
Proof.
  unfold pairs_with. cbn [List.filter].
  destruct (negb (leaf_solid head N)); cbn [map list_to_set].
  - now rewrite union_empty_r_L.
  - now rewrite union_empty_l_L.
Qed.

Lemma pairs_with_nil (head : BSPElement) (V : Path) :
  pairs_with head V [] = ∅.
Proof. reflexivity. Qed.

(** The inner loop. *)
Lemma generate_portals_inner (head : BSPElement) (n0 : nat) (V : Path)
    (bV : Bounds) (iV : Z) (ns : list Path) :
  get head V = Some (BSPLeaf bV false iV) ->
  (forall N, In N ns -> In N (iter_neighbors head V)) ->
  forall g, gen_inv n0 g ->
  exists g',
    for_each (generate_portals_step head V) ns g = Ok g'
    /\ gen_inv n0 g'
    /\ alreadyProcessed g' = alreadyProcessed g ∪ pairs_with head V ns.
Proof.
  intros HV. induction ns as [|N ns IH]; intros Hns g Hinv.
  - exists g. split; [reflexivity|]. split; [exact Hinv|].
    now rewrite pairs_with_nil, union_empty_r_L.
  - destruct (generate_portals_step_inv head n0 V N g bV iV HV
                (Hns N (or_introl eq_refl)) Hinv) as (g1 & Hstep & Hinv1 & Hap1).
    destruct (IH (fun N' H => Hns N' (or_intror H)) g1 Hinv1)
      as (g' & Hrest & Hinv' & Hap').
    exists g'. cbn [for_each]. rewrite Hstep. cbn [rbind].
    split; [exact Hrest|]. split; [exact Hinv'|].
    now rewrite Hap', Hap1, (pairs_with_cons head V N ns), union_assoc_L.
Qed.

(** The outer loop. *)
Lemma generate_portals_outer (head : BSPElement) (n0 : nat)
    (vs : list Path) :
  (forall V, In V vs -> exists b i, get head V = Some (BSPLeaf b false i)) ->
  forall g, gen_inv n0 g ->
  exists g',
    for_each
      (fun g visleaf =>
         for_each (generate_portals_step head visleaf)
           (iter_neighbors head visleaf) g) vs g = Ok g'
    /\ gen_inv n0 g'
    /\ alreadyProcessed g' = alreadyProcessed g ∪ pairs_seen head vs.
Proof.
  induction vs as [|V vs IH]; intros Hvs g Hinv.
  - exists g. split; [reflexivity|]. split; [exact Hinv|].
    unfold pairs_seen. cbn. now rewrite union_empty_r_L.
  - destruct (Hvs V (or_introl eq_refl)) as (bV & iV & HV).
    destruct (generate_portals_inner head n0 V bV iV
                (iter_neighbors head V) HV (fun N H => H) g Hinv)
      as (g1 & Hstep & Hinv1 & Hap1).
    destruct (IH (fun V' H => Hvs V' (or_intror H)) g1 Hinv1)
      as (g' & Hrest & Hinv' & Hap').
    exists g'. cbn [for_each]. rewrite Hstep. cbn [rbind].
    split; [exact Hrest|]. split; [exact Hinv'|].
    rewrite Hap', Hap1.
    change (pairs_seen head (V :: vs))
      with (pairs_with head V (iter_neighbors head V) ∪ pairs_seen head vs).
    now rewrite union_assoc_L.
Qed.

Lemma cleared_subset (vs : list Path) (m : gmap Path (gset BSPPortal))
    (l : Path) (p : BSPPortal) :
  p ∈ default ∅ (fold_left (fun m v => <[v := ∅]> m) vs m !! l) ->
  p ∈ default ∅ (m !! l).
Proof.
  revert m. induction vs as [|v vs IH]; intros m; cbn; [tauto|].
  intros Hp. apply IH in Hp.
  destruct (decide (l = v)) as [->|Hne].
  - rewrite lookup_insert_eq in Hp. cbn in Hp.
    now apply not_elem_of_empty in Hp.
  - now rewrite lookup_insert_ne in Hp by congruence.
Qed.

Lemma gen_inv_initial (vs : list Path) (st : PortalStore) :
  store_fresh st ->
  gen_inv (next_pid st)
    (mkGenState
       (mkPortalStore ∅
          (fold_left (fun m v => <[v := ∅]> m) vs (leaf_portals st))
          (next_pid st)) ∅).
Proof.
  intros Hfresh. constructor; unfold_portals.
  - lia.
  - reflexivity.
  - intros p Hp. now apply not_elem_of_empty in Hp.
  - intros l p Hp Hge. apply cleared_subset in Hp.
    apply (Hfresh l p) in Hp. lia.
  - intros p Hp. now apply not_elem_of_empty in Hp.
  - intros l p Hp. apply cleared_subset in Hp. now apply (Hfresh l p).
Qed.

Lemma pair_comm (a b : Path) : ({[a; b]} : gset Path) = {[b; a]}.
Proof. apply union_comm_L. Qed.

(** The pairs that the loops come across are the unordered pairs of
    the design document. *)
Lemma pairs_seen_neighbor_pairs (head : BSPElement) :
  pairs_seen head (map fst (iter_visleaves head)) = neighbor_pairs head.
Proof.
  apply set_eq. intros x. unfold pairs_seen, neighbor_pairs.
  rewrite elem_of_union_list, elem_of_list_to_set, list_elem_of_In,
    in_flat_map.
  split.
  - intros (X & HX & Hx). apply list_elem_of_In, in_map_iff in HX
      as (V & <- & HV).
    unfold pairs_with in Hx.
    apply elem_of_list_to_set, list_elem_of_In, in_map_iff in Hx
      as (N & <- & HN).
    apply filter_In in HN as [HN Hsol]. apply negb_true_iff in Hsol.
    assert (HVleaf : exists b s i, get head V = Some (BSPLeaf b s i)).
    { apply in_iter_visleaves in HV as (b & i & H). eauto. }
    pose proof HN as Hadj.
    apply in_iter_neighbors in Hadj as [dir Hadj]; [|exact HVleaf].
    destruct (adjacent_leaves head dir V N Hadj) as (Hne & _ & HNleaf).
    exists V. split; [exact HV|]. apply in_flat_map. exists N. split.
    + apply in_iter_visleaves. now apply leaf_solid_false_leaf.
    + assert (Hb : bool_decide (N <> V) && is_neighbor_of head N V = true).
      { apply andb_true_iff. split.
        - apply bool_decide_eq_true. congruence.
        - apply bool_decide_eq_true. now apply list_elem_of_In. }
      rewrite Hb. left. apply pair_comm.
  - intros (N & HN & Hin). apply in_flat_map in Hin as (V & HV & Hin).
    destruct (bool_decide (V <> N) && is_neighbor_of head V N) eqn:Hb;
      [|destruct Hin].
    destruct Hin as [<-|[]].
    apply andb_true_iff in Hb as [_ Hnb].
    apply bool_decide_eq_true, list_elem_of_In in Hnb.
    exists (pairs_with head N (iter_neighbors head N)). split.
    + apply list_elem_of_In, in_map_iff. exists N. tauto.
    + unfold pairs_with.
      apply elem_of_list_to_set, list_elem_of_In, in_map_iff.
      exists V. split; [apply pair_comm|].
      apply filter_In. split; [exact Hnb|].
      apply negb_true_iff. apply in_iter_visleaves in HV as (b & i & HV).
      unfold leaf_solid. now rewrite HV.
Qed.

(** C5. From a store in which the portals of the leaves are older than
    [next_pid], [generate_portals] returns; afterwards the number of
    portals of the tree is the number of unordered pairs of distinct
    visleaves of which one is among the neighbours of the other, and
    every portal of the tree is in the portal sets of its two leaves
    and of no other leaf. *)
Theorem generate_portals_spec (head : BSPElement) (st : PortalStore) :
  store_fresh st ->
  exists st',
    generate_portals head st = Ok st'
    /\ size (tree_portals st') = size (neighbor_pairs head)
    /\ forall p, p ∈ tree_portals st' ->
         forall l, p ∈ portals_of st' l <-> (l = leaf1 p \/ l = leaf2 p).
Proof.
  intros Hfresh. unfold generate_portals.
  destruct (generate_portals_outer head (next_pid st)
              (map fst (iter_visleaves head))
              (fun V H => proj1 (in_iter_visleaves head V) H)
              _ (gen_inv_initial (map fst (iter_visleaves head)) st Hfresh))
    as (g' & Hloop & Hinv & Hap).
  exists (store g'). cbn zeta. rewrite Hloop. cbn [rbind].
  split; [reflexivity|]. split.
  - rewrite (inv_size _ _ Hinv), Hap. cbn [alreadyProcessed].
    now rewrite union_empty_l_L, pairs_seen_neighbor_pairs.
  - intros p Hp l. split.
    + intros Hl. apply (inv_only _ _ Hinv l p Hl).
      apply (inv_new _ _ Hinv p Hp).
    + destruct (inv_both _ _ Hinv p Hp) as [H1 H2].
      intros [->| ->]; assumption.
Qed.

End PortalFacts.

Section FloodFacts.
Import BSP Portals Flood.

Variables Viewcone Surface : Type.
Variable portal_within_viewcone : BSPPortal -> Viewcone -> result bool.
Variable restrict_viewcone : BSPPortal -> Viewcone -> result Viewcone.
Variable new_shroudmap : Path -> Surface.
Variable fill_surface_within_viewcone :
  Surface -> Path -> Viewcone -> result Surface.
Variable initial_viewcone : Z * Z -> Z * Z -> Viewcone.
Variable iter_set : gset BSPPortal -> list BSPPortal.
Variable ps : PortalStore.

Let State := FloodState Viewcone Surface.

Hypothesis iter_set_sound :
  forall (s : gset BSPPortal) p, In p (iter_set s) -> p ∈ s.


Section Within.

(** A set that holds the portals of every leaf. *)
Variable known : gset BSPPortal.
Hypothesis leaf_portals_known : forall leaf, portals_of ps leaf ⊆ known.









End Within.


End FloodFacts.

Section FloodDefect.
Import BSP Portals Flood.


End FloodDefect.

Section Witnesses.
Import BSP Portals Flood.

Lemma empty_store_fresh : store_fresh empty_store.
Proof.
  intros leaf portal Hp. unfold portals_of in Hp. cbn in Hp.
  rewrite lookup_empty in Hp. cbn in Hp.
  now apply not_elem_of_empty in Hp.
Defined.

Lemma generate_portals_spec_witness :
  exists st',
    generate_portals open_tree empty_store = Ok st'
    /\ size (tree_portals st') = size (neighbor_pairs open_tree)
    /\ forall p, p ∈ tree_portals st' ->
         forall l, p ∈ portals_of st' l <-> (l = leaf1 p \/ l = leaf2 p).
Proof.
  apply (generate_portals_spec open_tree empty_store). exact empty_store_fresh.
Defined.


End Witnesses.

Section VdfFacts.
Import BSP Portals Vdf.
Local Open Scope string_scope.
Local Open Scope Z_scope.

(** *** [int (str z) = z] *)

Lemma no_space_uint (d : Decimal.uint) :
  no_space (NilEmpty.string_of_uint d) = true.
Proof. induction d; cbn; auto. Qed.

Lemma rstrip_no_space (s : string) : no_space s = true -> rstrip s = s.
Proof.
  induction s as [|c s IH]; cbn; [reflexivity|].
  intros H. apply andb_true_iff in H as [Hc Hs]. rewrite (IH Hs).
  apply negb_true_iff in Hc. rewrite Hc. now destruct s.
Qed.

Lemma lstrip_no_space (s : string) : no_space s = true -> lstrip s = s.
Proof.
  destruct s as [|c s]; cbn; [reflexivity|].
  intros H. apply andb_true_iff in H as [Hc _].
  apply negb_true_iff in Hc. now rewrite Hc.
Qed.

Lemma uint_head_not_plus (d : Decimal.uint) (c : ascii) (s : string) :
  NilEmpty.string_of_uint d = String c s -> Ascii.eqb c "+" = false.
Proof. destruct d; cbn; intros [= <- _]; reflexivity. Qed.

Lemma py_int_str_int (z : Z) : py_int (str_int z) = Ok z.
Proof.
  unfold str_int.
  assert (Hparse : NilZero.int_of_string
                     (NilZero.string_of_int (Z.to_int z))
                   = Some (Z.to_int z)).
  { apply NilZero.isi; destruct z; cbn; try discriminate;
      intros [= H]; now apply (Unsigned.to_uint_nonnil p). }
  assert (Hplain : no_space (NilZero.string_of_int (Z.to_int z)) = true
                   /\ forall c s, NilZero.string_of_int (Z.to_int z)
                                  = String c s ->
                                  Ascii.eqb c "+" = false).
  { destruct z as [|p|p]; cbn.
    - split; [reflexivity|]. intros c s [= <- _]. reflexivity.
    - pose proof (Unsigned.to_uint_nonnil p) as Hnil.
      unfold NilZero.string_of_uint.
      destruct (Pos.to_uint p) eqn:E; try congruence;
        rewrite <- E; (split; [apply no_space_uint|]);
        intros c s; apply uint_head_not_plus.
    - split.
      + pose proof (Unsigned.to_uint_nonnil p) as Hnil.
        unfold NilZero.string_of_uint.
        destruct (Pos.to_uint p) eqn:E; try congruence;
          rewrite <- E; apply no_space_uint.
      + intros c s [= <- _]. reflexivity. }
  destruct Hplain as [Hns Hhead].
  unfold py_int. rewrite (lstrip_no_space _ Hns), (rstrip_no_space _ Hns).
  destruct (NilZero.string_of_int (Z.to_int z)) as [|c s] eqn:E.
  - cbn in Hparse. discriminate.
  - rewrite (Hhead c s eq_refl), Hparse. f_equal. apply DecimalZ.of_to.
Qed.

(** *** The records that [to_kv] writes *)

Lemma encode_element (elems : list (Path * BSPElement))
    (pe : Path * BSPElement) :
  str_items (VDict (fix_references elems (to_dict (fst pe) (snd pe))))
  = kv_element elems pe.
Proof.
  destruct pe as [p e]. unfold kv_element. cbn [fst snd].
  destruct e as [[[[bl bt] br] bb] solid leafID
                |[[[bl bt] br] bb] o pt l r]; reflexivity.
Qed.

Lemma elements_dict_kv (elems l : list (Path * BSPElement)) (k : Z) :
  map (fun kv : PyKey * PyVal => (str_key (fst kv), str_items (snd kv)))
    (map (fun id : Z * list (PyKey * PyVal) =>
            (KeyInt (fst id), VDict (fix_references elems (snd id))))
       (enumerate_from k
          (map (fun pe : Path * BSPElement => to_dict (fst pe) (snd pe)) l)))
  = map (fun id : Z * KV => (str_int (fst id), snd id))
      (enumerate_from k (map (kv_element elems) l)).
Proof.
  revert k. induction l as [|pe rest IH]; intros k; [reflexivity|].
  cbn [map enumerate_from fst snd str_key].
  rewrite (encode_element elems pe), IH. reflexivity.
Qed.

Lemma to_kv_elements (mw mh : Z) (head : BSPElement) :
  to_kv mw mh head
  = KDict
      [("BSP",
        KDict
          [("maxWidth", KStr (str_int mw));
           ("maxHeight", KStr (str_int mh));
           ("elements",
            KDict
              (map (fun id => (str_int (fst id), snd id))
                 (enumerate_from 0
                    (map (kv_element (iter_elements head))
                       (iter_elements head)))))])].
Proof.
  unfold to_kv. rewrite <- elements_dict_kv. reflexivity.
Qed.

(** *** Reading the records back *)

Local Opaque str_int py_int.

Lemma get_bounds_from_dict_kv (b : Bounds) (rest : list (string * KV)) :
  get_bounds_from_dict (KDict (("bounds", kv_bounds b) :: rest)) = Ok b.
Proof.
  destruct b as [[[bl bt] br] bb]. unfold get_bounds_from_dict.
  cbn. now rewrite !py_int_str_int.
Qed.

Lemma BSPNode_from_dict_kv (n : Z) (b : Bounds) (o : Orientation)
    (pt li ri : Z) :
  BSPNode_from_dict n (kv_node b o pt li ri)
  = Ok (INode b o pt
          (Fresh (BSPLeaf (fst (child_bounds b o pt)) true n))
          (Fresh (BSPLeaf (snd (child_bounds b o pt)) true (n + 1))),
        n + 1 + 1).
Proof.
  unfold BSPNode_from_dict, kv_node. rewrite get_bounds_from_dict_kv.
  cbn. rewrite !py_int_str_int. cbn.
  destruct o; cbn; destruct (child_bounds b _ pt); reflexivity.
Qed.

Lemma BSPLeaf_from_dict_kv (n : Z) (b : Bounds) (solid : bool) (leafID : Z) :
  BSPLeaf_from_dict n (kv_leaf b solid leafID)
  = Ok (ILeaf b solid leafID, n + 1).
Proof.
  unfold BSPLeaf_from_dict, kv_leaf. rewrite get_bounds_from_dict_kv.
  destruct solid; cbn; now rewrite py_int_str_int.
Qed.

(** The object of an element after pass 1. *)
Lemma instantiate_all_kv (all elems : list (Path * BSPElement)) (n : Z) :
  exists instances n',
    instantiate_all n (map (kv_element all) elems) = Ok (instances, n')
    /\ Forall2 same_kind instances elems.
Proof.
  revert n. induction elems as [|[p e] rest IH]; intros n.
  - exists [], n. split; [reflexivity | constructor].
  - cbn [map instantiate_all]. unfold kv_element at 1. cbn [fst snd].
    destruct e as [b solid leafID|b o pt l r].
    + cbn [kv_get kv_leaf assoc]. cbn -[BSPLeaf_from_dict kv_bounds].
      rewrite BSPLeaf_from_dict_kv. cbn [rbind fst snd].
      destruct (IH (n + 1)) as (instances & n' & -> & Hall).
      exists (ILeaf b solid leafID :: instances), n'.
      split; [reflexivity|]. constructor; [|exact Hall]. cbn. auto.
    + cbn [kv_get kv_node assoc]. cbn -[BSPNode_from_dict kv_bounds].
      rewrite BSPNode_from_dict_kv. cbn [rbind fst snd].
      destruct (IH (n + 1 + 1)) as (instances & n' & -> & Hall).
      eexists (_ :: instances), n'.
      split; [reflexivity|]. constructor; [|exact Hall]. cbn. auto.
Qed.

Lemma py_index_in_range {A : Type} (l : list A) (k : Z) :
  0 <= k < Z.of_nat (length l) -> py_index l k = Ok (Z.to_nat k).
Proof.
  intros [H0 H1]. unfold py_index.
  apply Z.leb_le in H0. apply Z.ltb_lt in H1. now rewrite H0, H1.
Qed.

Lemma link_all_kv (arena0 : list Instance)
    (all elems : list (Path * BSPElement)) (instances : list Instance) :
  length arena0 = length all ->
  Forall2 same_kind instances elems ->
  (forall p b o pt l r d,
      In (p, BSPNode b o pt l r) elems ->
      exists k, id_of all (p ++ [d])%list = Some k
                /\ 0 <= k < Z.of_nat (length all)) ->
  link_all arena0 instances (map (kv_element all) elems)
  = Ok (map (instance_of all) elems).
Proof.
  intros Hlen Hall. induction Hall as [|i [p e] instances elems Hkind Hall IH];
    intros Hkids; [reflexivity|].
  cbn [map link_all]. unfold same_kind in Hkind. cbn [snd] in Hkind.
  rewrite IH by (intros; eapply Hkids; right; eassumption).
  destruct e as [b solid leafID|b o pt l r].
  - destruct i as [b' solid' leafID'|]; [|destruct Hkind].
    destruct Hkind as (-> & -> & ->). reflexivity.
  - destruct i as [|b' o' pt' l' r']; [destruct Hkind|].
    destruct Hkind as (-> & -> & ->).
    destruct (Hkids p b o pt l r false (or_introl eq_refl))
      as (kl & Hkl & Hrl).
    destruct (Hkids p b o pt l r true (or_introl eq_refl))
      as (kr & Hkr & Hrr).
    unfold link, kv_element, instance_of. cbn [fst snd].
    rewrite Hkl, Hkr. cbn [default]. unfold kv_node.
    cbn. rewrite !py_int_str_int. cbn [rbind].
    rewrite !py_index_in_range by (rewrite Hlen; assumption).
    reflexivity.
Qed.

Lemma id_of_in (elems : list (Path * BSPElement)) (p : Path)
    (e : BSPElement) :
  In (p, e) elems ->
  exists k, id_of elems p = Some k /\ 0 <= k < Z.of_nat (length elems).
Proof.
  induction elems as [|[q e'] rest IH]; [intros []|].
  intros Hin. cbn [id_of]. case_bool_decide as Hq.
  - exists 0. split; [reflexivity|]. cbn [length]. lia.
  - destruct Hin as [[= -> _]|Hin]; [congruence|].
    destruct (IH Hin) as (k & -> & Hk). exists (Z.succ k).
    split; [reflexivity|]. cbn [length]. lia.
Qed.

Lemma id_of_nth (elems : list (Path * BSPElement)) (p : Path) (k : Z) :
  id_of elems p = Some k ->
  0 <= k /\ exists e, nth_error elems (Z.to_nat k) = Some (p, e).
Proof.
  revert k. induction elems as [|[q e'] rest IH]; intros k; [discriminate|].
  cbn [id_of]. case_bool_decide as Hq.
  - intros [= <-]. subst q. split; [lia|]. exists e'. reflexivity.
  - destruct (id_of rest p) as [k'|]; [|discriminate].
    intros [= <-]. destruct (IH k' eq_refl) as [Hk' [e He]].
    split; [lia|]. exists e. rewrite Z2Nat.inj_succ by lia. exact He.
Qed.

Lemma in_iter_elements (head : BSPElement) (p : Path) (e : BSPElement) :
  In (p, e) (iter_elements head) <-> get head p = Some e.
Proof.
  rewrite iter_elements_structural, in_elements_from. split.
  - intros (p' & -> & H). exact H.
  - intros H. exists p. auto.
Qed.

Lemma length_elements_from (q : Path) (e : BSPElement) :
  length (elements_from q e) = size_of e.
Proof.
  revert q. induction e as [|b o pt l IHl r IHr]; intros q; cbn;
    [reflexivity|].
  rewrite length_app, IHl, IHr. lia.
Qed.

(** The object at the position of a path holds the element at that
    path. *)
Lemma instance_at (head : BSPElement) (p : Path) (e : BSPElement) :
  get head p = Some e ->
  nth_error (map (instance_of (iter_elements head)) (iter_elements head))
    (Z.to_nat (default 0 (id_of (iter_elements head) p)))
  = Some (instance_of (iter_elements head) (p, e)).
Proof.
  intros Hget. pose proof Hget as Hin. apply in_iter_elements in Hin.
  destruct (id_of_in _ _ _ Hin) as (k & Hk & _). rewrite Hk. cbn [default].
  destruct (id_of_nth _ _ _ Hk) as [_ [e' He']].
  assert (e' = e) as ->.
  { pose proof (nth_error_In _ _ He') as Hin'.
    apply in_iter_elements in Hin'. congruence. }
  unfold id. now rewrite nth_error_map, He'.
Qed.

Lemma unfold_ref_element (head : BSPElement) (e : BSPElement) :
  forall (p : Path) (fuel : nat),
    get head p = Some e ->
    (size_of e <= fuel)%nat ->
    unfold_ref (map (instance_of (iter_elements head)) (iter_elements head))
      fuel (Linked (Z.to_nat (default 0 (id_of (iter_elements head) p))))
    = Some e.
Proof.
  induction e as [b solid leafID|b o pt l IHl r IHr];
    intros p fuel Hget Hfuel.
  - destruct fuel as [|fuel]; [cbn in Hfuel; lia|].
    cbn [unfold_ref]. rewrite (instance_at head p _ Hget). reflexivity.
  - destruct fuel as [|fuel]; [cbn in Hfuel; lia|].
    pose proof (instance_at head p _ Hget) as Hat.
    unfold instance_of at 2 in Hat. cbn [fst snd] in Hat.
    cbn [unfold_ref]. rewrite Hat. cbn in Hfuel.
    rewrite (IHl (p ++ [false])%list fuel), (IHr (p ++ [true])%list fuel);
      try lia; try (rewrite get_app, Hget; reflexivity).
    reflexivity.
Qed.

Lemma map_snd_enumerate {A : Type} (f : Z -> string) (l : list A) (k : Z) :
  map snd (map (fun id : Z * A => (f (fst id), snd id)) (enumerate_from k l))
  = l.
Proof.
  revert k. induction l as [|x l IH]; intros k; [reflexivity|].
  cbn. now rewrite IH.
Qed.

(** The objects that [to_kv] describes: one for each element, in the
    order of [iter_elements], a node linked to the positions of its two
    children. *)
Lemma loaded_head_instances (head : BSPElement) (mw mh : KV) :
  loaded_head
    (mkLoadedTree mw mh
       (map (instance_of (iter_elements head)) (iter_elements head)))
  = Some head.
Proof.
  unfold loaded_head. cbn [loaded_elements].
  assert (Hfirst : exists rest, iter_elements head = ([], head) :: rest).
  { rewrite iter_elements_structural. destruct head; cbn; eauto. }
  destruct Hfirst as [rest Hfirst].
  assert (Hzero : Linked 0
                  = Linked (Z.to_nat
                              (default 0 (id_of (iter_elements head) [])))).
  { rewrite Hfirst. cbn [id_of]. rewrite bool_decide_eq_true_2 by reflexivity.
    reflexivity. }
  rewrite Hzero. apply (unfold_ref_element head head [] _ eq_refl).
  rewrite length_map, iter_elements_structural, length_elements_from. lia.
Qed.

(** Reading back what [to_kv] writes gives these objects, with the
    dimensions as strings. *)
Lemma from_kv_to_kv (n mw mh : Z) (head : BSPElement) :
  exists n',
    from_kv n (to_kv mw mh head)
    = Ok (mkLoadedTree (KStr (str_int mw)) (KStr (str_int mh))
            (map (instance_of (iter_elements head)) (iter_elements head)),
          n').
Proof.
  rewrite to_kv_elements. unfold from_kv.
  cbn [kv_get assoc String.eqb Ascii.eqb Bool.eqb rbind].
  rewrite map_snd_enumerate.
  destruct (instantiate_all_kv (iter_elements head) (iter_elements head)
              (n + 1)) as (instances & n' & -> & Hkind).
  cbn [rbind fst snd].
  rewrite (link_all_kv instances (iter_elements head) (iter_elements head)
             instances).
  - cbn [rbind].
    assert (Hfirst : exists rest, iter_elements head = ([], head) :: rest).
    { rewrite iter_elements_structural. destruct head; cbn; eauto. }
    destruct Hfirst as [rest Hfirst].
    assert (Hne : map (instance_of (iter_elements head)) (iter_elements head)
                  <> []).
    { rewrite Hfirst. discriminate. }
    destruct (map (instance_of (iter_elements head)) (iter_elements head))
      as [|i0 arena] eqn:Harena; [congruence|].
    cbn [rbind]. exists n'. reflexivity.
  - apply Forall2_length in Hkind. exact Hkind.
  - exact Hkind.
  - intros p b o pt l r d Hin. apply in_iter_elements in Hin.
    assert (Hchild : get head (p ++ [d])%list = Some (if d then r else l)).
    { rewrite get_app, Hin. reflexivity. }
    apply in_iter_elements in Hchild. eapply id_of_in. exact Hchild.
Qed.

(** *** The renumbering pass *)

Lemma shape_set_leafID (p : Path) :
  forall (e : BSPElement) (v : Z), shape (set_leafID e p v) = shape e.
Proof.
  induction p as [|d p IH]; intros [b s i|b o pt l r] v; cbn;
    try reflexivity.
  destruct d; cbn; now rewrite IH.
Qed.

Lemma shape_fold_set_leafID {A : Type} (f : A -> Path) (g : A -> Z)
    (l : list A) :
  forall e,
    shape (fold_left (fun h a => set_leafID h (f a) (g a)) l e) = shape e.
Proof.
  induction l as [|a l IH]; intros e; cbn [fold_left]; [reflexivity|].
  rewrite IH. apply shape_set_leafID.
Qed.

(** Renumbering changes leaf ids only. *)
Lemma shape_renumbered (head : BSPElement) :
  shape (number_visleaves (reset_leaf_ids head)) = shape head.
Proof.
  unfold number_visleaves, reset_leaf_ids.
  rewrite (shape_fold_set_leafID
             (fun ipe : Z * (Path * BSPElement) => fst (snd ipe)) fst).
  apply (shape_fold_set_leafID fst (fun _ => -1)).
Qed.

Lemma elements_from_cons (d : bool) (e : BSPElement) :
  forall q,
    elements_from (d :: q) e
    = map (fun pe => (d :: fst pe, snd pe)) (elements_from q e).
Proof.
  induction e as [|b o pt l IHl r IHr]; intros q; cbn; [reflexivity|].
  rewrite map_app, <- IHl, <- IHr. reflexivity.
Qed.

Lemma filter_snd_map_fst (P : BSPElement -> bool) (h : Path -> Path)
    (L : list (Path * BSPElement)) :
  List.filter (fun pe => P (snd pe)) (map (fun pe => (h (fst pe), snd pe)) L)
  = map (fun pe => (h (fst pe), snd pe))
      (List.filter (fun pe => P (snd pe)) L).
Proof.
  induction L as [|a L IH]; cbn; [reflexivity|].
  destruct (P (snd a)); cbn; congruence.
Qed.

Lemma filter_elements_node (P : BSPElement -> bool) b o pt l r :
  P (BSPNode b o pt l r) = false ->
  List.filter (fun pe => P (snd pe)) (elements_from [] (BSPNode b o pt l r))
  = (map (fun pe => (true :: fst pe, snd pe))
       (List.filter (fun pe => P (snd pe)) (elements_from [] r))
     ++ map (fun pe => (false :: fst pe, snd pe))
          (List.filter (fun pe => P (snd pe)) (elements_from [] l)))%list.
Proof.
  intros HP. cbn [elements_from app List.filter snd]. rewrite HP.
  rewrite List.filter_app, !elements_from_cons.
  rewrite !(filter_snd_map_fst P (cons _)). reflexivity.
Qed.

Lemma fold_set_leafID_under {A : Type} (f : A -> Path) (g : A -> Z)
    (d : bool) b o pt (L : list A) :
  forall l r,
    fold_left (fun h a => set_leafID h (d :: f a) (g a)) L (BSPNode b o pt l r)
    = if d
      then BSPNode b o pt l
             (fold_left (fun h a => set_leafID h (f a) (g a)) L r)
      else BSPNode b o pt
             (fold_left (fun h a => set_leafID h (f a) (g a)) L l) r.
Proof.
  induction L as [|a L IH]; intros l r; cbn [fold_left];
    [destruct d; reflexivity|].
  destruct d; cbn [set_leafID]; rewrite IH; reflexivity.
Qed.

Lemma fold_left_over_map {A B C : Type} (F : C -> B -> C) (h : A -> B)
    (L : list A) :
  forall e, fold_left F (map h L) e = fold_left (fun acc a => F acc (h a)) L e.
Proof. induction L as [|a L IH]; intros e; cbn; [reflexivity|apply IH]. Qed.

Lemma enumerate_from_app {A : Type} (l1 l2 : list A) :
  forall k,
    enumerate_from k (l1 ++ l2)
    = (enumerate_from k l1
       ++ enumerate_from (k + Z.of_nat (length l1)) l2)%list.
Proof.
  induction l1 as [|x l1 IH]; intros k; cbn [app enumerate_from length].
  - f_equal. lia.
  - rewrite IH.
    replace (k + Z.of_nat (S (length l1))) with (k + 1 + Z.of_nat (length l1))
      by lia.
    reflexivity.
Qed.

Lemma enumerate_from_map {A B : Type} (h : A -> B) (l : list A) :
  forall k,
    enumerate_from k (map h l)
    = map (fun ia => (fst ia, h (snd ia))) (enumerate_from k l).
Proof.
  induction l as [|x l IH]; intros k; cbn; [reflexivity|]. now rewrite IH.
Qed.

(** The first loop sets every leaf id to -1. *)
Lemma reset_leaf_ids_cleared (head : BSPElement) :
  reset_leaf_ids head = cleared head.
Proof.
  unfold reset_leaf_ids, iter_leaves. rewrite iter_elements_structural.
  induction head as [b solid i|b o pt l IHl r IHr]; [reflexivity|].
  rewrite (filter_elements_node is_leaf) by reflexivity.
  rewrite fold_left_app, !fold_left_over_map. cbn [fst snd cleared].
  rewrite (fold_set_leafID_under fst (fun _ => -1) true), IHr.
  rewrite (fold_set_leafID_under fst (fun _ => -1) false), IHl.
  reflexivity.
Qed.

(** The second loop numbers the visleaves in the order of
    [iter_elements]. *)
Lemma number_cleared (e : BSPElement) :
  forall k,
    fold_left
      (fun h (ipe : Z * (Path * BSPElement)) =>
         set_leafID h (fst (snd ipe)) (fst ipe))
      (enumerate_from k
         (List.filter (fun pe => is_visleaf (snd pe))
            (List.filter (fun pe => is_leaf (snd pe))
               (elements_from [] (cleared e)))))
      (cleared e)
    = fst (renumber e k)
    /\ snd (renumber e k)
       = k + Z.of_nat
               (length
                  (List.filter (fun pe => is_visleaf (snd pe))
                     (List.filter (fun pe => is_leaf (snd pe))
                        (elements_from [] (cleared e))))).
Proof.
  induction e as [b solid i|b o pt l IHl r IHr]; intros k.
  - destruct solid; cbn; split; (reflexivity || lia).
  - cbn [cleared renumber].
    rewrite (filter_elements_node is_leaf) by reflexivity.
    rewrite List.filter_app, !(filter_snd_map_fst is_visleaf (cons _)).
    rewrite enumerate_from_app, !enumerate_from_map, fold_left_app.
    rewrite !fold_left_over_map, length_app, !length_map.
    cbn [fst snd].
    destruct (IHr k) as [Hr1 Hr2].
    destruct (renumber r k) as [r' k1] eqn:Er. cbn [fst snd] in Hr1, Hr2.
    rewrite <- Hr2.
    destruct (IHl k1) as [Hl1 Hl2].
    destruct (renumber l k1) as [l' k2] eqn:El. cbn [fst snd] in Hl1, Hl2.
    rewrite (fold_set_leafID_under
               (fun ipe : Z * (Path * BSPElement) => fst (snd ipe)) fst true).
    rewrite Hr1.
    rewrite (fold_set_leafID_under
               (fun ipe : Z * (Path * BSPElement) => fst (snd ipe)) fst false).
    rewrite Hl1. cbn [fst snd]. split; [reflexivity|lia].
Qed.

(** The renumbering of [to_vdf] in one pass. *)
Lemma number_visleaves_renumber (head : BSPElement) :
  number_visleaves (reset_leaf_ids head) = fst (renumber head 0).
Proof.
  rewrite reset_leaf_ids_cleared.
  unfold number_visleaves, iter_visleaves, iter_leaves.
  rewrite iter_elements_structural. apply number_cleared.
Qed.

End VdfFacts.

Section RoundTripKV.
Import BSP Portals Vdf.

(** C3. [to_vdf] with the dictionary itself for its text returns the
    dictionary that it hands to [format_vdf]. Loading that dictionary
    succeeds for every tree, and the tree below the head of the loaded
    tree is the saved one as [to_vdf] leaves it: the same bounds,
    orientations, partitions and solidity as the tree had before the
    call, and the leaf ids of the renumbering of [to_vdf], every solid
    leaf with -1 and the visleaves with 0, 1, ... in the order of
    [iter_elements]. *)
Theorem from_kv_to_kv_round_trip (t : BSPTree Z) (n : Z) :
  exists loaded n',
    from_kv n (snd (to_vdf KV (fun d => d) t)) = Ok (loaded, n')
    /\ loaded_head loaded = Some (head (fst (to_vdf KV (fun d => d) t)))
    /\ shape (head (fst (to_vdf KV (fun d => d) t))) = shape (head t)
    /\ head (fst (to_vdf KV (fun d => d) t)) = fst (renumber (head t) 0).
Proof.
  unfold to_vdf. cbn [fst snd head set_head].
  destruct (from_kv_to_kv n (maxWidth t) (maxHeight t)
              (number_visleaves (reset_leaf_ids (head t)))) as [n' Hload].
  eexists _, n'. split; [exact Hload|].
  split; [apply loaded_head_instances|].
  split; [apply shape_renumbered|apply number_visleaves_renumber].
Qed.

End RoundTripKV.

Section RoundTrip.
Import BSP Portals Vdf.

Variable VdfText : Type.
Variable format_vdf : KV -> VdfText.
Variable parse_vdf : VdfText -> result KV.

(** X1. Where [parse_vdf] reads back the dictionary that [to_vdf] hands
    to [format_vdf] for this tree, loading the text that [to_vdf] returns
    succeeds. The loaded tree has one object for each element, a node
    linked to the objects of its two children, and the tree below its
    head is the head of the tree as [to_vdf] leaves it: the same bounds,
    orientations, partitions and solidity as before the call, every
    solid leaf with id -1 and the visleaves numbered 0, 1, ... in the
    order of [iter_elements]. The dimensions of the loaded tree are the
    texts of the saved ones. *)
Theorem from_vdf_to_vdf_round_trip (t : BSPTree Z) (n : Z) :
  parse_vdf
    (format_vdf
       (to_kv (maxWidth t) (maxHeight t)
          (number_visleaves (reset_leaf_ids (head t)))))
  = Ok (to_kv (maxWidth t) (maxHeight t)
          (number_visleaves (reset_leaf_ids (head t)))) ->
  exists loaded n',
    from_vdf VdfText parse_vdf n (snd (to_vdf VdfText format_vdf t))
    = Ok (loaded, n')
    /\ loaded_head loaded = Some (head (fst (to_vdf VdfText format_vdf t)))
    /\ loaded_elements loaded
       = map (instance_of
                (iter_elements (head (fst (to_vdf VdfText format_vdf t)))))
           (iter_elements (head (fst (to_vdf VdfText format_vdf t))))
    /\ shape (head (fst (to_vdf VdfText format_vdf t))) = shape (head t)
    /\ head (fst (to_vdf VdfText format_vdf t)) = fst (renumber (head t) 0)
    /\ loaded_maxWidth loaded = KStr (str_int (maxWidth t))
    /\ loaded_maxHeight loaded = KStr (str_int (maxHeight t)).
Proof.
  intros Hparse. unfold from_vdf, to_vdf. cbn [fst snd].
  rewrite Hparse. cbn [rbind].
  destruct (from_kv_to_kv n (maxWidth t) (maxHeight t)
              (number_visleaves (reset_leaf_ids (head t)))) as [n' Hload].
  eexists _, n'. split; [exact Hload|].
  cbn [head set_head loaded_elements loaded_maxWidth loaded_maxHeight].
  split; [apply loaded_head_instances|]. split; [reflexivity|].
  split; [apply shape_renumbered|].
  split; [apply number_visleaves_renumber|]. split; reflexivity.
Qed.

End RoundTrip.

Section RoundTripWitness.
Import BSP Portals Vdf.

Lemma from_vdf_to_vdf_round_trip_witness :
  exists loaded n',
    from_vdf KV (fun d => Ok d) 7
      (snd (to_vdf KV (fun d => d) Collision.corner_tree))
    = Ok (loaded, n')
    /\ loaded_head loaded
       = Some (head (fst (to_vdf KV (fun d => d) Collision.corner_tree)))
    /\ loaded_elements loaded
       = map (instance_of
                (iter_elements
                   (head (fst (to_vdf KV (fun d => d) Collision.corner_tree)))))
           (iter_elements
              (head (fst (to_vdf KV (fun d => d) Collision.corner_tree))))
    /\ shape (head (fst (to_vdf KV (fun d => d) Collision.corner_tree)))
       = shape (head Collision.corner_tree)
    /\ head (fst (to_vdf KV (fun d => d) Collision.corner_tree))
       = fst (renumber (head Collision.corner_tree) 0)
    /\ loaded_maxWidth loaded = KStr (str_int (maxWidth Collision.corner_tree))
    /\ loaded_maxHeight loaded
       = KStr (str_int (maxHeight Collision.corner_tree)).
Proof.
  apply (from_vdf_to_vdf_round_trip KV (fun d => d) (fun d => Ok d)
           Collision.corner_tree 7).
  reflexivity.
Defined.

End RoundTripWitness.

(** * Further properties of the code *)

Section EditingFacts.
Import BSP Collision.
Local Open Scope Z_scope.

Lemma BSPNode_init_eq (n : Z) (b : Bounds) (o : Orientation) (pt : Z) :
  BSPNode_init n b o pt
  = (BSPNode b o pt
       (BSPLeaf (fst (child_bounds b o pt)) true n)
       (BSPLeaf (snd (child_bounds b o pt)) true (n + 1)), n + 1 + 1).
Proof.
  unfold BSPNode_init. destruct (child_bounds b o pt) as [lb rb].
  reflexivity.
Qed.

Lemma replace_at_bounds_ok (e : BSPElement) (p : Path)
    (new old h : BSPElement) :
  get e p = Some old -> bounds_of new = bounds_of old -> bounds_ok new ->
  bounds_ok e -> replace_at e p new = Some h ->
  bounds_ok h /\ bounds_of h = bounds_of e.
Proof.
  revert e h. induction p as [|d p IH]; intros e h; cbn [get replace_at].
  - intros [= ->] Hb Hnew _ [= <-]. auto.
  - destruct e as [|b o pt l r]; [discriminate|].
    intros Hget Hb Hnew (Hl & Hr & Hokl & Hokr).
    destruct d.
    + destruct (replace_at r p new) as [r'|] eqn:E; [|discriminate].
      intros [= <-]. destruct (IH r r' Hget Hb Hnew Hokr E) as [Hok' Hb'].
      cbn. rewrite Hb'. auto.
    + destruct (replace_at l p new) as [l'|] eqn:E; [|discriminate].
      intros [= <-]. destruct (IH l l' Hget Hb Hnew Hokl E) as [Hok' Hb'].
      cbn. rewrite Hb'. auto.
Qed.

Lemma replace_at_partitions_ok (e : BSPElement) (p : Path)
    (new h : BSPElement) :
  partitions_ok new -> partitions_ok e -> replace_at e p new = Some h ->
  partitions_ok h.
Proof.
  revert e h. induction p as [|d p IH]; intros e h; cbn [replace_at].
  - intros Hnew _ [= <-]. exact Hnew.
  - destruct e as [|b o pt l r]; [discriminate|].
    intros Hnew (Hb & Hl & Hr). destruct d.
    + destruct (replace_at r p new) as [r'|] eqn:E; [|discriminate].
      intros [= <-]. cbn. eauto.
    + destruct (replace_at l p new) as [l'|] eqn:E; [|discriminate].
      intros [= <-]. cbn. eauto.
Qed.

Lemma replace_at_inner_partitions_ok (e : BSPElement) (d : bool) (p : Path)
    (new h : BSPElement) :
  partitions_ok new -> inner_partitions_ok e ->
  replace_at e (d :: p) new = Some h -> inner_partitions_ok h.
Proof.
  cbn [replace_at]. destruct e as [|b o pt l r]; [discriminate|].
  intros Hnew [Hl Hr]. destruct d.
  - destruct (replace_at r p new) as [r'|] eqn:E; [|discriminate].
    intros [= <-]. cbn. split; [exact Hl|].
    exact (replace_at_partitions_ok r p new r' Hnew Hr E).
  - destruct (replace_at l p new) as [l'|] eqn:E; [|discriminate].
    intros [= <-]. cbn. split; [|exact Hr].
    exact (replace_at_partitions_ok l p new l' Hnew Hl E).
Qed.

Lemma replace_at_twice (e : BSPElement) (p : Path) (a b h : BSPElement) :
  replace_at e p a = Some h -> replace_at h p b = replace_at e p b.
Proof.
  revert e h. induction p as [|d p IH]; intros e h; cbn [replace_at].
  - reflexivity.
  - destruct e as [|bd o pt l r]; [discriminate|]. destruct d.
    + destruct (replace_at r p a) as [r'|] eqn:E; [|discriminate].
      intros [= <-]. cbn [replace_at]. now rewrite (IH r r' E).
    + destruct (replace_at l p a) as [l'|] eqn:E; [|discriminate].
      intros [= <-]. cbn [replace_at]. now rewrite (IH l l' E).
Qed.

(** What a successful [divide_leaf] returns, in one equation. *)
Lemma divide_leaf_result (t t' : BSPTree Z) (n n' : Z) (leaf : Path)
    (o : Orientation) (pt : Z) :
  divide_leaf t n leaf o pt = Ok (t', n') ->
  exists e h,
    get (head t) leaf = Some e
    /\ replace_at (head t) leaf
         (BSPNode (bounds_of e) o pt
            (BSPLeaf (fst (child_bounds (bounds_of e) o pt)) true n)
            (BSPLeaf (snd (child_bounds (bounds_of e) o pt)) true (n + 1)))
       = Some h
    /\ t' = set_head t h /\ n' = n + 2
    /\ (leaf <> [] -> strictly_between (bounds_of e) o pt).
Proof.
  unfold divide_leaf.
  destruct (get (head t) leaf) as [e|] eqn:Hget; [|discriminate].
  destruct leaf as [|d leaf].
  - rewrite BSPNode_init_eq. intros [= <- <-].
    eexists e, _. split; [reflexivity|]. split; [reflexivity|].
    split; [reflexivity|]. split; [lia|]. congruence.
  - rewrite BSPNode_init_eq.
    destruct (bounds_of e) as [[[bl bt] br] bb] eqn:Eb.
    destruct (negb _) eqn:E1; [discriminate|].
    destruct (negb (negb (orientation_code o =? orientation_code HORIZ) || _))
      eqn:E2; [discriminate|].
    destruct (replace_at (head t) (d :: leaf) _) as [h|] eqn:Hh;
      [|discriminate].
    intros [= <- <-]. exists e, h. rewrite Eb.
    split; [reflexivity|]. split; [exact Hh|]. split; [reflexivity|].
    split; [lia|]. intros _.
    apply negb_false_iff in E1, E2.
    destruct o; cbn in E1, E2 |- *;
      [apply andb_true_iff in E2 as [H1 H2]
      |apply andb_true_iff in E1 as [H1 H2]];
      apply Z.ltb_lt in H1, H2; lia.
Qed.

(** X2. A successful [divide_leaf] keeps what [leaf_from_coords] and
    [segment_collision] rely on: the bounds of the children follow the
    partitions, the root covers the world, and the partitions below the
    root are strictly inside their bounds. The element at the handle
    becomes a node with the same bounds and two fresh solid leaves
    numbered [n] and [n + 1]; every element that is neither under nor
    above the handle stays as it was. *)
Theorem divide_leaf_keeps_tree_ok (t t' : BSPTree Z) (n n' : Z) (leaf : Path)
    (o : Orientation) (pt : Z) :
  tree_ok t -> inner_partitions_ok (head t) ->
  divide_leaf t n leaf o pt = Ok (t', n') ->
  tree_ok t' /\ inner_partitions_ok (head t')
  /\ n' = n + 2 /\ maxWidth t' = maxWidth t /\ maxHeight t' = maxHeight t
  /\ exists e,
       get (head t) leaf = Some e
       /\ get (head t') leaf
          = Some (BSPNode (bounds_of e) o pt
                    (BSPLeaf (fst (child_bounds (bounds_of e) o pt)) true n)
                    (BSPLeaf (snd (child_bounds (bounds_of e) o pt)) true
                       (n + 1)))
       /\ forall q, (forall k, take k q <> leaf) ->
                    (forall k, take k leaf <> q) ->
                    get (head t') q = get (head t) q.
Proof.
  intros [Hb Hok] Hpart Hdiv.
  apply divide_leaf_result in Hdiv
    as (e & h & Hget & Hh & -> & -> & Hrange).
  destruct (fun Hb0 Hn =>
              replace_at_bounds_ok (head t) leaf _ e h Hget Hb0 Hn Hok Hh)
    as [Hok' Hb']; [reflexivity|cbn; auto|].
  split; [split; cbn [set_head head maxWidth maxHeight]; congruence|].
  split.
  - cbn [set_head head]. destruct leaf as [|d leaf].
    + cbn in Hh. injection Hh as <-. cbn. auto.
    + eapply replace_at_inner_partitions_ok; [|exact Hpart|exact Hh].
      cbn. split; [apply Hrange; discriminate|auto].
  - split; [reflexivity|]. split; [reflexivity|]. split; [reflexivity|].
    exists e. split; [exact Hget|]. cbn [set_head head].
    split; [eapply get_replace_at; exact Hh|].
    intros q Hq Hp. eapply get_replace_at_other; eassumption.
Qed.

(** X3. [merge_leaf] keeps the same three facts, for every handle. *)
Theorem merge_leaf_keeps_tree_ok (t : BSPTree Z) (n : Z) (leaf : Path) :
  tree_ok t -> inner_partitions_ok (head t) ->
  tree_ok (fst (merge_leaf t n leaf))
  /\ inner_partitions_ok (head (fst (merge_leaf t n leaf)))
  /\ maxWidth (fst (merge_leaf t n leaf)) = maxWidth t
  /\ maxHeight (fst (merge_leaf t n leaf)) = maxHeight t
  /\ n <= snd (merge_leaf t n leaf) <= n + 1.
Proof.
  intros [Hb Hok] Hpart. unfold merge_leaf.
  destruct leaf as [|d1 [|d2 leaf]].
  - cbn. repeat split; try assumption; lia.
  - cbn. repeat split; lia.
  - set (parent := removelast (d1 :: d2 :: leaf)).
    assert (Hne : exists d p, parent = d :: p).
    { unfold parent. cbn [removelast]. destruct leaf; eauto. }
    destruct (get (head t) parent) as [P|] eqn:Hget;
      [|cbn; repeat split; try assumption; lia].
    cbn [BSPLeaf_init].
    destruct (replace_at (head t) parent (BSPLeaf (bounds_of P) true n))
      as [h|] eqn:Hh; [|cbn; repeat split; try assumption; lia].
    cbn [fst snd set_head head maxWidth maxHeight].
    destruct (fun Hb0 Hn =>
                replace_at_bounds_ok (head t) parent _ P h Hget Hb0 Hn Hok Hh)
      as [Hok' Hb']; [reflexivity|exact I|].
    split; [split; cbn [set_head head maxWidth maxHeight]; congruence|].
    split.
    + destruct Hne as (d & p & Hp). rewrite Hp in Hh.
      eapply replace_at_inner_partitions_ok; [|exact Hpart|exact Hh].
      exact I.
    + repeat split; lia.
Qed.

(** X4. Dividing a leaf and then merging either of the two new leaves
    puts a leaf with the old bounds back in its place: the tree is the
    one before the division except that this leaf is solid and carries
    the next leaf id. *)
Theorem merge_leaf_after_divide_leaf (t t1 : BSPTree Z) (n n1 : Z)
    (leaf : Path) (o : Orientation) (pt : Z) (b : Bounds) (s : bool) (i : Z)
    (d : bool) :
  tree_ok t ->
  get (head t) leaf = Some (BSPLeaf b s i) ->
  divide_leaf t n leaf o pt = Ok (t1, n1) ->
  exists h,
    replace_at (head t) leaf (BSPLeaf b true n1) = Some h
    /\ merge_leaf t1 n1 (leaf ++ [d]) = (set_head t h, n1 + 1).
Proof.
  intros [Hb Hok] Hleaf Hdiv.
  apply divide_leaf_result in Hdiv
    as (e & h1 & Hget & Hh1 & -> & -> & _).
  rewrite Hleaf in Hget. injection Hget as <-. cbn [bounds_of] in Hh1.
  destruct (replace_at_defined (head t) leaf (BSPLeaf b true (n + 2))
              _ Hleaf) as [h Hh].
  exists h. split; [exact Hh|].
  destruct leaf as [|d1 leaf].
  - cbn in Hleaf, Hh. injection Hh as <-.
    cbn. rewrite <- Hb. injection Hleaf as ->. reflexivity.
  - unfold merge_leaf.
    change ((d1 :: leaf) ++ [d]) with (d1 :: (leaf ++ [d])).
    destruct (leaf ++ [d]) as [|d2 rest] eqn:E.
    { destruct leaf; discriminate E. }
    assert (Hlast : removelast (d1 :: d2 :: rest) = d1 :: leaf).
    { rewrite <- E. apply (removelast_last (d1 :: leaf) d). }
    rewrite Hlast. cbn [set_head head].
    rewrite (get_replace_at _ _ _ _ Hh1). cbn [bounds_of BSPLeaf_init].
    rewrite (replace_at_twice _ _ _ (BSPLeaf b true (n + 2)) _ Hh1), Hh.
    reflexivity.
Qed.

Lemma leaf_from_coords_from_replace_at (p : Path) :
  forall (e new h : BSPElement) (x y : Z) b s i,
    get e p = Some (BSPLeaf b s i) ->
    replace_at e p new = Some h ->
    leaf_from_coords_from h x y
    = if decide (leaf_from_coords_from e x y = p)
      then (p ++ leaf_from_coords_from new x y)%list
      else leaf_from_coords_from e x y.
Proof.
  induction p as [|d p IH]; intros e new h x y b s i; cbn [get replace_at].
  - intros [= ->] [= <-]. reflexivity.
  - destruct e as [|bd o pt l r]; [discriminate|]. intros Hget Hrep.
    assert (Hstep : forall c : bool,
              leaf_from_coords_from (BSPNode bd o pt l r) x y
              = (split_coord o x y >=? pt)
                :: leaf_from_coords_from
                     (if split_coord o x y >=? pt then r else l) x y).
    { intros _. destruct o; cbn; destruct (_ >=? pt); reflexivity. }
    rewrite (Hstep true). clear Hstep.
    destruct d.
    + destruct (replace_at r p new) as [r'|] eqn:E; [|discriminate].
      injection Hrep as <-.
      destruct o; cbn [leaf_from_coords_from split_coord];
        destruct (_ >=? pt) eqn:Ec;
        try (rewrite (IH r new r' x y b s i Hget E));
        repeat case_decide; try congruence; reflexivity.
    + destruct (replace_at l p new) as [l'|] eqn:E; [|discriminate].
      injection Hrep as <-.
      destruct o; cbn [leaf_from_coords_from split_coord];
        destruct (_ >=? pt) eqn:Ec;
        try (rewrite (IH l new l' x y b s i Hget E));
        repeat case_decide; try congruence; reflexivity.
Qed.

(** X5. After a leaf is divided, [leaf_from_coords] sends the points
    that it sent to this leaf to the new left leaf when the coordinate
    on the split axis is below the partition and to the new right leaf
    otherwise, and every other point to the leaf it was sent to
    before. *)
Theorem leaf_from_coords_after_divide_leaf (t t' : BSPTree Z) (n n' : Z)
    (leaf : Path) (o : Orientation) (pt : Z) (b : Bounds) (s : bool) (i : Z)
    (x y : Z) :
  get (head t) leaf = Some (BSPLeaf b s i) ->
  divide_leaf t n leaf o pt = Ok (t', n') ->
  leaf_from_coords t' x y
  = if decide (leaf_from_coords t x y = leaf)
    then (leaf ++ [split_coord o x y >=? pt])%list
    else leaf_from_coords t x y.
Proof.
  intros Hleaf Hdiv.
  apply divide_leaf_result in Hdiv as (e & h & Hget & Hh & -> & _ & _).
  unfold leaf_from_coords. cbn [set_head head].
  rewrite (leaf_from_coords_from_replace_at leaf _ _ _ x y b s i Hleaf Hh).
  case_decide; [|reflexivity].
  f_equal. destruct o; cbn; destruct (_ >=? pt); reflexivity.
Qed.

End EditingFacts.

Section EditingWitnesses.
Import BSP Collision.
Local Open Scope Z_scope.

Lemma divide_leaf_keeps_tree_ok_witness :
  tree_ok divided_tree /\ inner_partitions_ok (head divided_tree)
  /\ 5 = 3 + 2 /\ maxWidth divided_tree = maxWidth split_tree
  /\ maxHeight divided_tree = maxHeight split_tree
  /\ exists e,
       get (head split_tree) [false] = Some e
       /\ get (head divided_tree) [false]
          = Some (BSPNode (bounds_of e) HORIZ 32
                    (BSPLeaf (fst (child_bounds (bounds_of e) HORIZ 32)) true 3)
                    (BSPLeaf (snd (child_bounds (bounds_of e) HORIZ 32)) true
                       (3 + 1)))
       /\ forall q, (forall k, take k q <> [false]) ->
                    (forall k, take k [false] <> q) ->
                    get (head divided_tree) q = get (head split_tree) q.
Proof.
  apply (divide_leaf_keeps_tree_ok split_tree divided_tree 3 5 [false]
           HORIZ 32).
  - exact split_tree_ok.
  - cbn. auto.
  - reflexivity.
Defined.

Lemma merge_leaf_keeps_tree_ok_witness :
  tree_ok (fst (merge_leaf divided_tree 5 [false; true]))
  /\ inner_partitions_ok (head (fst (merge_leaf divided_tree 5 [false; true])))
  /\ maxWidth (fst (merge_leaf divided_tree 5 [false; true]))
     = maxWidth divided_tree
  /\ maxHeight (fst (merge_leaf divided_tree 5 [false; true]))
     = maxHeight divided_tree
  /\ 5 <= snd (merge_leaf divided_tree 5 [false; true]) <= 5 + 1.
Proof.
  apply (merge_leaf_keeps_tree_ok divided_tree 5 [false; true]).
  - repeat split.
  - cbn. lia.
Defined.

Lemma merge_leaf_after_divide_leaf_witness :
  exists h,
    replace_at (head split_tree) [false] (BSPLeaf (0, 0, 64, 64) true 5)
    = Some h
    /\ merge_leaf divided_tree 5 ([false] ++ [true])
       = (set_head split_tree h, 5 + 1).
Proof.
  apply (merge_leaf_after_divide_leaf split_tree divided_tree 3 5 [false]
           HORIZ 32 (0, 0, 64, 64) true 1 true).
  - exact split_tree_ok.
  - reflexivity.
  - reflexivity.
Defined.

Lemma leaf_from_coords_after_divide_leaf_witness :
  leaf_from_coords divided_tree 10 40
  = if decide (leaf_from_coords split_tree 10 40 = [false])
    then ([false] ++ [split_coord HORIZ 10 40 >=? 32])%list
    else leaf_from_coords split_tree 10 40.
Proof.
  apply (leaf_from_coords_after_divide_leaf split_tree divided_tree 3 5
           [false] HORIZ 32 (0, 0, 64, 64) true 1 10 40).
  - reflexivity.
  - reflexivity.
Defined.

End EditingWitnesses.

Section IterationFacts.
Import BSP Portals.

Lemma NoDup_map_cons (d : bool) (l : list Path) :
  NoDup l -> NoDup (map (cons d) l).
Proof.
  intros H. change (map (cons d) l) with (cons d <$> l).
  apply NoDup_fmap_2; [|exact H]. intros p q [= ->]. reflexivity.
Qed.

Lemma map_fst_under (d : bool) (l : list (Path * BSPElement)) :
  map fst (map (fun pe => (d :: fst pe, snd pe)) l) = map (cons d) (map fst l).
Proof. induction l as [|a l IH]; cbn; [reflexivity|]. now rewrite IH. Qed.

Lemma NoDup_elements_from (e : BSPElement) :
  NoDup (map fst (elements_from [] e)).
Proof.
  induction e as [b s i|b o pt l IHl r IHr]; cbn [elements_from app map fst].
  - apply NoDup_singleton.
  - rewrite !elements_from_cons, map_app, !map_fst_under.
    apply NoDup_cons. split.
    + rewrite elem_of_app, !list_elem_of_In, !in_map_iff.
      intros [(p & Hp & _)|(p & Hp & _)]; discriminate Hp.
    + apply NoDup_app. split; [now apply NoDup_map_cons|].
      split; [|now apply NoDup_map_cons].
      intros p. rewrite !list_elem_of_In, !in_map_iff.
      intros (p1 & <- & _) (p2 & Hp2 & _). discriminate Hp2.
Qed.

Lemma count_leaves_nodes (e : BSPElement) :
  forall q,
    length (List.filter (fun pe => is_leaf (snd pe)) (elements_from q e))
    = S (length (List.filter (fun pe => negb (is_leaf (snd pe)))
                   (elements_from q e))).
Proof.
  induction e as [b s i|b o pt l IHl r IHr]; intros q;
    cbn [elements_from List.filter snd is_leaf negb length];
    [reflexivity|].
  rewrite !List.filter_app, !length_app, IHl, IHr. lia.
Qed.

(** X6. [iter_elements] yields the head first and every element of the
    tree exactly once, and a tree has one leaf more than it has
    nodes. *)
Theorem iter_elements_each_once (head : BSPElement) :
  hd_error (iter_elements head) = Some ([], head)
  /\ NoDup (map fst (iter_elements head))
  /\ (forall p e, In (p, e) (iter_elements head) <-> get head p = Some e)
  /\ length (iter_leaves head) = S (length (iter_nodes head)).
Proof.
  split; [|split; [|split]].
  - rewrite iter_elements_structural. destruct head; reflexivity.
  - rewrite iter_elements_structural. apply NoDup_elements_from.
  - intros p e. apply in_iter_elements.
  - unfold iter_leaves, iter_nodes. rewrite iter_elements_structural.
    apply count_leaves_nodes.
Qed.

End IterationFacts.

Section CollisionStartFacts.
Import BSP Collision.
Local Open Scope Q_scope.









End CollisionStartFacts.

Section NeighborFacts.
Import BSP Portals.
Local Open Scope Z_scope.

Lemma opposite_involutive (dir : Direction) : opposite (opposite dir) = dir.
Proof. destruct dir; reflexivity. Qed.

Lemma adjacent_opposite (head : BSPElement) (dir : Direction) (V N : Path) :
  adjacent head dir V N <-> adjacent head (opposite dir) N V.
Proof.
  split; [apply adjacent_sym|].
  intros H. apply adjacent_sym in H. now rewrite opposite_involutive in H.
Qed.

(** X9. Among leaves, the neighbour tests agree from both sides: a leaf
    is a left neighbour of another exactly when the other is a right
    neighbour of it, likewise for top and bottom, and [is_neighbor_of]
    is symmetric. *)
Theorem is_directed_neighbor_of_opposite (head : BSPElement) (dir : Direction)
    (a b : Path) :
  (exists bd s i, get head a = Some (BSPLeaf bd s i)) ->
  (exists bd s i, get head b = Some (BSPLeaf bd s i)) ->
  is_directed_neighbor_of head dir a b
  = is_directed_neighbor_of head (opposite dir) b a
  /\ is_neighbor_of head a b = is_neighbor_of head b a.
Proof.
  intros Ha Hb. unfold is_directed_neighbor_of, is_neighbor_of. split.
  - apply bool_decide_ext. rewrite !list_elem_of_In.
    rewrite (in_iter_directed_neighbors head dir b a Hb).
    rewrite (in_iter_directed_neighbors head (opposite dir) a b Ha).
    apply adjacent_opposite.
  - apply bool_decide_ext. rewrite !list_elem_of_In.
    split; apply iter_neighbors_sym; assumption.
Qed.

Lemma bounds_ok_get (p : Path) :
  forall e x, bounds_ok e -> get e p = Some x -> bounds_ok x.
Proof.
  induction p as [|d p IH]; intros e x Hok; cbn [get].
  - now intros [= <-].
  - destruct e as [|b o pt l r]; [discriminate|].
    destruct Hok as (_ & _ & Hl & Hr). destruct d; eauto.
Qed.

(** Below a node, a path that at the nodes of orientation [o] never
    takes the child [c] keeps the edge on the other side. *)
Lemma avoids_edge (o : Orientation) (c : bool) (vs : Path) :
  forall e x,
    bounds_ok e -> avoids o c e vs -> get e vs = Some x ->
    edge o (negb c) (bounds_of x) = edge o (negb c) (bounds_of e).
Proof.
  induction vs as [|d vs IH]; intros e x Hok; cbn [avoids get].
  - now intros _ [= <-].
  - destruct e as [|b o' pt l r]; [intros []|].
    destruct Hok as (Hl & Hr & Hokl & Hokr). intros [Hd Hav] Hget.
    rewrite (IH _ x (if d as d0 return bounds_ok (if d0 then r else l)
                     then Hokr else Hokl) Hav Hget).
    cbn [bounds_of]. destruct b as [[[bl bt] br] bb].
    destruct d; [rewrite Hr|rewrite Hl];
      destruct o, o', c; cbn; try reflexivity;
      exfalso; now apply Hd.
Qed.

Lemma child_edges (b : Bounds) (o : Orientation) (pt : Z) :
  edge o true (fst (child_bounds b o pt)) = pt
  /\ edge o false (snd (child_bounds b o pt)) = pt.
Proof. destruct b as [[[bl bt] br] bb], o; cbn; auto. Qed.

Lemma shares_edge_edges (dir : Direction) (bN bV : Bounds) :
  edge (dir_orientation dir) (approach_right dir) bN
  = edge (dir_orientation dir) (negb (approach_right dir)) bV ->
  shares_edge dir bN bV.
Proof.
  destruct bN as [[[nl nt] nr] nb], bV as [[[sl st] sr] sb].
  destruct dir; cbn; auto.
Qed.

Lemma adjacent_touch (head : BSPElement) (dir : Direction) (V N : Path) :
  bounds_ok head -> adjacent head dir V N ->
  exists bV sV iV bN sN iN,
    get head V = Some (BSPLeaf bV sV iV)
    /\ get head N = Some (BSPLeaf bN sN iN)
    /\ shares_edge dir bN bV /\ extents_overlap dir bN bV = true.
Proof.
  intros Hok
    (ca & vs & ns & b & pt & l & r & bV & sV & iV & bN & sN & iN
     & -> & -> & Hca & HVs & Hav & HN & HavN & Hov).
  exists bV, sV, iV, bN, sN, iN.
  split; [rewrite get_app, Hca; exact HVs|].
  split; [rewrite get_app, Hca; exact HN|].
  split; [|exact Hov].
  pose proof (bounds_ok_get ca head _ Hok Hca) as (Hl & Hr & Hokl & Hokr).
  destruct (child_edges b (dir_orientation dir) pt) as [Hhi Hlo].
  apply shares_edge_edges.
  destruct (approach_right dir); cbn [negb] in *.
  - pose proof (avoids_edge _ true vs r _ Hokr Hav HVs) as HV.
    pose proof (avoids_edge _ false ns l _ Hokl HavN HN) as HN'.
    cbn [negb bounds_of] in HV, HN'. rewrite HV, HN', Hl, Hr. congruence.
  - pose proof (avoids_edge _ false vs l _ Hokl Hav HVs) as HV.
    pose proof (avoids_edge _ true ns r _ Hokr HavN HN) as HN'.
    cbn [negb bounds_of] in HV, HN'. rewrite HV, HN', Hl, Hr. congruence.
Qed.

(** X10. In a tree whose child bounds follow the partitions, every leaf
    that [_iter_directed_neighbors] yields for a leaf touches it on the
    side of the direction: it is another leaf of the tree, its far edge
    is the near edge of the leaf, and their extents along that edge
    overlap in more than a point. *)
Theorem iter_directed_neighbors_touch (head : BSPElement) (dir : Direction)
    (V N : Path) (bV : Bounds) (sV : bool) (iV : Z) :
  bounds_ok head ->
  get head V = Some (BSPLeaf bV sV iV) ->
  In N (iter_directed_neighbors head V dir) ->
  N <> V
  /\ exists bN sN iN,
       get head N = Some (BSPLeaf bN sN iN)
       /\ shares_edge dir bN bV /\ extents_overlap dir bN bV = true.
Proof.
  intros Hok HV Hin.
  apply in_iter_directed_neighbors in Hin; [|exists bV, sV, iV; exact HV].
  split.
  - intros ->. now apply adjacent_leaves in Hin as [Hne _].
  - destruct (adjacent_touch head dir V N Hok Hin)
      as (bV' & sV' & iV' & bN & sN & iN & HV' & HN & Hedge & Hov).
    rewrite HV in HV'. injection HV' as <- <- <-.
    exists bN, sN, iN. auto.
Qed.

End NeighborFacts.

Section NeighborWitnesses.
Import BSP Portals.
Local Open Scope Z_scope.

Lemma is_directed_neighbor_of_opposite_witness :
  is_directed_neighbor_of open_tree DirL [false] [true]
  = is_directed_neighbor_of open_tree (opposite DirL) [true] [false]
  /\ is_neighbor_of open_tree [false] [true]
     = is_neighbor_of open_tree [true] [false].
Proof.
  apply (is_directed_neighbor_of_opposite open_tree DirL [false] [true]).
  - do 3 eexists. reflexivity.
  - do 3 eexists. reflexivity.
Defined.

Lemma iter_directed_neighbors_touch_witness :
  [false] <> [true]
  /\ exists bN sN iN,
       get open_tree [false] = Some (BSPLeaf bN sN iN)
       /\ shares_edge DirL bN (64, 0, 128, 64)
       /\ extents_overlap DirL bN (64, 0, 128, 64) = true.
Proof.
  apply (iter_directed_neighbors_touch open_tree DirL [true] [false]
           (64, 0, 128, 64) false 1).
  - repeat split.
  - reflexivity.
  - vm_compute. left. reflexivity.
Defined.

End NeighborWitnesses.

Section PortalGeometryFacts.
Import BSP Portals.
Local Open Scope Z_scope.

Lemma directed_in_neighbors (head : BSPElement) (dir : Direction)
    (l1 l2 : Path) :
  is_directed_neighbor_of head dir l1 l2 = true ->
  In l1 (iter_directed_neighbors head l2 dir)
  /\ In l1 (iter_neighbors head l2).
Proof.
  unfold is_directed_neighbor_of. intros H.
  apply bool_decide_eq_true, list_elem_of_In in H. split; [exact H|].
  unfold iter_neighbors. apply in_flat_map. exists dir.
  split; [destruct dir; cbn; tauto|exact H].
Qed.

(** X11. For two leaves of the tree the constructor of a portal succeeds
    exactly when both are visleaves and the first is among the
    neighbours of the second; otherwise it raises [AssertionError]. *)
Theorem BSPPortal_init_succeeds_iff (head : BSPElement) (n : nat)
    (l1 l2 : Path) (b1 b2 : Bounds) (s1 s2 : bool) (i1 i2 : Z) :
  get head l1 = Some (BSPLeaf b1 s1 i1) ->
  get head l2 = Some (BSPLeaf b2 s2 i2) ->
  ((exists portal, BSPPortal_init head n l1 l2 = Ok portal)
   <-> (s1 = false /\ s2 = false /\ In l1 (iter_neighbors head l2)))
  /\ ((s1 = true \/ s2 = true \/ ~ In l1 (iter_neighbors head l2)) ->
      BSPPortal_init head n l1 l2 = Err AssertionError).
Proof.
  intros H1 H2.
  assert (Hfwd : forall r, BSPPortal_init head n l1 l2 = r ->
                 (exists portal, r = Ok portal)
                 /\ s1 = false /\ s2 = false
                 /\ In l1 (iter_neighbors head l2)
                 \/ r = Err AssertionError
                    /\ (s1 = true \/ s2 = true
                        \/ ~ In l1 (iter_neighbors head l2))).
  { intros r <-. unfold BSPPortal_init. rewrite H1, H2.
    destruct s1; [right; auto|]. destruct s2; [right; auto|].
    destruct b1 as [[[x1 t1] r1] m1], b2 as [[[x2 t2] r2] m2].
    destruct (is_directed_neighbor_of head DirL l1 l2) eqn:EL.
    { left. apply directed_in_neighbors in EL as [_ EL]. eauto. }
    destruct (is_directed_neighbor_of head DirT l1 l2) eqn:ET.
    { left. apply directed_in_neighbors in ET as [_ ET]. eauto. }
    destruct (is_directed_neighbor_of head DirR l1 l2) eqn:ER.
    { left. apply directed_in_neighbors in ER as [_ ER]. eauto. }
    destruct (is_directed_neighbor_of head DirB l1 l2) eqn:EB.
    { left. apply directed_in_neighbors in EB as [_ EB]. eauto. }
    right. split; [reflexivity|]. right. right. intros Hin.
    destruct (BSPPortal_init_ok head n l1 l2 _ _ _ _ H1 H2 Hin) as [p Hp].
    unfold BSPPortal_init in Hp. rewrite H1, H2, EL, ET, ER, EB in Hp.
    discriminate Hp. }
  destruct (Hfwd _ eq_refl) as [([p Hp] & Hs1 & Hs2 & Hin)|[Herr Hwhy]].
  - split.
    + split; [auto|]. intros _. eauto.
    + intros [->|[->|Hn]]; try discriminate. contradiction.
  - split.
    + split.
      * intros [p Hp]. rewrite Herr in Hp. discriminate.
      * intros (-> & -> & Hin).
        destruct Hwhy as [?|[?|?]]; try discriminate. contradiction.
    + intros _. exact Herr.
Qed.

End PortalGeometryFacts.

Section PortalShapeFacts.
Import BSP Portals.
Local Open Scope Z_scope.

Lemma BSPPortal_init_direction (head : BSPElement) (n : nat) (l1 l2 : Path)
    (portal : BSPPortal) (x1 t1 r1 m1 x2 t2 r2 m2 : Z) (s1 s2 : bool)
    (i1 i2 : Z) :
  get head l1 = Some (BSPLeaf (x1, t1, r1, m1) s1 i1) ->
  get head l2 = Some (BSPLeaf (x2, t2, r2, m2) s2 i2) ->
  BSPPortal_init head n l1 l2 = Ok portal ->
  exists dir,
    is_directed_neighbor_of head dir l1 l2 = true
    /\ portal
       = match dir with
         | DirL =>
             mkBSPPortal n l1 l2 VERTI (r1, Z.max t1 t2) (r1, Z.min m1 m2)
         | DirT =>
             mkBSPPortal n l1 l2 HORIZ (Z.max x1 x2, m1) (Z.min r1 r2, m1)
         | DirR =>
             mkBSPPortal n l1 l2 VERTI (x1, Z.max t1 t2) (x1, Z.min m1 m2)
         | DirB =>
             mkBSPPortal n l1 l2 HORIZ (Z.max x1 x2, t1) (Z.min r1 r2, t1)
         end.
Proof.
  intros H1 H2. unfold BSPPortal_init. rewrite H1, H2.
  destruct s1; [discriminate|]. destruct s2; [discriminate|].
  destruct (is_directed_neighbor_of head DirL l1 l2) eqn:EL.
  { intros [= <-]. exists DirL. auto. }
  destruct (is_directed_neighbor_of head DirT l1 l2) eqn:ET.
  { intros [= <-]. exists DirT. auto. }
  destruct (is_directed_neighbor_of head DirR l1 l2) eqn:ER.
  { intros [= <-]. exists DirR. auto. }
  destruct (is_directed_neighbor_of head DirB l1 l2) eqn:EB.
  { intros [= <-]. exists DirB. auto. }
  discriminate.
Qed.

(** X12. In a tree whose child bounds follow the partitions, a portal
    that the constructor makes lies on the common edge of its two
    leaves: it is axis-aligned, its fixed coordinate is the edge of the
    first leaf that is also the facing edge of the second, and it spans
    the intersection of the extents of the two leaves, which is longer
    than a point when the two leaves are not empty. *)
Theorem BSPPortal_init_on_shared_edge (head : BSPElement) (n : nat)
    (l1 l2 : Path) (portal : BSPPortal) (x1 t1 r1 m1 x2 t2 r2 m2 : Z)
    (s1 s2 : bool) (i1 i2 : Z) :
  bounds_ok head ->
  get head l1 = Some (BSPLeaf (x1, t1, r1, m1) s1 i1) ->
  get head l2 = Some (BSPLeaf (x2, t2, r2, m2) s2 i2) ->
  BSPPortal_init head n l1 l2 = Ok portal ->
  match portal_orientation portal with
  | VERTI =>
      exists x,
        portal_start portal = (x, Z.max t1 t2)
        /\ portal_end portal = (x, Z.min m1 m2)
        /\ ((x = r1 /\ r1 = x2) \/ (x = x1 /\ x1 = r2))
        /\ (t1 < m1 -> t2 < m2 -> Z.max t1 t2 < Z.min m1 m2)
  | HORIZ =>
      exists y,
        portal_start portal = (Z.max x1 x2, y)
        /\ portal_end portal = (Z.min r1 r2, y)
        /\ ((y = m1 /\ m1 = t2) \/ (y = t1 /\ t1 = m2))
        /\ (x1 < r1 -> x2 < r2 -> Z.max x1 x2 < Z.min r1 r2)
  end.
Proof.
  intros Hok H1 H2 Hinit.
  destruct (BSPPortal_init_direction head n l1 l2 portal _ _ _ _ _ _ _ _
              _ _ _ _ H1 H2 Hinit) as (dir & Hdir & ->).
  apply directed_in_neighbors in Hdir as [Hin _].
  apply in_iter_directed_neighbors in Hin; [|eauto].
  destruct (adjacent_touch head dir l2 l1 Hok Hin)
    as (bV & sV & iV & bN & sN & iN & HV & HN & Hedge & Hov).
  rewrite H1 in HN. injection HN as <- <- <-.
  rewrite H2 in HV. injection HV as <- <- <-.
  destruct dir; cbn in Hedge, Hov |- *;
    apply negb_true_iff, orb_false_iff in Hov as [Ha Hb];
    apply Z.leb_gt in Ha; rewrite Z.geb_leb in Hb; apply Z.leb_gt in Hb.
  - exists r1. repeat split; auto; lia.
  - exists m1. repeat split; auto; lia.
  - exists x1. repeat split; auto; lia.
  - exists t1. repeat split; auto; lia.
Qed.

(** X13. [iter_critical_LOS_points] yields the start of the portal
    first and its end last, and between two and four points in all; for
    a vertical portal whose ends have the same x and whose start is not
    below its end, every yielded point lies on the portal. *)
Theorem iter_critical_LOS_points_on_portal (self other : BSPPortal) :
  hd_error (iter_critical_LOS_points self other) = Some (portal_start self)
  /\ List.last (iter_critical_LOS_points self other) (0, 0) = portal_end self
  /\ (2 <= length (iter_critical_LOS_points self other) <= 4)%nat
  /\ (portal_orientation self = VERTI ->
      fst (portal_start self) = fst (portal_end self) ->
      snd (portal_start self) <= snd (portal_end self) ->
      forall q, In q (iter_critical_LOS_points self other) ->
                fst q = fst (portal_start self)
                /\ snd (portal_start self) <= snd q <= snd (portal_end self)).
Proof.
  unfold iter_critical_LOS_points.
  set (clipped := if orientation_eqb _ _ then _ else _).
  split; [reflexivity|]. split; [|split].
  - change (portal_start self :: clipped ++ [portal_end self])
      with ((portal_start self :: clipped) ++ [portal_end self])%list.
    apply last_last.
  - cbn [length]. rewrite length_app. cbn [length].
    assert (length clipped <= 2)%nat; [|lia].
    unfold clipped. destruct (orientation_eqb _ _); [|cbn; lia].
    destruct (portal_orientation self); rewrite length_app;
      repeat match goal with
             | |- context [if ?c then _ else _] => destruct c
             end; cbn; lia.
  - intros Hv Hx Hy q [<-|Hq]; [lia|].
    apply in_app_or in Hq as [Hq|[<-|[]]]; [|rewrite Hx; lia].
    unfold clipped in Hq. destruct (orientation_eqb _ _); [|destruct Hq].
    rewrite Hv in Hq. apply in_app_or in Hq as [Hq|Hq];
      match type of Hq with
      | In _ (if ?c then _ else _) => destruct c eqn:E; [|destruct Hq]
      end;
      destruct Hq as [<-|[]]; cbn [fst snd];
      apply andb_true_iff in E as [E1 E2]; apply Z.ltb_lt in E1, E2; lia.
Qed.

(** X14. For a horizontal portal made by the constructor the clipping
    of [iter_critical_LOS_points] never yields a point, whatever the
    other portal is: the bounds that it compares with are both the y of
    the portal. *)
Theorem iter_critical_LOS_points_horizontal (head : BSPElement) (n : nat)
    (l1 l2 : Path) (self other : BSPPortal) :
  BSPPortal_init head n l1 l2 = Ok self ->
  portal_orientation self = HORIZ ->
  iter_critical_LOS_points self other = [portal_start self; portal_end self].
Proof.
  intros Hinit Ho.
  assert (Hy : snd (portal_start self) = snd (portal_end self)).
  { unfold BSPPortal_init in Hinit.
    destruct (get head l1) as [[b1 s1 i1|]|]; try discriminate.
    destruct (get head l2) as [[b2 s2 i2|]|]; try discriminate.
    destruct s1; [discriminate|]. destruct s2; [discriminate|].
    destruct b1 as [[[x1 t1] r1] m1], b2 as [[[x2 t2] r2] m2].
    repeat (destruct (is_directed_neighbor_of _ _ _ _);
            [injection Hinit as <-; cbn in Ho |- *;
             (reflexivity || discriminate)|]).
    discriminate. }
  unfold iter_critical_LOS_points. rewrite Ho, Hy.
  destruct (orientation_eqb _ _); [|reflexivity].
  assert (Hnone : forall v, (snd (portal_end self) <? v)
                            && (v <? snd (portal_end self)) = false).
  { intros v. apply andb_false_iff.
    destruct (Z.ltb_spec (snd (portal_end self)) v); [right|left; reflexivity].
    apply Z.ltb_ge. lia. }
  rewrite !Hnone. reflexivity.
Qed.

(** X15. For a portal made by the constructor, [get_other] maps each of
    its two leaves to the other one, the two leaves are different, and
    for any other leaf it raises [AssertionError]. *)
Theorem get_other_swaps (head : BSPElement) (n : nat) (l1 l2 : Path)
    (portal : BSPPortal) :
  BSPPortal_init head n l1 l2 = Ok portal ->
  l1 <> l2
  /\ get_other portal l1 = Ok l2 /\ get_other portal l2 = Ok l1
  /\ forall l, l <> l1 -> l <> l2 -> get_other portal l = Err AssertionError.
Proof.
  intros Hinit.
  destruct (BSPPortal_init_fields head n l1 l2 portal Hinit)
    as (_ & Hl1 & Hl2).
  assert (Hne : l1 <> l2).
  { pose proof Hinit as Hdir. unfold BSPPortal_init in Hinit.
    destruct (get head l1) as [[[[[x1 t1] r1] m1] s1 i1|]|] eqn:H1;
      try discriminate.
    destruct (get head l2) as [[[[[x2 t2] r2] m2] s2 i2|]|] eqn:H2;
      try discriminate.
    apply (BSPPortal_init_direction head n l1 l2 portal _ _ _ _ _ _ _ _
             _ _ _ _ H1 H2) in Hdir as (dir & Hdir & _).
    apply directed_in_neighbors in Hdir as [Hin _].
    apply in_iter_directed_neighbors in Hin; [|eauto].
    apply adjacent_leaves in Hin as [Hne _]. congruence. }
  split; [exact Hne|]. unfold get_other. rewrite Hl1, Hl2.
  split; [now rewrite bool_decide_eq_true_2|]. split.
  - rewrite bool_decide_eq_false_2 by congruence.
    now rewrite bool_decide_eq_true_2.
  - intros l Ha Hb. now rewrite !bool_decide_eq_false_2.
Qed.

End PortalShapeFacts.

Section PortalWitnesses.
Import BSP Portals.
Local Open Scope Z_scope.

Lemma BSPPortal_init_succeeds_iff_witness :
  ((exists portal, BSPPortal_init open_tree 0 [false] [true] = Ok portal)
   <-> (false = false /\ false = false
        /\ In [false] (iter_neighbors open_tree [true])))
  /\ ((false = true \/ false = true
       \/ ~ In [false] (iter_neighbors open_tree [true])) ->
      BSPPortal_init open_tree 0 [false] [true] = Err AssertionError).
Proof.
  apply (BSPPortal_init_succeeds_iff open_tree 0 [false] [true]
           (0, 0, 64, 64) (64, 0, 128, 64) false false 0 1).
  - reflexivity.
  - reflexivity.
Defined.

Lemma BSPPortal_init_on_shared_edge_witness :
  exists x,
    portal_start open_portal = (x, Z.max 0 0)
    /\ portal_end open_portal = (x, Z.min 64 64)
    /\ ((x = 64 /\ 64 = 64) \/ (x = 0 /\ 0 = 128))
    /\ (0 < 64 -> 0 < 64 -> Z.max 0 0 < Z.min 64 64).
Proof.
  apply (BSPPortal_init_on_shared_edge open_tree 0 [false] [true] open_portal
           0 0 64 64 64 0 128 64 false false 0 1).
  - repeat split.
  - reflexivity.
  - reflexivity.
  - reflexivity.
Defined.

Lemma iter_critical_LOS_points_horizontal_witness :
  iter_critical_LOS_points stacked_portal
    (mkBSPPortal 1 [true] [false] HORIZ (10, 32) (60, 32))
  = [portal_start stacked_portal; portal_end stacked_portal].
Proof.
  apply (iter_critical_LOS_points_horizontal stacked_tree 0 [false] [true]).
  - reflexivity.
  - reflexivity.
Defined.

Lemma get_other_swaps_witness :
  [false] <> [true]
  /\ get_other open_portal [false] = Ok [true]
  /\ get_other open_portal [true] = Ok [false]
  /\ forall l, l <> [false] -> l <> [true] ->
               get_other open_portal l = Err AssertionError.
Proof.
  apply (get_other_swaps open_tree 0 [false] [true] open_portal).
  reflexivity.
Defined.

End PortalWitnesses.

Section SerializationFacts.
Import BSP Portals Vdf.
Local Open Scope Z_scope.

Lemma renumber_idempotent (e : BSPElement) :
  forall k, renumber (fst (renumber e k)) k = renumber e k.
Proof.
  induction e as [b s i|b o pt l IHl r IHr]; intros k.
  - cbn. destruct s; reflexivity.
  - cbn [renumber].
    specialize (IHr k). destruct (renumber r k) as [r' k1].
    specialize (IHl k1). destruct (renumber l k1) as [l' k2].
    cbn [fst] in *. cbn [renumber]. rewrite IHr, IHl. reflexivity.
Qed.

Variable VdfText : Type.
Variable format_vdf : KV -> VdfText.
Variable parse_vdf : VdfText -> result KV.

(** X16. Saving is idempotent: [to_vdf] on a tree that [to_vdf] has
    renumbered returns the same text and leaves the tree as it is. *)
Theorem to_vdf_idempotent (t : BSPTree Z) :
  to_vdf VdfText format_vdf (fst (to_vdf VdfText format_vdf t))
  = to_vdf VdfText format_vdf t.
Proof.
  unfold to_vdf. cbn [fst set_head head maxWidth maxHeight].
  rewrite !number_visleaves_renumber, renumber_idempotent. reflexivity.
Qed.

(** X17. Loading data whose dictionary of elements is empty raises
    [IndexError] (at [elements[0]]), whatever else the data holds. *)
Theorem from_vdf_no_elements (n : Z) (data : VdfText)
    (kv bspDict w h : KV) :
  parse_vdf data = Ok kv ->
  kv_get kv "BSP" = Ok bspDict ->
  kv_get bspDict "maxWidth" = Ok w ->
  kv_get bspDict "maxHeight" = Ok h ->
  kv_get bspDict "elements" = Ok (KDict []) ->
  from_vdf VdfText parse_vdf n data = Err IndexError.
Proof.
  intros Hp Hb Hw Hh He. unfold from_vdf, from_kv.
  rewrite Hp. cbn [rbind]. rewrite Hb. cbn [rbind].
  rewrite Hw. cbn [rbind]. rewrite Hh. cbn [rbind].
  rewrite He. reflexivity.
Qed.

End SerializationFacts.

Section SerializationWitnesses.
Import BSP Portals Vdf.
Local Open Scope string_scope.
Local Open Scope Z_scope.

Lemma from_vdf_no_elements_witness :
  from_vdf KV (fun d => Ok d) 0
    (KDict [("BSP", KDict [("maxWidth", KStr "128"); ("maxHeight", KStr "64");
                           ("elements", KDict [])])])
  = Err IndexError.
Proof.
  apply (from_vdf_no_elements KV (fun d => Ok d) 0 _
           (KDict [("BSP", KDict [("maxWidth", KStr "128");
                                  ("maxHeight", KStr "64");
                                  ("elements", KDict [])])])
           (KDict [("maxWidth", KStr "128"); ("maxHeight", KStr "64");
                   ("elements", KDict [])])
           (KStr "128") (KStr "64")); reflexivity.
Defined.

End SerializationWitnesses.

Section AreaFacts.
Import BSP Portals.
Local Open Scope Z_scope.




End AreaFacts.

Section ViewconeFacts.
Import BSP Portals PyNum Vismain.
Local Open Scope Z_scope.

Lemma num_compare_int_swap (z : Z) (v : Num) :
  num_compare (PInt z) v = option_map CompOpp (num_compare v (PInt z)).
Proof.
  destruct v as [x|f]; cbn [num_compare option_map].
  - now rewrite (Z.compare_antisym x z).
  - reflexivity.
Qed.

Lemma num_compare_int_nan (z : Z) (v : Num) :
  num_compare v (PInt z) = None -> is_nan v = true.
Proof.
  destruct v as [x|f]; cbn [num_compare]; [discriminate|].
  destruct f as [s|s| |s m e]; cbn; try discriminate; [reflexivity|].
  destruct (0 <=? e); discriminate.
Qed.

Lemma between_ends (a b : Z) :
  a <= b -> between a b (PInt a) /\ between a b (PInt b).
Proof.
  intros Hab. unfold between, num_ge. cbn [num_compare].
  rewrite !Z.compare_refl.
  destruct (Z.compare_spec b a), (Z.compare_spec a b); auto; lia.
Qed.

(** [min(max(v, a), b)] is a NaN or lies between [a] and [b]. *)
Lemma py_clamp_between (v : Num) (a b : Z) :
  a <= b ->
  is_nan (py_min (py_max v (PInt a)) (PInt b)) = true
  \/ between a b (py_min (py_max v (PInt a)) (PInt b)).
Proof.
  intros Hab. destruct (between_ends a b Hab) as [Ha Hb].
  destruct (is_nan v) eqn:Hnan.
  { left. destruct v as [x|[]]; try discriminate Hnan. reflexivity. }
  destruct (num_compare v (PInt a)) as [ca|] eqn:Ea;
    [|apply num_compare_int_nan in Ea; congruence].
  destruct (num_compare v (PInt b)) as [cb|] eqn:Eb;
    [|apply num_compare_int_nan in Eb; congruence].
  assert (Hv : ca <> Lt -> cb <> Gt -> between a b v).
  { intros Hca Hcb. unfold between, num_ge.
    rewrite Ea, (num_compare_int_swap b v), Eb. cbn [option_map].
    destruct ca, cb; cbn [CompOpp]; auto; congruence. }
  assert (Hmin_a : py_min (PInt a) (PInt b) = PInt a).
  { unfold py_min, num_lt. cbn [num_compare].
    destruct (Z.compare_spec b a); auto; lia. }
  right. unfold py_max, num_gt. rewrite (num_compare_int_swap a v), Ea.
  cbn [option_map].
  destruct ca; cbn [CompOpp]; [|now rewrite Hmin_a|];
    unfold py_min, num_lt; rewrite (num_compare_int_swap b v), Eb;
    cbn [option_map]; destruct cb; cbn [CompOpp]; auto; apply Hv; congruence.
Qed.

Lemma bounded_by_on_portal (portal : BSPPortal) (q : NPoint) :
  fst (portal_start portal) <= fst (portal_end portal) ->
  snd (portal_start portal) <= snd (portal_end portal) ->
  on_portal portal (bounded_by portal q).
Proof.
  intros Hx Hy. unfold on_portal, bounded_by. cbn [fst snd].
  split; now apply py_clamp_between.
Qed.

Lemma ends_on_portal (portal : BSPPortal) :
  fst (portal_start portal) <= fst (portal_end portal) ->
  snd (portal_start portal) <= snd (portal_end portal) ->
  on_portal portal (npoint (portal_start portal))
  /\ on_portal portal (npoint (portal_end portal)).
Proof.
  intros Hx Hy. destruct (between_ends _ _ Hx), (between_ends _ _ Hy).
  unfold on_portal, npoint. cbn [fst snd]. auto.
Qed.

(** A number is on one side of an integer. *)
Lemma num_lt_or_ge (v : Num) (z : Z) :
  is_nan v = false -> num_lt v (PInt z) = false -> num_ge v (PInt z) = true.
Proof.
  intros Hnan. unfold num_lt, num_ge.
  destruct (num_compare v (PInt z)) as [[]|] eqn:E; try easy.
  apply num_compare_int_nan in E. congruence.
Qed.

(** *** The errors of [intersect_line_ray] *)

Lemma py_float_error (a : Num) (e : PyError) :
  py_float a = Err e -> arith_error e.
Proof.
  destruct a as [z|f]; cbn [py_float]; [|discriminate].
  unfold float_of_Z. destruct (binary_normalize _ _ _ _ _); try discriminate.
  intros [= <-]. now right.
Qed.

Lemma binop_error (int_op : Z -> Z -> Z)
    (float_op : spec_float -> spec_float -> spec_float) (a b : Num)
    (e : PyError) :
  binop int_op float_op a b = Err e -> arith_error e.
Proof.
  unfold binop. intros H.
  destruct a as [x|f], b as [y|g]; cbn [py_float rbind] in H;
    try discriminate H;
    match type of H with
    | rbind (float_of_Z ?z) _ = _ =>
        destruct (float_of_Z z) eqn:E; cbn [rbind] in H;
        [discriminate H|injection H as <-; exact (py_float_error (PInt z) _ E)]
    end.
Qed.

Lemma float_div_error (x : spec_float) (b : Num) (e : PyError) :
  float_div x b = Err e -> arith_error e.
Proof.
  unfold float_div. destruct (py_float b) eqn:E; cbn [rbind].
  - destruct (is_zero _); [|discriminate]. intros [= <-]. now left.
  - intros [= <-]. exact (py_float_error _ _ E).
Qed.

Lemma intersect_line_ray_error (lineSeg raySeg : Seg) (e : PyError) :
  intersect_line_ray lineSeg raySeg = Err e -> arith_error e.
Proof.
  destruct lineSeg as [[p1x p1y] lineEnd], raySeg as [[p2x p2y] rayEnd].
  unfold intersect_line_ray, py_sub, py_mul, py_add. cbn [fst snd].
  intros H.
  repeat match type of H with
         | rbind ?m _ = Err _ =>
             let E := fresh "E" in
             destruct m eqn:E; cbn [rbind] in H;
             [|injection H as <-;
               first [ exact (binop_error _ _ _ _ _ E)
                     | exact (py_float_error _ _ E)
                     | exact (float_div_error _ _ _ E)
                     | idtac ]]
         | (if ?c then _ else _) = Err _ => destruct c
         | Ok _ = Err _ => discriminate H
         end.
  all: try discriminate.
  all: repeat match goal with
         | E : (if ?c then _ else _) = Err _ |- _ => destruct c
         | E : Ok _ = Err _ |- _ => discriminate E
         | E : rbind ?m _ = Err _ |- _ =>
             let E' := fresh "E" in
             destruct m eqn:E'; cbn [rbind] in E;
             [|injection E as <-;
               first [ exact (binop_error _ _ _ _ _ E')
                     | exact (py_float_error _ _ E')
                     | exact (float_div_error _ _ _ E') ]]
         end.
Qed.

(** X18. For a portal whose start is not after its end in either
    coordinate and a view cone whose two segments start at numbers:
    when the starts differ, [restrict_viewcone] raises
    [AssertionError]; when they are equal and it returns, the two new
    segments start where the given ones start, and each coordinate of
    their ends lies within the rectangle spanned by the ends of the
    portal or is a NaN; and when it raises, that is the
    [ZeroDivisionError] or the [OverflowError] of the arithmetic of
    [intersect_line_ray]. *)
Theorem restrict_viewcone_ends_on_portal (portal : BSPPortal)
    (viewconeLeft viewconeRight : Seg) :
  fst (portal_start portal) <= fst (portal_end portal) ->
  snd (portal_start portal) <= snd (portal_end portal) ->
  is_nan (fst (fst viewconeLeft)) = false ->
  is_nan (snd (fst viewconeLeft)) = false ->
  is_nan (fst (fst viewconeRight)) = false ->
  is_nan (snd (fst viewconeRight)) = false ->
  if point_eqb (fst viewconeLeft) (fst viewconeRight) then
    match restrict_viewcone portal viewconeLeft viewconeRight with
    | Ok (newLeft, newRight) =>
        fst newLeft = fst viewconeLeft /\ fst newRight = fst viewconeRight
        /\ on_portal portal (snd newLeft) /\ on_portal portal (snd newRight)
    | Err e => arith_error e
    end
  else
    restrict_viewcone portal viewconeLeft viewconeRight = Err AssertionError.
Proof.
  intros Hx Hy Hlx Hly Hrx Hry.
  destruct viewconeLeft as [ls le], viewconeRight as [rs re].
  cbn [fst] in *. unfold restrict_viewcone.
  destruct (point_eqb ls rs); cbn [negb]; [|reflexivity].
  destruct (ends_on_portal portal Hx Hy) as [Hs He].
  pose proof (bounded_by_on_portal portal) as Hb.
  destruct (intersect_line_ray _ (ls, le)) as [il|e] eqn:El; cbn [rbind];
    [|exact (intersect_line_ray_error _ _ _ El)].
  destruct (intersect_line_ray _ (rs, re)) as [ir|e] eqn:Er; cbn [rbind];
    [|exact (intersect_line_ray_error _ _ _ Er)].
  destruct il as [il|], ir as [ir|], (portal_orientation portal);
    repeat match goal with
           | |- context [num_lt ?v (PInt ?z)] =>
               let E := fresh "E" in
               destruct (num_lt v (PInt z)) eqn:E;
               [|first [ rewrite (num_lt_or_ge v z Hlx E)
                       | rewrite (num_lt_or_ge v z Hly E)
                       | rewrite (num_lt_or_ge v z Hrx E)
                       | rewrite (num_lt_or_ge v z Hry E) ]]
           end;
    cbn [fst snd]; auto 6.
Qed.

End ViewconeFacts.

Section ViewconeWitnesses.
Import BSP Portals PyNum Vismain.
Local Open Scope Z_scope.

Lemma restrict_viewcone_ends_on_portal_witness :
  if point_eqb (fst ((PInt 10, PInt 10), (PInt 20, PInt 5)))
       (fst ((PInt 10, PInt 10), (PInt 20, PInt 30)))
  then
    match
      restrict_viewcone open_portal
        ((PInt 10, PInt 10), (PInt 20, PInt 5))
        ((PInt 10, PInt 10), (PInt 20, PInt 30))
    with
    | Ok (newLeft, newRight) =>
        fst newLeft = fst ((PInt 10, PInt 10), (PInt 20, PInt 5))
        /\ fst newRight = fst ((PInt 10, PInt 10), (PInt 20, PInt 30))
        /\ on_portal open_portal (snd newLeft)
        /\ on_portal open_portal (snd newRight)
    | Err e => arith_error e
    end
  else
    restrict_viewcone open_portal
      ((PInt 10, PInt 10), (PInt 20, PInt 5))
      ((PInt 10, PInt 10), (PInt 20, PInt 30))
    = Err AssertionError.
Proof.
  apply (restrict_viewcone_ends_on_portal open_portal
           ((PInt 10, PInt 10), (PInt 20, PInt 5))
           ((PInt 10, PInt 10), (PInt 20, PInt 30))); cbn; (lia || reflexivity).
Defined.

(** A ray of length zero before a horizontal portal: the rays are not
    taken as parallel, and the division by zero is reported. *)
Lemma restrict_viewcone_zero_ray :
  restrict_viewcone stacked_portal
    ((PInt 5, PInt 5), (PInt 5, PInt 5)) ((PInt 5, PInt 5), (PInt 5, PInt 5))
  = Err ZeroDivisionError.
Proof. reflexivity. Qed.

End ViewconeWitnesses.

Section VectorFacts.
Import Vismain.
Local Open Scope Z_scope.

Lemma sign_opp (n : Z) : sign (- n) = - sign n.
Proof.
  unfold sign.
  destruct (Z.gtb_spec n 0), (Z.ltb_spec n 0), (Z.gtb_spec (- n) 0),
    (Z.ltb_spec (- n) 0); lia.
Qed.

(** X19. On integer points: the vector of [normal_from_lineseg] is
    perpendicular to the segment; it does not change when both ends are
    rebased; and the side test [sign (dot normal (p - start))] of a
    point flips when the segment is reversed. *)
Theorem normal_from_lineseg_side_test (a b c p : Z * Z) :
  dot (normal_from_lineseg (a, b)) (new_coord_rebaser a b) = 0
  /\ normal_from_lineseg (new_coord_rebaser c a, new_coord_rebaser c b)
     = normal_from_lineseg (a, b)
  /\ sign (dot (normal_from_lineseg (b, a)) (new_coord_rebaser b p))
     = - sign (dot (normal_from_lineseg (a, b)) (new_coord_rebaser a p)).
Proof.
  destruct a as [ax ay], b as [bx by_], c as [cx cy], p as [px py].
  unfold dot, normal_from_lineseg, new_coord_rebaser. cbn [fst snd].
  split; [ring|]. split; [f_equal; ring|].
  rewrite <- sign_opp. f_equal. ring.
Qed.

End VectorFacts.

Section GridFacts.
Import Lumberjack.
Local Open Scope Z_scope.

Lemma round_quotient_near (x : Z) :
  - 16 <= round_quotient x 32 * 32 - x <= 16.
Proof.
  unfold round_quotient. destruct (Z.leb_spec 0 x).
  - pose proof (Z.div_mod (2 * x + 32) (2 * 32) ltac:(lia)).
    pose proof (Z.mod_pos_bound (2 * x + 32) (2 * 32) ltac:(lia)). lia.
  - pose proof (Z.div_mod (2 * - x + 32) (2 * 32) ltac:(lia)).
    pose proof (Z.mod_pos_bound (2 * - x + 32) (2 * 32) ltac:(lia)). lia.
Qed.

Lemma round_quotient_multiple (k : Z) : round_quotient (k * 32) 32 = k.
Proof.
  unfold round_quotient. destruct (Z.leb_spec 0 (k * 32)).
  - replace (2 * (k * 32) + 32) with (32 + k * (2 * 32)) by ring.
    rewrite Z.div_add by lia. reflexivity.
  - replace (2 * - (k * 32) + 32) with (32 + (- k) * (2 * 32)) by ring.
    rewrite Z.div_add by lia. change (32 / (2 * 32)) with 0. lia.
Qed.

Lemma float_of_int_exact (x : Z) :
  Z.abs x <= 2 ^ 53 -> float_of_int x = Ok x.
Proof.
  intros Hx. unfold float_of_int. destruct (Z.ltb_spec (Z.abs x) (2 ^ 53));
    [reflexivity|].
  assert (Z.abs x = 2 ^ 53) as Habs by lia.
  destruct (Z.abs_eq_or_opp x) as [E|E]; rewrite E in Habs.
  - rewrite Habs. reflexivity.
  - assert (x = - 2 ^ 53) as -> by lia. reflexivity.
Qed.

Lemma snap_exact (x : Z) :
  Z.abs x <= 2 ^ 53 ->
  snap x = Ok (round_quotient x 32 * 32).
Proof.
  intros Hx. unfold snap. rewrite (float_of_int_exact x Hx). cbn [rbind].
  unfold BLOCK_SIZE. pose proof (round_quotient_near x).
  assert (2 ^ 53 + 16 < 2 ^ 1024) by (vm_compute; reflexivity).
  destruct (Z.ltb_spec (Z.abs (round_quotient x 32 * 32)) (2 ^ 1024));
    [reflexivity|lia].
Qed.

(** X20. For coordinates below 2^53 in absolute value, where [float] is
    exact, [snap_to_grid] returns a point of the grid (both coordinates
    are multiples of [BLOCK_SIZE]) at a distance of at most half a block
    from the given point in each coordinate, and it leaves that point of
    the grid where it is. *)
Theorem snap_to_grid_nearest (x y : Z) :
  Z.abs x < 2 ^ 53 ->
  Z.abs y < 2 ^ 53 ->
  exists i j,
    snap_to_grid x y = Ok (i * BLOCK_SIZE, j * BLOCK_SIZE)
    /\ Z.abs (i * BLOCK_SIZE - x) <= 16
    /\ Z.abs (j * BLOCK_SIZE - y) <= 16
    /\ snap_to_grid (i * BLOCK_SIZE) (j * BLOCK_SIZE)
       = Ok (i * BLOCK_SIZE, j * BLOCK_SIZE).
Proof.
  intros Hx Hy. exists (round_quotient x 32), (round_quotient y 32).
  pose proof (round_quotient_near x) as Hnx.
  pose proof (round_quotient_near y) as Hny.
  assert (Hgrid : forall k, Z.abs (k * 32) < 2 ^ 53 + 32 ->
                            Z.abs (k * 32) <= 2 ^ 53).
  { intros k Hk. change (2 ^ 53) with (281474976710656 * 32) in *. lia. }
  unfold snap_to_grid, BLOCK_SIZE.
  rewrite (snap_exact x), (snap_exact y) by lia. cbn [rbind].
  rewrite !snap_exact by (apply Hgrid; lia). cbn [rbind].
  rewrite !round_quotient_multiple.
  split; [reflexivity|]. split; [lia|]. split; [lia|reflexivity].
Qed.

Lemma snap_to_grid_nearest_witness :
  exists i j,
    snap_to_grid 50 (-17) = Ok (i * BLOCK_SIZE, j * BLOCK_SIZE)
    /\ Z.abs (i * BLOCK_SIZE - 50) <= 16
    /\ Z.abs (j * BLOCK_SIZE - -17) <= 16
    /\ snap_to_grid (i * BLOCK_SIZE) (j * BLOCK_SIZE)
       = Ok (i * BLOCK_SIZE, j * BLOCK_SIZE).
Proof.
  apply (snap_to_grid_nearest 50 (-17)); reflexivity.
Defined.

End GridFacts.

Section LoadPortalsFacts.
Import BSP Portals.

Lemma cleared_lookup (vs : list Path) (m : gmap Path (gset BSPPortal))
    (l : Path) (p : BSPPortal) :
  p ∈ default ∅ (fold_left (fun m v => <[v := ∅]> m) vs m !! l)
  <-> ~ In l vs /\ p ∈ default ∅ (m !! l).
Proof.
  revert m. induction vs as [|v vs IH]; intros m; cbn [fold_left In].
  - tauto.
  - rewrite IH. destruct (decide (l = v)) as [->|Hne].
    + rewrite lookup_insert_eq. cbn [default].
      rewrite elem_of_empty. tauto.
    + rewrite lookup_insert_ne by congruence.
      split; [intros [H1 H2]; split; [intros [?|?]; [congruence|tauto]|exact H2]
             |tauto].
Qed.

Lemma loaded_lookup (ps : list BSPPortal) :
  forall (m : gmap Path (gset BSPPortal)) (l : Path) (p : BSPPortal),
    p ∈ default ∅
          (fold_left
             (fun m portal =>
                add_leaf_portal (leaf2 portal) portal
                  (add_leaf_portal (leaf1 portal) portal m)) ps m !! l)
    <-> p ∈ default ∅ (m !! l)
        \/ (In p ps /\ (l = leaf1 p \/ l = leaf2 p)).
Proof.
  induction ps as [|q ps IH]; intros m l p; cbn [fold_left In].
  - tauto.
  - rewrite IH, !elem_portals_in_add. split.
    + intros [[[-> ->]|[[-> ->]|H]]|[H1 H2]]; auto.
    + intros [H|[[<-|H1] H2]]; auto. destruct H2 as [->| ->]; auto.
Qed.

(** X21. After [load_portals] the portals of the tree are the loaded
    ones; the set of a visleaf holds exactly the loaded portals that
    have it as [leaf1] or [leaf2]; the set of any other leaf is not
    cleared: it keeps what it held and gains the loaded portals that
    name it. *)
Theorem load_portals_spec (head : BSPElement) (portalDict : list BSPPortal)
    (st : PortalStore) (l : Path) (p : BSPPortal) :
  (p ∈ tree_portals (load_portals head portalDict st) <-> In p portalDict)
  /\ (p ∈ portals_of (load_portals head portalDict st) l
      <-> (In p portalDict /\ (l = leaf1 p \/ l = leaf2 p))
          \/ (~ In l (map fst (iter_visleaves head)) /\ p ∈ portals_of st l)).
Proof.
  unfold load_portals, portals_of.
  cbn [tree_portals leaf_portals]. split.
  - rewrite elem_of_list_to_set. apply list_elem_of_In.
  - rewrite loaded_lookup, cleared_lookup. tauto.
Qed.

End LoadPortalsFacts.

Section FloodReachFacts.
Import BSP Portals Flood.

Variables Viewcone Surface : Type.
Variable portal_within_viewcone : BSPPortal -> Viewcone -> result bool.
Variable restrict_viewcone : BSPPortal -> Viewcone -> result Viewcone.
Variable new_shroudmap : Path -> Surface.
Variable fill_surface_within_viewcone :
  Surface -> Path -> Viewcone -> result Surface.
Variable initial_viewcone : Z * Z -> Z * Z -> Viewcone.
Variable iter_set : gset BSPPortal -> list BSPPortal.
Variable ps : PortalStore.
Variable player : Path.

Let State := FloodState Viewcone Surface.
Let rinv := reach_inv Viewcone Surface player.
Let reach := reached Viewcone Surface player.

Lemma reached_mono (st st' : State) (l : Path) :
  alreadyProcessedPortals _ _ st ⊆ alreadyProcessedPortals _ _ st' ->
  reach st l -> reach st' l.
Proof.
  intros Hsub [->|(p & Hp & Hl)]; [now left|].
  right. exists p. split; [now apply Hsub|exact Hl].
Qed.

Lemma flood_portal_reach (visleaf : Path) (viewcone : Viewcone) (st : State)
    (portal : BSPPortal) :
  rinv st -> is_Some (shroudmapDict _ _ st !! player) ->
  let st' := fst (flood_portal Viewcone Surface portal_within_viewcone
                    restrict_viewcone visleaf viewcone st portal) in
  rinv st' /\ is_Some (shroudmapDict _ _ st' !! player).
Proof.
  intros [Hmaps Hstack Hplayer] Hdom. unfold flood_portal.
  destruct (portal_within_viewcone portal viewcone) as [within|e];
    [|cbn; split; [constructor|]; assumption].
  destruct (within && negb (bool_decide (portal ∈ _)));
    [|cbn; split; [constructor|]; assumption].
  set (st1 := mkFloodState _ _ _ _ _ _).
  assert (Hsub : alreadyProcessedPortals _ _ st
                 ⊆ alreadyProcessedPortals _ _ st1).
  { unfold st1. cbn. set_solver. }
  assert (Hinv1 : rinv st1).
  { constructor.
    - intros l Hl. apply (reached_mono st); [exact Hsub|]. now apply Hmaps.
    - intros l vc Hl. apply (reached_mono st); [exact Hsub|].
      now apply (Hstack l vc).
    - now left. }
  destruct (restrict_viewcone portal viewcone) as [newViewcone|e];
    [|cbn [fst]; split; [exact Hinv1|exact Hdom]].
  unfold get_other.
  destruct (bool_decide (visleaf = leaf1 portal));
    [|destruct (bool_decide (visleaf = leaf2 portal));
      [|cbn [fst]; split; [exact Hinv1|exact Hdom]]].
  - cbn [fst]. split; [|exact Hdom]. destruct Hinv1 as [Hm1 Hs1 _].
    constructor; cbn [shroudmapDict alreadyProcessedPortals visleafStack].
    + exact Hm1.
    + intros l vc [[= <- <-]|Hin]; [|now apply (Hs1 l vc)].
      right. exists portal. split; [set_solver|now right].
    + now left.
  - cbn [fst]. split; [|exact Hdom]. destruct Hinv1 as [Hm1 Hs1 _].
    constructor; cbn [shroudmapDict alreadyProcessedPortals visleafStack].
    + exact Hm1.
    + intros l vc [[= <- <-]|Hin]; [|now apply (Hs1 l vc)].
      right. exists portal. split; [set_solver|now left].
    + now left.
Qed.

Lemma for_each_portal_reach (visleaf : Path) (viewcone : Viewcone)
    (portals : list BSPPortal) :
  forall st : State,
    rinv st -> is_Some (shroudmapDict _ _ st !! player) ->
    let st' := fst (for_each_portal Viewcone Surface portal_within_viewcone
                      restrict_viewcone visleaf viewcone portals st) in
    rinv st' /\ is_Some (shroudmapDict _ _ st' !! player).
Proof.
  induction portals as [|portal rest IH]; intros st Hinv Hdom;
    cbn [for_each_portal]; [cbn; auto|].
  pose proof (flood_portal_reach visleaf viewcone st portal Hinv Hdom)
    as [Hinv' Hdom'].
  destruct (flood_portal _ _ _ _ visleaf viewcone st portal) as [st1 [e|]];
    cbn [fst] in *; [auto|]. now apply IH.
Qed.

Lemma flood_iteration_reach (visleaf : Path) (viewcone : Viewcone)
    (rest : list (Path * Viewcone)) (st : State) :
  rinv st -> visleafStack _ _ st = (visleaf, viewcone) :: rest ->
  let st' := fst (flood_iteration Viewcone Surface portal_within_viewcone
                    restrict_viewcone new_shroudmap
                    fill_surface_within_viewcone iter_set ps visleaf viewcone
                    rest st) in
  rinv st' /\ is_Some (shroudmapDict _ _ st' !! player).
Proof.
  intros [Hmaps Hstack Hplayer] Htop. unfold flood_iteration.
  set (shroudmap := match shroudmapDict _ _ st !! visleaf with
                    | Some s => s | None => new_shroudmap visleaf end).
  assert (Hvis : reach st visleaf).
  { apply (Hstack visleaf viewcone). rewrite Htop. now left. }
  assert (Hp : forall s : Surface,
             is_Some (<[visleaf := s]> (shroudmapDict _ _ st) !! player)).
  { intros s. apply lookup_insert_is_Some.
    destruct (decide (visleaf = player)) as [?|Hne]; [now left|right].
    split; [exact Hne|].
    destruct Hplayer as [?|(vc & r & Hs)]; [assumption|].
    rewrite Htop in Hs. congruence. }
  assert (Hinv1 : forall s : Surface,
             rinv (mkFloodState _ _ (<[visleaf := s]> (shroudmapDict _ _ st))
                     (alreadyProcessedPortals _ _ st) rest
                     (traversed _ _ st))).
  { intros s. constructor;
      cbn [shroudmapDict alreadyProcessedPortals visleafStack].
    - intros l Hl. apply lookup_insert_is_Some in Hl as [<-|[_ Hl]];
        [exact Hvis|now apply Hmaps].
    - intros l vc Hl. apply (Hstack l vc). rewrite Htop. now right.
    - left. apply Hp. }
  destruct (fill_surface_within_viewcone shroudmap visleaf viewcone)
    as [filled|e]; cbn [fst].
  - cbn [shroudmapDict alreadyProcessedPortals visleafStack traversed].
    rewrite insert_insert_eq.
    apply for_each_portal_reach; [apply Hinv1|apply Hp].
  - split; [apply Hinv1|apply Hp].
Qed.

Lemma flood_loop_reach (fuel : nat) :
  forall (st st' : State) (err : option PyError),
    rinv st ->
    flood_loop Viewcone Surface portal_within_viewcone restrict_viewcone
      new_shroudmap fill_surface_within_viewcone iter_set ps fuel st
    = Some (st', err) ->
    rinv st'
    /\ (visleafStack _ _ st <> [] -> is_Some (shroudmapDict _ _ st' !! player)).
Proof.
  induction fuel as [|fuel IH]; intros st st' err Hinv; cbn [flood_loop].
  - destruct (visleafStack _ _ st) as [|[visleaf viewcone] rest];
      [|discriminate].
    intros [= <- _]. split; [exact Hinv|congruence].
  - destruct (visleafStack _ _ st) as [|[visleaf viewcone] rest] eqn:Htop.
    { intros [= <- _]. split; [exact Hinv|congruence]. }
    pose proof (flood_iteration_reach visleaf viewcone rest st Hinv Htop)
      as [Hinv1 Hdom1].
    destruct (flood_iteration _ _ _ _ _ _ _ ps visleaf viewcone rest st)
      as [st1 [e|]]; cbn [fst] in *.
    + intros [= <- _]. auto.
    + intros Hloop. destruct (IH st1 st' err Hinv1 Hloop) as [Hinv' Hdom'].
      split; [exact Hinv'|]. intros _.
      destruct (visleafStack _ _ st1) eqn:Hs1; [|apply Hdom'; congruence].
      destruct fuel; cbn [flood_loop] in Hloop; rewrite Hs1 in Hloop;
        injection Hloop as <- _; exact Hdom1.
Qed.

(** X22. When [build_shroud] returns (or a helper raises), the leaf of
    the viewer has a shroudmap, and every leaf with a shroudmap is the
    leaf of the viewer or a leaf of a portal that was processed: only
    leaves reached through portals are drawn. *)
Theorem build_shroud_shrouds_reached_leaves (t : BSPTree Z) (fuel : nat)
    (viewPos viewTarget : Z * Z) (st' : State) (err : option PyError) :
  player = leaf_from_coords t (fst viewPos) (snd viewPos) ->
  build_shroud Viewcone Surface portal_within_viewcone restrict_viewcone
    new_shroudmap fill_surface_within_viewcone initial_viewcone iter_set
    t ps fuel viewPos viewTarget = Some (st', err) ->
  is_Some (shroudmapDict _ _ st' !! player)
  /\ forall l, is_Some (shroudmapDict _ _ st' !! l) ->
               l = player
               \/ exists p, p ∈ alreadyProcessedPortals _ _ st'
                            /\ (l = leaf1 p \/ l = leaf2 p).
Proof.
  intros Hplayer Hrun. unfold build_shroud, build_shroud_start in Hrun.
  rewrite <- Hplayer in Hrun.
  apply flood_loop_reach in Hrun as [[Hmaps _ _] Hdom].
  - split; [apply Hdom; discriminate|exact Hmaps].
  - constructor; cbn.
    + intros l Hl. rewrite lookup_empty in Hl. now destruct Hl.
    + intros l vc [[= <- _]|[]]. now left.
    + right. eauto.
Qed.

End FloodReachFacts.

Section FloodReachWitness.
Import BSP Portals Flood.
Local Open Scope Z_scope.

Lemma build_shroud_shrouds_reached_leaves_witness :
  is_Some (shroudmapDict unit unit
             (mkFloodState unit unit
                (<[ [true] := tt ]> (<[ [false] := tt ]> ∅))
                {[open_portal]} [] [open_portal]) !! [false])
  /\ forall l,
       is_Some (shroudmapDict unit unit
                  (mkFloodState unit unit
                     (<[ [true] := tt ]> (<[ [false] := tt ]> ∅))
                     {[open_portal]} [] [open_portal]) !! l) ->
       l = [false]
       \/ exists p,
            p ∈ alreadyProcessedPortals unit unit
                  (mkFloodState unit unit
                     (<[ [true] := tt ]> (<[ [false] := tt ]> ∅))
                     {[open_portal]} [] [open_portal])
            /\ (l = leaf1 p \/ l = leaf2 p).
Proof.
  apply (build_shroud_shrouds_reached_leaves unit unit (fun _ _ => Ok true)
           (fun _ c => Ok c) (fun _ => tt) (fun s _ _ => Ok s)
           (fun _ _ => tt) elements open_store [false] open_world 2%nat
           (10, 32) (120, 32) _ None).
  - reflexivity.
  - reflexivity.
Defined.

End FloodReachWitness.

Section VisibilityFacts.
Import BSP Portals Vdf Visibility.
Local Open Scope Z_scope.

Lemma py_getitem_in_range {A : Type} (l : list A) (i : Z) :
  0 <= i < Z.of_nat (length l) ->
  exists x, py_getitem l i = Ok x /\ nth_error l (Z.to_nat i) = Some x.
Proof.
  intros Hi. unfold py_getitem. rewrite (py_index_in_range l i Hi).
  cbn [rbind].
  destruct (nth_error l (Z.to_nat i)) as [x|] eqn:E; [eauto|].
  apply nth_error_None in E. lia.
Qed.

Lemma pvs_cleared_lookup (vs : list (Path * BSPElement))
    (m : gmap Path (gset Path)) (k l : Path) :
  l ∈ pvs_of (fold_left (fun m v => <[fst v := ∅]> m) vs m) k
  <-> ~ In k (map fst vs) /\ l ∈ pvs_of m k.
Proof.
  unfold pvs_of. revert m.
  induction vs as [|v vs IH]; intros m; cbn [fold_left map In].
  - tauto.
  - rewrite IH. destruct (decide (k = fst v)) as [->|Hne].
    + rewrite lookup_insert_eq. cbn [default]. rewrite elem_of_empty. tauto.
    + rewrite lookup_insert_ne by congruence.
      split; [intros [H1 H2]; split; [intros [?|?]; [congruence|tauto]|exact H2]
             |tauto].
Qed.

Lemma pvs_of_insert (m : gmap Path (gset Path)) (k1 k : Path)
    (s : gset Path) :
  pvs_of (<[k1 := s]> m) k = if decide (k = k1) then s else pvs_of m k.
Proof.
  unfold pvs_of. case_decide as Hk.
  - subst k. now rewrite lookup_insert_eq.
  - now rewrite lookup_insert_ne by congruence.
Qed.

Lemma load_visibility_entries (visMatrix : list (list bool))
    (xs : list ((Path * BSPElement) * (Path * BSPElement))) :
  (forall a b, In (a, b) xs ->
     0 <= leafID_of (snd a) < Z.of_nat (length visMatrix)
     /\ forall row, In row visMatrix ->
          0 <= leafID_of (snd b) < Z.of_nat (length row)) ->
  forall m,
  exists m',
    for_each (load_visibility_entry visMatrix) xs m = Ok m'
    /\ forall k l,
         l ∈ pvs_of m' k
         <-> l ∈ pvs_of m k
             \/ exists e1 e2,
                  In ((k, e1), (l, e2)) xs /\ visible visMatrix e1 e2.
Proof.
  induction xs as [|[[k1 e1] [l1 e2]] xs IH]; intros Hfit m.
  - exists m. split; [reflexivity|]. intros k l. split; [auto|].
    intros [H|(? & ? & [] & _)]. exact H.
  - destruct (Hfit _ _ (or_introl eq_refl)) as [H1 H2]. cbn [snd] in H1, H2.
    destruct (py_getitem_in_range visMatrix _ H1) as (row & Hrow & Hnrow).
    pose proof (nth_error_In _ _ Hnrow) as Hin.
    destruct (py_getitem_in_range row _ (H2 row Hin))
      as (entry & Hentry & Hnentry).
    cbn [for_each load_visibility_entry fst snd].
    rewrite Hrow. cbn [rbind]. rewrite Hentry. cbn [rbind].
    assert (Hvis : visible visMatrix e1 e2 <-> entry = true).
    { unfold visible. split.
      - intros (row' & Hr' & He'). congruence.
      - intros ->. eauto. }
    destruct entry; cbn [rbind].
    + destruct (IH (fun a b H => Hfit a b (or_intror H))
                  (<[k1 := {[l1]} ∪ pvs_of m k1]> m)) as (m' & Hrun & Hm').
      exists m'. split; [exact Hrun|]. intros k l.
      rewrite Hm', pvs_of_insert. destruct (decide (k = k1)) as [->|Hne].
      * rewrite elem_of_union, elem_of_singleton. split.
        -- intros [[->|H]|(a & b & H & Hv)]; [right|now left|right].
           ++ exists e1, e2. split; [now left|now apply Hvis].
           ++ exists a, b. split; [now right|exact Hv].
        -- intros [H|(a & b & [[= <- <- <-]|H] & Hv)]; [now left; right| |].
           ++ now left; left.
           ++ right. eauto.
      * split.
        -- intros [H|(a & b & H & Hv)]; [now left|right].
           exists a, b. split; [now right|exact Hv].
        -- intros [H|(a & b & [[= -> _ _ _]|H] & Hv)];
             [now left|congruence|right; eauto].
    + destruct (IH (fun a b H => Hfit a b (or_intror H)) m)
        as (m' & Hrun & Hm').
      exists m'. split; [exact Hrun|]. intros k l. rewrite Hm'. split.
      * intros [H|(a & b & H & Hv)]; [now left|right].
        exists a, b. split; [now right|exact Hv].
      * intros [H|(a & b & [[= <- <- <- <-]|H] & Hv)];
          [now left| |right; eauto].
        apply Hvis in Hv. discriminate.
Qed.

(** X24. When the leaf ids of the visleaves index a square matrix,
    [load_visibility_matrix] returns, and afterwards the [pvs] of a
    visleaf holds exactly the visleaves for which the entry of the
    matrix at the two leaf ids is true; the [pvs] of any other leaf is
    left as it was. *)
Theorem load_visibility_matrix_spec (head : BSPElement)
    (visMatrix : list (list bool)) (pvs : gmap Path (gset Path)) :
  matrix_fits head visMatrix ->
  exists pvs',
    load_visibility_matrix head visMatrix pvs = Ok pvs'
    /\ forall k l,
         l ∈ pvs_of pvs' k
         <-> (exists e1 e2,
                In (k, e1) (iter_visleaves head)
                /\ In (l, e2) (iter_visleaves head)
                /\ visible visMatrix e1 e2)
             \/ (~ In k (map fst (iter_visleaves head)) /\ l ∈ pvs_of pvs k).
Proof.
  intros [Hids Hrows]. unfold load_visibility_matrix.
  destruct (load_visibility_entries visMatrix
              (list_prod (iter_visleaves head) (iter_visleaves head)))
    with (m := fold_left (fun m v => <[fst v := ∅]> m) (iter_visleaves head)
                 pvs) as (pvs' & Hrun & Hpvs).
  - intros a b Hab. apply in_prod_iff in Hab as [Ha Hb].
    split; [now apply Hids|]. intros row Hrow.
    rewrite (Hrows row Hrow). now apply Hids.
  - exists pvs'. split; [exact Hrun|]. intros k l.
    rewrite Hpvs, pvs_cleared_lookup. split.
    + intros [H|(e1 & e2 & Hin & Hv)]; [now right|left].
      apply in_prod_iff in Hin as [Ha Hb]. eauto.
    + intros [(e1 & e2 & Ha & Hb & Hv)|H]; [right|now left].
      exists e1, e2. split; [|exact Hv]. apply in_prod_iff. auto.
Qed.

Lemma load_visibility_matrix_spec_witness :
  exists pvs',
    load_visibility_matrix open_tree [[true; false]; [true; true]] ∅
    = Ok pvs'
    /\ forall k l,
         l ∈ pvs_of pvs' k
         <-> (exists e1 e2,
                In (k, e1) (iter_visleaves open_tree)
                /\ In (l, e2) (iter_visleaves open_tree)
                /\ visible [[true; false]; [true; true]] e1 e2)
             \/ (~ In k (map fst (iter_visleaves open_tree))
                 /\ l ∈ pvs_of ∅ k).
Proof.
  apply (load_visibility_matrix_spec open_tree [[true; false]; [true; true]]).
  split.
  - intros pe [<-|[<-|[]]]; cbn; lia.
  - intros row [<-|[<-|[]]]; reflexivity.
Defined.

End VisibilityFacts.

Section GeneratedPortalFacts.
Import BSP Portals.

Lemma for_each_inv {A S : Type} (body : S -> A -> result S) (Q : S -> Prop)
    (xs : list A) :
  (forall s x s', Q s -> body s x = Ok s' -> Q s') ->
  forall s s', Q s -> for_each body xs s = Ok s' -> Q s'.
Proof.
  intros Hbody. induction xs as [|x xs IH]; intros s s' Hs; cbn [for_each].
  - now intros [= <-].
  - destruct (body s x) as [s1|e] eqn:E; [|discriminate].
    cbn [rbind]. apply IH. eapply Hbody; eassumption.
Qed.

Lemma BSPPortal_init_inversion (head : BSPElement) (n : nat) (l1 l2 : Path)
    (portal : BSPPortal) :
  BSPPortal_init head n l1 l2 = Ok portal ->
  l1 <> l2
  /\ (exists b i, get head l1 = Some (BSPLeaf b false i))
  /\ (exists b i, get head l2 = Some (BSPLeaf b false i))
  /\ In l1 (iter_neighbors head l2).
Proof.
  intros Hinit. pose proof Hinit as Hdir. unfold BSPPortal_init in Hinit.
  destruct (get head l1) as [[[[[x1 t1] r1] m1] s1 i1|]|] eqn:H1;
    try discriminate.
  destruct (get head l2) as [[[[[x2 t2] r2] m2] s2 i2|]|] eqn:H2;
    try discriminate.
  apply (BSPPortal_init_direction head n l1 l2 portal _ _ _ _ _ _ _ _
           _ _ _ _ H1 H2) in Hdir as (dir & Hdir & _).
  destruct s1; [discriminate|]. destruct s2; [discriminate|].
  apply directed_in_neighbors in Hdir as [Hin Hnb].
  apply in_iter_directed_neighbors in Hin; [|eauto].
  apply adjacent_leaves in Hin as [Hne _].
  split; [congruence|].
  split; [do 2 eexists; reflexivity|].
  split; [do 2 eexists; reflexivity|exact Hnb].
Qed.

(** X25. Every portal that [generate_portals] puts in the set of the
    tree is one that the constructor makes for its own two leaves: two
    different visleaves of the tree of which the first is among the
    neighbours of the second. *)
Theorem generate_portals_links_neighbors (head : BSPElement)
    (st st' : PortalStore) (p : BSPPortal) :
  generate_portals head st = Ok st' ->
  p ∈ tree_portals st' ->
  BSPPortal_init head (pid p) (leaf1 p) (leaf2 p) = Ok p
  /\ leaf1 p <> leaf2 p
  /\ (exists b i, get head (leaf1 p) = Some (BSPLeaf b false i))
  /\ (exists b i, get head (leaf2 p) = Some (BSPLeaf b false i))
  /\ In (leaf1 p) (iter_neighbors head (leaf2 p)).
Proof.
  unfold generate_portals. cbn zeta.
  set (g0 := mkGenState _ _).
  destruct (for_each _ _ g0) as [g|e] eqn:Hrun; [|discriminate].
  cbn [rbind]. intros [= <-] Hp.
  set (Q := fun g : GenState =>
              forall q, q ∈ tree_portals (store g) ->
                BSPPortal_init head (pid q) (leaf1 q) (leaf2 q) = Ok q).
  assert (Hstep : forall V g1 N g2,
             Q g1 -> generate_portals_step head V g1 N = Ok g2 -> Q g2).
  { intros V g1 N g2 Hg. unfold generate_portals_step.
    destruct (leaf_solid head N); [now intros [= <-]|].
    destruct (bool_decide _); [now intros [= <-]|].
    destruct (BSPPortal_init head (next_pid (store g1)) V N)
      as [portal|e] eqn:Hinit; [|discriminate].
    cbn [rbind]. intros [= <-] q. cbn [store tree_portals].
    rewrite elem_of_union, elem_of_singleton. intros [->|Hq]; [|now apply Hg].
    destruct (BSPPortal_init_fields head _ V N portal Hinit)
      as (-> & -> & ->). exact Hinit. }
  assert (Hall : Q g).
  { refine (for_each_inv _ Q _ _ g0 g _ Hrun).
    - intros s V s' Hs Hin.
      exact (for_each_inv (generate_portals_step head V) Q _ (Hstep V)
               s s' Hs Hin).
    - unfold Q, g0. cbn. intros q Hq. now apply elem_of_empty in Hq. }
  split; [now apply Hall|].
  apply (BSPPortal_init_inversion head (pid p) _ _ p). now apply Hall.
Qed.

Lemma generate_portals_links_neighbors_witness :
  BSPPortal_init open_tree
    (pid (mkBSPPortal 0 [true] [false] VERTI (64, 0) (64, 64)))
    (leaf1 (mkBSPPortal 0 [true] [false] VERTI (64, 0) (64, 64)))
    (leaf2 (mkBSPPortal 0 [true] [false] VERTI (64, 0) (64, 64)))
  = Ok (mkBSPPortal 0 [true] [false] VERTI (64, 0) (64, 64))
  /\ leaf1 (mkBSPPortal 0 [true] [false] VERTI (64, 0) (64, 64))
     <> leaf2 (mkBSPPortal 0 [true] [false] VERTI (64, 0) (64, 64))
  /\ (exists b i,
        get open_tree
          (leaf1 (mkBSPPortal 0 [true] [false] VERTI (64, 0) (64, 64)))
        = Some (BSPLeaf b false i))
  /\ (exists b i,
        get open_tree
          (leaf2 (mkBSPPortal 0 [true] [false] VERTI (64, 0) (64, 64)))
        = Some (BSPLeaf b false i))
  /\ In (leaf1 (mkBSPPortal 0 [true] [false] VERTI (64, 0) (64, 64)))
       (iter_neighbors open_tree
          (leaf2 (mkBSPPortal 0 [true] [false] VERTI (64, 0) (64, 64)))).
Proof.
  apply (generate_portals_links_neighbors open_tree empty_store
           (mkPortalStore
              {[mkBSPPortal 0 [true] [false] VERTI (64, 0) (64, 64)]}
              (<[ [false] :=
                    {[mkBSPPortal 0 [true] [false] VERTI (64, 0) (64, 64)]} ]>
                 (<[ [true] :=
                       {[mkBSPPortal 0 [true] [false] VERTI (64, 0)
                           (64, 64)]} ]> ∅)) 1)).
  - reflexivity.
  - cbn. apply elem_of_singleton. reflexivity.
Defined.

End GeneratedPortalFacts.

Section NumberingFacts.
Import BSP Portals Vdf Visibility.
Local Open Scope Z_scope.

Lemma map_ids_under (d : bool) (L : list (Path * BSPElement)) :
  map (fun pe => leafID_of (snd pe)) (map (fun pe => (d :: fst pe, snd pe)) L)
  = map (fun pe => leafID_of (snd pe)) L.
Proof. induction L as [|a L IH]; cbn; [reflexivity|]. now rewrite IH. Qed.

Lemma map_offset_seq (k : Z) (a b : nat) :
  map (fun i => k + Z.of_nat i) (seq a b)
  = map (fun i => k + Z.of_nat a + Z.of_nat i) (seq 0 b).
Proof.
  revert a. induction b as [|b IH]; intros a; cbn [seq map]; [reflexivity|].
  rewrite IH, <- seq_shift, map_map. f_equal; [lia|].
  apply map_ext. intros i. lia.
Qed.

Lemma visleaf_ids_renumber (e : BSPElement) :
  forall k,
    map (fun pe => leafID_of (snd pe))
      (List.filter (fun pe => is_visleaf (snd pe))
         (List.filter (fun pe => is_leaf (snd pe))
            (elements_from [] (fst (renumber e k)))))
    = map (fun i => k + Z.of_nat i)
        (seq 0
           (length
              (List.filter (fun pe => is_visleaf (snd pe))
                 (List.filter (fun pe => is_leaf (snd pe))
                    (elements_from [] (fst (renumber e k)))))))
    /\ snd (renumber e k)
       = k + Z.of_nat
               (length
                  (List.filter (fun pe => is_visleaf (snd pe))
                     (List.filter (fun pe => is_leaf (snd pe))
                        (elements_from [] (fst (renumber e k)))))).
Proof.
  induction e as [b s i|b o pt l IHl r IHr]; intros k.
  - destruct s; cbn; split; try reflexivity; try lia.
    now rewrite Z.add_0_r.
  - cbn [renumber].
    destruct (IHr k) as [Hr1 Hr2]. destruct (renumber r k) as [r' k1].
    destruct (IHl k1) as [Hl1 Hl2]. destruct (renumber l k1) as [l' k2].
    cbn [fst snd] in *.
    rewrite (filter_elements_node is_leaf) by reflexivity.
    rewrite List.filter_app, !(filter_snd_map_fst is_visleaf (cons _)).
    rewrite map_app, !map_ids_under, length_app, !length_map.
    rewrite seq_app, map_app, Hr1, Hl1. split.
    + f_equal. cbn [Nat.add]. rewrite (map_offset_seq k).
      apply map_ext. intros i. lia.
    + lia.
Qed.

Variable VdfText : Type.
Variable format_vdf : KV -> VdfText.

(** X26. After [to_vdf] the leaf ids of the visleaves are 0, 1, ...,
    k - 1 in the order of [iter_visleaves], so that they index every
    square matrix of side k, as [load_visibility_matrix] needs. *)
Theorem to_vdf_numbers_visleaves (t : BSPTree Z)
    (visMatrix : list (list bool)) :
  length visMatrix
  = length (iter_visleaves (head (fst (to_vdf VdfText format_vdf t)))) ->
  (forall row, In row visMatrix -> length row = length visMatrix) ->
  map (fun pe => leafID_of (snd pe))
    (iter_visleaves (head (fst (to_vdf VdfText format_vdf t))))
  = map Z.of_nat (seq 0 (length visMatrix))
  /\ matrix_fits (head (fst (to_vdf VdfText format_vdf t))) visMatrix.
Proof.
  unfold to_vdf. cbn [fst set_head head].
  rewrite number_visleaves_renumber.
  unfold iter_visleaves, iter_leaves. rewrite iter_elements_structural.
  intros Hlen Hrows.
  destruct (visleaf_ids_renumber (head t) 0) as [Hids _].
  rewrite <- Hlen in Hids.
  assert (Hmap : map (fun pe => leafID_of (snd pe))
                   (List.filter (fun pe => is_visleaf (snd pe))
                      (List.filter (fun pe => is_leaf (snd pe))
                         (elements_from [] (fst (renumber (head t) 0)))))
                 = map Z.of_nat (seq 0 (length visMatrix))).
  { rewrite Hids. apply map_ext. intros i. lia. }
  split; [exact Hmap|]. split; [|exact Hrows].
  intros pe Hpe.
  assert (Hin : In (leafID_of (snd pe))
                  (map Z.of_nat (seq 0 (length visMatrix)))).
  { rewrite <- Hmap. apply in_map_iff. exists pe. split; [reflexivity|].
    unfold iter_visleaves, iter_leaves in Hpe.
    now rewrite iter_elements_structural in Hpe. }
  apply in_map_iff in Hin as (i & <- & Hi). apply in_seq in Hi. lia.
Qed.

End NumberingFacts.

Section NumberingWitness.
Import BSP Portals Vdf Visibility.
Local Open Scope Z_scope.

Lemma to_vdf_numbers_visleaves_witness :
  map (fun pe => leafID_of (snd pe))
    (iter_visleaves
       (head (fst (to_vdf KV (fun d => d) Collision.corner_tree))))
  = map Z.of_nat (seq 0 (length [[true; false]; [true; true]]))
  /\ matrix_fits (head (fst (to_vdf KV (fun d => d) Collision.corner_tree)))
       [[true; false]; [true; true]].
Proof.
  apply (to_vdf_numbers_visleaves KV (fun d => d) Collision.corner_tree
           [[true; false]; [true; true]]).
  - reflexivity.
  - intros row [<-|[<-|[]]]; reflexivity.
Defined.

End NumberingWitness.

Section DivideRangeFacts.
Import BSP Vismain.
Local Open Scope Z_scope.

(** X27. Below the root, [divide_leaf] raises [AssertionError] exactly
    when the partition is not strictly inside the bounds of the leaf on
    the axis of the split, and otherwise it succeeds and the leaf
    counter advances by two. *)
Theorem divide_leaf_below_root_iff (t : BSPTree Z) (n : Z) (d : bool)
    (leaf : Path) (e : BSPElement) (o : Orientation) (pt : Z) :
  get (head t) (d :: leaf) = Some e ->
  (divide_leaf t n (d :: leaf) o pt = Err AssertionError
   <-> ~ strictly_between (bounds_of e) o pt)
  /\ (strictly_between (bounds_of e) o pt ->
      exists t', divide_leaf t n (d :: leaf) o pt = Ok (t', n + 2)).
Proof.
  intros Hget.
  assert (Hok : strictly_between (bounds_of e) o pt ->
                exists t', divide_leaf t n (d :: leaf) o pt = Ok (t', n + 2)).
  { intros Hin.
    destruct (divide_leaf_below_root_ok t n d leaf e o pt Hget Hin)
      as (h & _ & Hdiv).
    exists (set_head t h). rewrite Hdiv. do 2 f_equal. lia. }
  split; [|exact Hok]. split.
  - intros Herr Hin. destruct (Hok Hin) as [t' Ht']. congruence.
  - now apply divide_leaf_below_root_checked.
Qed.

Lemma divide_leaf_below_root_iff_witness :
  (divide_leaf split_tree 3 [false] HORIZ 32 = Err AssertionError
   <-> ~ strictly_between (bounds_of (BSPLeaf (0, 0, 64, 64) true 1)) HORIZ 32)
  /\ (strictly_between (bounds_of (BSPLeaf (0, 0, 64, 64) true 1)) HORIZ 32 ->
      exists t', divide_leaf split_tree 3 [false] HORIZ 32 = Ok (t', 3 + 2)).
Proof.
  apply (divide_leaf_below_root_iff split_tree 3 false []
           (BSPLeaf (0, 0, 64, 64) true 1) HORIZ 32).
  reflexivity.
Defined.

(** X28. In a well-formed tree, a point of the world rebased on the top
    left corner of the leaf that [leaf_from_coords] finds for it lies
    inside the surface of that leaf: its coordinates are at least 0 and
    below the width and the height of the leaf. *)
Theorem rebased_point_in_leaf_surface (t : BSPTree Z) (x y : Z) :
  tree_ok t ->
  0 <= x < maxWidth t -> 0 <= y < maxHeight t ->
  exists b s i,
    get (head t) (leaf_from_coords t x y) = Some (BSPLeaf b s i)
    /\ 0 <= fst (new_coord_rebaser (get_top_left (BSPLeaf b s i)) (x, y))
       < get_width (BSPLeaf b s i)
    /\ 0 <= snd (new_coord_rebaser (get_top_left (BSPLeaf b s i)) (x, y))
       < get_height (BSPLeaf b s i).
Proof.
  intros [Hb Hok] Hx Hy.
  destruct (leaf_from_coords_from_contains (head t) x y Hok)
    as (b & s & i & Hget & Hin).
  { rewrite Hb. cbn. lia. }
  exists b, s, i. split; [exact Hget|].
  destruct b as [[[bl bt] br] bb]. cbn in Hin |- *. lia.
Qed.

Lemma rebased_point_in_leaf_surface_witness :
  exists b s i,
    get (head split_tree) (leaf_from_coords split_tree 100 10)
    = Some (BSPLeaf b s i)
    /\ 0 <= fst (new_coord_rebaser (get_top_left (BSPLeaf b s i)) (100, 10))
       < get_width (BSPLeaf b s i)
    /\ 0 <= snd (new_coord_rebaser (get_top_left (BSPLeaf b s i)) (100, 10))
       < get_height (BSPLeaf b s i).
Proof.
  apply (rebased_point_in_leaf_surface split_tree 100 10 split_tree_ok);
    cbn; lia.
Defined.

End DivideRangeFacts.
